(** * log_analyzer: access-log parsing and aggregation

    A shallow embedding of [log_analyzer.py] and the proofs of the
    properties its specification states.

    Text is modelled as [string]: a Python [str] restricted to the code
    points 0..255, one [ascii] per code point.  Python dictionaries whose
    iteration order is observable ([Counter], the report) are association
    lists in insertion order; the record dictionary produced by the line
    parser is a [gmap string string]. *)

From Stdlib Require Import ZArith Ascii String.
From stdpp Require Import base tactics option functions list sorting gmap
  strings pretty.

Local Open Scope Z_scope.

Global Arguments Ascii.eqb : simpl never.
Global Arguments String.eqb : simpl never.

(** ** Text *)

Module Str.

(** [str.isspace] on the code points below 256. *)
Definition isspace (c : ascii) : bool :=
  let n := N_of_ascii c in
  ((9 <=? n) && (n <=? 13) || (28 <=? n) && (n <=? 32)
   || (n =? 133) || (n =? 160))%N.

(** [str.isdecimal], the class [\d] of [re] on [str] patterns. *)
Definition isdigit (c : ascii) : bool :=
  let n := N_of_ascii c in ((48 <=? n) && (n <=? 57))%N.

Definition digit_val (c : ascii) : Z := Z.of_N (N_of_ascii c) - 48.

Fixpoint all (p : ascii → bool) (s : string) : bool :=
  match s with
  | "" => true
  | String c s' => p c && all p s'
  end.

Fixpoint dropwhile (p : ascii → bool) (s : string) : string :=
  match s with
  | "" => ""
  | String c s' => if p c then dropwhile p s' else s
  end.

Fixpoint takewhile (p : ascii → bool) (s : string) : string :=
  match s with
  | "" => ""
  | String c s' => if p c then String c (takewhile p s') else ""
  end.

Fixpoint take (n : nat) (s : string) : string :=
  match n, s with
  | S n', String c s' => String c (take n' s')
  | _, _ => ""
  end.

Fixpoint drop (n : nat) (s : string) : string :=
  match n, s with
  | S n', String c s' => drop n' s'
  | _, _ => s
  end.

(** [s.startswith(p)], returning what follows the prefix. *)
Fixpoint strip_prefix (p s : string) : option string :=
  match p, s with
  | "", _ => Some s
  | String a p', String b s' =>
      if Ascii.eqb a b then strip_prefix p' s' else None
  | String _ _, "" => None
  end.

(** [needle in s]. *)
Fixpoint contains (needle s : string) : bool :=
  match strip_prefix needle s with
  | Some _ => true
  | None => match s with
            | "" => false
            | String _ s' => contains needle s'
            end
  end.

(** [s.strip()]: whitespace removed at both ends. *)
Definition lstrip (s : string) : string := dropwhile isspace s.
Definition rstrip (s : string) : string :=
  String.rev (dropwhile isspace (String.rev s)).
Definition strip (s : string) : string := rstrip (lstrip s).

(** [s.split()]: the maximal runs of non-whitespace characters. *)
Fixpoint split_go (cur : option string) (s : string) : list string :=
  match s with
  | "" => option_list (String.rev <$> cur)
  | String c s' =>
      if isspace c
      then option_list (String.rev <$> cur) ++ split_go None s'
      else split_go (Some (String c (default "" cur))) s'
  end.
Definition split (s : string) : list string := split_go None s.

End Str.

(** ** The subset of [re] used by [LOG_PATTERN] *)

Module Re.

Inductive charset :=
| Digit                       (* \d *)
| Chr (c : ascii)             (* one character *)
| Union (a b : charset)       (* [ab] *)
| Compl (a : charset).        (* [^a] *)

Fixpoint mem (cs : charset) (c : ascii) : bool :=
  match cs with
  | Digit => Str.isdigit c
  | Chr d => Ascii.eqb d c
  | Union a b => mem a c || mem b c
  | Compl a => negb (mem a c)
  end.

Inductive regex :=
| Lit (s : string)                  (* literal text *)
| Plus (cs : charset)               (* [cs]+, greedy *)
| Star (cs : charset)               (* [cs]*, greedy *)
| Alt (r1 r2 : regex)               (* r1|r2, r1 tried first *)
| Seq (r1 r2 : regex)               (* r1r2 *)
| Group (name : string) (r : regex). (* (?P<name>r) *)

Section Matcher.
Context {R : Type}.

(** Greedy repetition with backtracking: the longest run is tried
    first, then every shorter one. *)
Fixpoint star (cs : charset) (s : string) (k : string → option R)
  : option R :=
  match s with
  | String c s' =>
      if mem cs c
      then match star cs s' k with
           | Some r => Some r
           | None => k s
           end
      else k s
  | "" => k s
  end.

Definition plus (cs : charset) (s : string) (k : string → option R)
  : option R :=
  match s with
  | String c s' => if mem cs c then star cs s' k else None
  | "" => None
  end.

(** [rmatch r s g k]: match [r] at the head of [s] with the groups [g]
    captured so far, and hand the rest of the input and the groups to
    [k]; when [k] fails the next alternative of [r] is tried. *)
Fixpoint rmatch (r : regex) (s : string) (g : gmap string string)
    (k : string → gmap string string → option R) : option R :=
  match r with
  | Lit l =>
      match Str.strip_prefix l s with
      | Some s' => k s' g
      | None => None
      end
  | Plus cs => plus cs s (λ s', k s' g)
  | Star cs => star cs s (λ s', k s' g)
  | Alt r1 r2 =>
      match rmatch r1 s g k with
      | Some x => Some x
      | None => rmatch r2 s g k
      end
  | Seq r1 r2 => rmatch r1 s g (λ s' g', rmatch r2 s' g' k)
  | Group name r' =>
      rmatch r' s g (λ s' g',
        k s' (<[name := Str.take (String.length s - String.length s') s]> g'))
  end.
End Matcher.

(** A successful [pattern.match(line)]: the named groups and the end
    offset of the match. *)
Record match_object := MatchObject {
  groupdict : gmap string string;
  match_end : nat
}.

(** [pattern.match(line)]: anchored at the start of [line], not at its
    end. *)
Definition re_match (r : regex) (line : string) : option match_object :=
  rmatch r line ∅
    (λ s' g, Some (MatchObject g (String.length line - String.length s'))).

Infix "·" := Seq (at level 60, right associativity).

End Re.

Import Re.

(** ** The line parser *)

Definition quote : ascii := Eval cbv in ascii_of_N 34.

(** [LOG_PATTERN]: the Combined Log Format regular expression. *)
Definition LOG_PATTERN : regex :=
  Group "ip" (Plus (Union Digit (Chr "."))) ·
  Lit " - - [" ·
  Group "date" (Plus (Compl (Chr "]"))) ·
  Lit (String "]" (String " " (String quote ""))) ·
  Group "request" (Plus (Compl (Chr quote))) ·
  Lit (String quote " ") ·
  Group "status" (Plus Digit) ·
  Lit " " ·
  Group "size" (Alt (Plus Digit) (Lit "-")) ·
  Lit (String " " (String quote "")) ·
  Group "referrer" (Star (Compl (Chr quote))) ·
  Lit (String quote (String " " (String quote ""))) ·
  Group "user_agent" (Star (Compl (Chr quote))) ·
  Lit (String quote "").

(** [parse_log_line]: the dictionary of fields, or [None] if no match. *)
Definition parse_log_line (line : string) : option (gmap string string) :=
  match re_match LOG_PATTERN line with
  | Some m => Some (groupdict m)
  | None => None
  end.

(** ** Exceptions and methods

    A method runs on the state of its receiver and either returns or
    raises; the state reached at the point of a raise is kept, as it is
    in Python. *)

Inductive exn :=
| KeyError (key : string)
| ValueError
| SystemExit (code : Z).

Inductive outcome (A : Type) :=
| Return (a : A)
| Raise (e : exn).
Arguments Return {A} a.
Arguments Raise {A} e.

Definition Method (S A : Type) : Type := S → outcome A * S.

Global Instance method_ret {S} : MRet (Method S) := λ A a σ, (Return a, σ).
Global Instance method_bind {S} : MBind (Method S) := λ A B f m σ,
  match m σ with
  | (Return a, σ') => f a σ'
  | (Raise e, σ') => (Raise e, σ')
  end.

Definition raise {S A} (e : exn) : Method S A := λ σ, (Raise e, σ).
Definition modify {S} (f : S → S) : Method S unit := λ σ, (Return (), f σ).
Definition gets {S A} (f : S → A) : Method S A := λ σ, (Return (f σ), σ).

(** [d[key]] on a dictionary. *)
Definition getitem {S} (d : gmap string string) (key : string)
  : Method S string :=
  match d !! key with
  | Some v => mret v
  | None => raise (KeyError key)
  end.

(** The white space [int] skips at both ends of its argument: the white
    space of C ([Py_ISSPACE]: tab to carriage return, and the space) and,
    of the code points above 127, those that are Unicode white space.
    The separators U+001C to U+001F, which [str.strip] removes, are not
    among them. *)
Definition int_isspace (c : ascii) : bool :=
  let n := N_of_ascii c in
  ((9 <=? n) && (n <=? 13) || (n =? 32) || (n =? 133) || (n =? 160))%N.

Definition int_strip (s : string) : string :=
  String.rev (Str.dropwhile int_isspace
                (String.rev (Str.dropwhile int_isspace s))).

(** The digits of a numeral, with single underscores between digits. *)
Fixpoint int_digits (acc : Z) (after_digit : bool) (s : string) : option Z :=
  match s with
  | "" => if after_digit then Some acc else None
  | String c s' =>
      if Str.isdigit c then int_digits (10 * acc + Str.digit_val c) true s'
      else if Ascii.eqb c "_" && after_digit then int_digits acc false s'
      else None
  end.

(** The number of digits of a numeral, the underscores left out. *)
Fixpoint count_digits (s : string) : Z :=
  match s with
  | "" => 0
  | String c s' => (if Str.isdigit c then 1 else 0) + count_digits s'
  end.

(** [sys.get_int_max_str_digits()], at its default. *)
Definition int_max_str_digits : Z := 4300.

(** The numeral after its sign: [None] when it is not one, and when it
    has more digits than the conversion of a string to [int] allows. *)
Definition int_unsigned (s : string) : option Z :=
  n ← int_digits 0 false s;
  if count_digits s <=? int_max_str_digits then Some n else None.

(** [int(s)] on a string, base 10: white space at both ends and one sign
    are accepted, and single underscores between digits; [None] stands
    for [ValueError]. *)
Definition int_of_string (s : string) : option Z :=
  match int_strip s with
  | String "+" t => int_unsigned t
  | String "-" t => Z.opp <$> int_unsigned t
  | t => int_unsigned t
  end.

Definition int {S} (s : string) : Method S Z :=
  match int_of_string s with
  | Some n => mret n
  | None => raise ValueError
  end.

(** ** Dictionaries in insertion order *)

Module Dict.

Definition t (V : Type) := list (string * V).

Section Ops.
Context {V : Type}.

(** [d.get(k)] *)
Fixpoint lookup (d : t V) (k : string) : option V :=
  match d with
  | [] => None
  | (k', v) :: d' => if String.eqb k' k then Some v else lookup d' k
  end.

(** [d[k] = v]: an existing key keeps its position, a new one goes
    last. *)
Fixpoint set (d : t V) (k : string) (v : V) : t V :=
  match d with
  | [] => [(k, v)]
  | (k', v') :: d' =>
      if String.eqb k' k then (k', v) :: d' else (k', v') :: set d' k v
  end.

Definition keys (d : t V) : list string := d.*1.
Definition values (d : t V) : list V := d.*2.
End Ops.

End Dict.

(** ** [collections.Counter]

    A dictionary of counts. *)

Module Counter.

Definition t := Dict.t Z.

(** [c[k]]: a missing key counts 0 and is not inserted. *)
Definition get (c : t) (k : string) : Z := default 0 (Dict.lookup c k).

(** [c[k] += n]. *)
Definition incr (c : t) (k : string) (n : Z) : t :=
  Dict.set c k (get c k + n).

Definition keep_positive (c : t) : t :=
  filter (λ kv, 0 < kv.2) c.

(** [c += other]: every item of [other] is added, then the items that
    are not positive are dropped. *)
Definition iadd (c other : t) : t :=
  keep_positive (foldl (λ acc kv, incr acc kv.1 kv.2) c other).

(** Insertion of one item into a list sorted by descending count,
    before the items of equal count. *)
Fixpoint insert_desc (x : string * Z) (l : list (string * Z))
  : list (string * Z) :=
  match l with
  | [] => [x]
  | y :: l' => if x.2 <? y.2 then y :: insert_desc x l' else x :: l
  end.

(** [sorted(c.items(), key=itemgetter(1), reverse=True)]: a stable
    sort by descending count, here by insertion from the right. *)
Definition sorted_desc (c : t) : list (string * Z) :=
  foldr insert_desc [] c.

(** [c.most_common(n)]. *)
Definition most_common (n : nat) (c : t) : list (string * Z) :=
  take n (sorted_desc c).

End Counter.

(** ** [LogMetrics] *)

Record error_counts_t := ErrorCounts { e4xx : Z; e5xx : Z }.

Record LogMetrics := mkLogMetrics {
  ip_counter : Counter.t;
  ua_counter : Counter.t;
  uri_counter : Counter.t;
  error_counts : error_counts_t;
  admin_ajax_count : Z;
  total_requests : Z
}.

(** [LogMetrics()] *)
Definition LogMetrics_init : LogMetrics :=
  mkLogMetrics [] [] [] (ErrorCounts 0 0) 0 0.

Definition set_ip_counter (f : Counter.t → Counter.t) (m : LogMetrics) :=
  mkLogMetrics (f (ip_counter m)) (ua_counter m) (uri_counter m)
    (error_counts m) (admin_ajax_count m) (total_requests m).
Definition set_ua_counter (f : Counter.t → Counter.t) (m : LogMetrics) :=
  mkLogMetrics (ip_counter m) (f (ua_counter m)) (uri_counter m)
    (error_counts m) (admin_ajax_count m) (total_requests m).
Definition set_uri_counter (f : Counter.t → Counter.t) (m : LogMetrics) :=
  mkLogMetrics (ip_counter m) (ua_counter m) (f (uri_counter m))
    (error_counts m) (admin_ajax_count m) (total_requests m).
Definition set_e4xx (f : Z → Z) (m : LogMetrics) :=
  mkLogMetrics (ip_counter m) (ua_counter m) (uri_counter m)
    (ErrorCounts (f (e4xx (error_counts m))) (e5xx (error_counts m)))
    (admin_ajax_count m) (total_requests m).
Definition set_e5xx (f : Z → Z) (m : LogMetrics) :=
  mkLogMetrics (ip_counter m) (ua_counter m) (uri_counter m)
    (ErrorCounts (e4xx (error_counts m)) (f (e5xx (error_counts m))))
    (admin_ajax_count m) (total_requests m).
Definition set_admin_ajax_count (f : Z → Z) (m : LogMetrics) :=
  mkLogMetrics (ip_counter m) (ua_counter m) (uri_counter m)
    (error_counts m) (f (admin_ajax_count m)) (total_requests m).
Definition set_total_requests (f : Z → Z) (m : LogMetrics) :=
  mkLogMetrics (ip_counter m) (ua_counter m) (uri_counter m)
    (error_counts m) (admin_ajax_count m) (f (total_requests m)).

(** The request target of [update]: the second token of the request line
    when it has more than one token, the whole request line otherwise. *)
Definition request_uri (request : string) : string :=
  let request_parts := Str.split request in
  if decide (1 < length request_parts)%nat
  then default request (request_parts !! 1%nat)
  else request.

(** [LogMetrics.update] *)
Definition update (data : gmap string string) : Method LogMetrics unit :=
  modify (set_total_requests (λ n, n + 1));;
  ip ← getitem data "ip";
  modify (set_ip_counter (λ c, Counter.incr c ip 1));;
  user_agent ← getitem data "user_agent";
  modify (set_ua_counter (λ c, Counter.incr c user_agent 1));;
  request ← getitem data "request";
  let uri := request_uri request in
  modify (set_uri_counter (λ c, Counter.incr c uri 1));;
  (if Str.contains "admin-ajax.php" uri
   then modify (set_admin_ajax_count (λ n, n + 1))
   else mret ());;
  status_text ← getitem data "status";
  status ← int status_text;
  if decide (400 ≤ status < 500) then modify (set_e4xx (λ n, n + 1))
  else if decide (500 ≤ status < 600) then modify (set_e5xx (λ n, n + 1))
  else mret ().

(** [LogMetrics.merge], the argument given by its value. *)
Definition merge (other : LogMetrics) : Method LogMetrics unit :=
  modify (set_total_requests (λ n, n + total_requests other));;
  modify (set_ip_counter (λ c, Counter.iadd c (ip_counter other)));;
  modify (set_ua_counter (λ c, Counter.iadd c (ua_counter other)));;
  modify (set_uri_counter (λ c, Counter.iadd c (uri_counter other)));;
  modify (set_e4xx (λ n, n + e4xx (error_counts other)));;
  modify (set_e5xx (λ n, n + e5xx (error_counts other)));;
  modify (set_admin_ajax_count (λ n, n + admin_ajax_count other)).

(** ** Timestamps *)

(** An aware [datetime]: the wall-clock fields and the UTC offset of its
    [timezone], in microseconds. *)
Record datetime := mkDatetime {
  year : Z; month : Z; day : Z;
  hour : Z; minute : Z; second : Z; microsecond : Z;
  utcoffset : Z
}.

Module Datetime.

Definition is_leap (y : Z) : bool :=
  (y mod 4 =? 0) && (negb (y mod 100 =? 0) || (y mod 400 =? 0)).

Definition days_in_month (y m : Z) : Z :=
  if m =? 2 then (if is_leap y then 29 else 28)
  else if (m =? 4) || (m =? 6) || (m =? 9) || (m =? 11) then 30
  else 31.

Definition days_before_year (y : Z) : Z :=
  let y := y - 1 in y * 365 + y / 4 - y / 100 + y / 400.

Definition days_before_month (y m : Z) : Z :=
  nth (Z.to_nat m) [0; 0; 31; 59; 90; 120; 151; 181; 212; 243; 273; 304; 334] 0
  + (if (2 <? m) && is_leap y then 1 else 0).

(** The proleptic Gregorian ordinal of a date. *)
Definition ymd2ord (y m d : Z) : Z :=
  days_before_year y + days_before_month y m + d.

(** The instant denoted, in microseconds of UTC: what comparison and
    subtraction of aware datetimes are computed on. *)
Definition utc_micros (t : datetime) : Z :=
  (((ymd2ord (year t) (month t) (day t) * 24 + hour t) * 60 + minute t) * 60
   + second t) * 1000000 + microsecond t - utcoffset t.

Definition lt (a b : datetime) : bool := utc_micros a <? utc_micros b.
Definition gt (a b : datetime) : bool := utc_micros b <? utc_micros a.

(** [a - b], a [timedelta] in microseconds. *)
Definition sub (a b : datetime) : Z := utc_micros a - utc_micros b.

(** [timedelta(hours=h)] *)
Definition timedelta_hours (h : Z) : Z := h * 3600 * 1000000.

(** The decimal digit of the units of [n]. *)
Definition digit_char (n : Z) : ascii :=
  ascii_of_N (Z.to_N (48 + n mod 10)).

(** Two digits, with a leading zero: [%m] and [%d]. *)
Definition fmt2 (n : Z) : string :=
  String (digit_char (n / 10)) (String (digit_char n) "").

(** Four digits, with leading zeros. *)
Definition fmt4 (n : Z) : string :=
  String (digit_char (n / 1000)) (String (digit_char (n / 100)) (fmt2 n)).

(** [t.strftime("%Y-%m-%d")] as the C library of the platform writes it:
    [%Y] is the year in decimal, which glibc does not pad with zeros (the
    year 999 is written 999), [%m] and [%d] have two digits. *)
Definition strftime_ymd (t : datetime) : string :=
  pretty (year t) +:+ "-" +:+ fmt2 (month t) +:+ "-" +:+ fmt2 (day t).

(** The arguments [datetime(...)] and [timezone(...)] accept. *)
Definition valid (t : datetime) : bool :=
  (1 <=? year t) && (year t <=? 9999) &&
  (1 <=? month t) && (month t <=? 12) &&
  (1 <=? day t) && (day t <=? days_in_month (year t) (month t)) &&
  (0 <=? hour t) && (hour t <=? 23) &&
  (0 <=? minute t) && (minute t <=? 59) &&
  (0 <=? second t) && (second t <=? 59) &&
  (0 <=? microsecond t) && (microsecond t <=? 999999) &&
  (- timedelta_hours 24 <? utcoffset t) && (utcoffset t <? timedelta_hours 24).

End Datetime.

(** ** [datetime.strptime] for the format of [parse_log_date]

    The directives of ["%d/%b/%Y:%H:%M:%S %z"] in the C locale.  Each
    directive is an ordered choice; what follows every numeric directive
    in this format is a character no digit can stand for, so the first
    alternative that matches is the only one that can lead to a match. *)

Module Strptime.

Definition parser (A : Type) : Type := string → option (A * string).

Definition or_else {A} (p q : parser A) : parser A := λ s,
  match p s with
  | Some r => Some r
  | None => q s
  end.
Infix "<|>" := or_else (at level 50, left associativity).

(** One digit between [lo] and [hi]. *)
Definition digit_in (lo hi : Z) : parser Z := λ s,
  match s with
  | String c s' =>
      if Str.isdigit c && (lo <=? Str.digit_val c) && (Str.digit_val c <=? hi)
      then Some (Str.digit_val c, s')
      else None
  | "" => None
  end.

Definition digit : parser Z := digit_in 0 9.

Definition two (p q : parser Z) : parser Z := λ s,
  '(a, s) ← p s; '(b, s) ← q s; Some (10 * a + b, s).

Definition literal (l : string) : parser unit := λ s,
  s' ← Str.strip_prefix l s; Some ((), s').

(** [%d]: 3[0-1]|[1-2]\d|0[1-9]|[1-9]| [1-9] *)
Definition directive_d : parser Z :=
  two (digit_in 3 3) (digit_in 0 1) <|> two (digit_in 1 2) digit <|>
  two (digit_in 0 0) (digit_in 1 9) <|> digit_in 1 9 <|>
  (λ s, '(_, s) ← literal " " s; digit_in 1 9 s).

Definition lower (c : ascii) : ascii :=
  let n := N_of_ascii c in
  if ((65 <=? n) && (n <=? 90))%N then ascii_of_N (n + 32) else c.

Fixpoint lower_str (s : string) : string :=
  match s with
  | "" => ""
  | String c s' => String (lower c) (lower_str s')
  end.

Definition a_month : list string :=
  ["jan"; "feb"; "mar"; "apr"; "may"; "jun";
   "jul"; "aug"; "sep"; "oct"; "nov"; "dec"].

(** [%b]: an abbreviated month name, in any case. *)
Definition directive_b : parser Z := λ s,
  '(i, _) ← list_find (λ name, name = lower_str (Str.take 3 s)) a_month;
  Some (Z.of_nat i + 1, Str.drop 3 s).

(** [%Y]: \d\d\d\d *)
Definition directive_Y : parser Z := λ s,
  '(a, s) ← two digit digit s; '(b, s) ← two digit digit s;
  Some (100 * a + b, s).

(** [%H]: 2[0-3]|[0-1]\d|\d *)
Definition directive_H : parser Z :=
  two (digit_in 2 2) (digit_in 0 3) <|> two (digit_in 0 1) digit <|> digit.

(** [%M]: [0-5]\d|\d *)
Definition directive_M : parser Z :=
  two (digit_in 0 5) digit <|> digit.

(** [%S]: 6[0-1]|[0-5]\d|\d *)
Definition directive_S : parser Z :=
  two (digit_in 6 6) (digit_in 0 1) <|> two (digit_in 0 5) digit <|> digit.

(** White space in the format: \s+ *)
Definition whitespace : parser unit := λ s,
  match s with
  | String c s' =>
      if Str.isspace c then Some ((), Str.dropwhile Str.isspace s') else None
  | "" => None
  end.

Definition sign : parser Z := λ s,
  match s with
  | String "+" s' => Some (1, s')
  | String "-" s' => Some (-1, s')
  | _ => None
  end.

Definition optional_colon : parser bool := λ s,
  match s with
  | String ":" s' => Some (true, s')
  | _ => Some (false, s)
  end.

(** Up to [n] digits of a fraction, scaled to [n] places. *)
Fixpoint fraction (n : nat) (acc : Z) (s : string) : Z * string :=
  match n with
  | O => (acc, s)
  | S n' =>
      match digit s with
      | Some (d, s') => fraction n' (10 * acc + d) s'
      | None => fraction n' (10 * acc) s
      end
  end.

(** (\.\d{1,6})? *)
Definition optional_fraction : parser Z := λ s,
  match s with
  | String "." s' =>
      match digit s' with
      | Some _ => Some (fraction 6 0 s')
      | None => Some (0, s)
      end
  | _ => Some (0, s)
  end.

(** (:?[0-5]\d(\.\d{1,6})?)?, with the colon required exactly when the
    hours and minutes are separated by one; seconds and fraction in
    microseconds. *)
Definition optional_seconds (colon : bool) : parser Z := λ s,
  match (λ s, '(c, s) ← optional_colon s;
              '(sec, s) ← two (digit_in 0 5) digit s;
              '(frac, s) ← optional_fraction s;
              Some ((c, sec * 1000000 + frac), s)) s with
  | Some ((c, micros), s') =>
      if decide (c = colon) then Some (micros, s') else None
  | None => Some (0, s)
  end.

(** [%z]: [+-]\d\d:?[0-5]\d(:?[0-5]\d(\.\d{1,6})?)?|Z, as an offset in
    microseconds. *)
Definition directive_z : parser Z :=
  (λ s, '(sg, s) ← sign s;
        '(hh, s) ← two digit digit s;
        '(colon, s) ← optional_colon s;
        '(mm, s) ← two (digit_in 0 5) digit s;
        '(micros, s) ← optional_seconds colon s;
        Some (sg * ((hh * 3600 + mm * 60) * 1000000 + micros), s))
  <|> (λ s, '(_, s) ← literal "Z" s; Some (0, s)).

(** The fields of a text that matches the whole format. *)
Definition match_format (s : string) : option datetime :=
  '(dd, s) ← directive_d s;
  '(_, s) ← literal "/" s;
  '(mon, s) ← directive_b s;
  '(_, s) ← literal "/" s;
  '(yyyy, s) ← directive_Y s;
  '(_, s) ← literal ":" s;
  '(hh, s) ← directive_H s;
  '(_, s) ← literal ":" s;
  '(mi, s) ← directive_M s;
  '(_, s) ← literal ":" s;
  '(ss, s) ← directive_S s;
  '(_, s) ← whitespace s;
  '(z, s) ← directive_z s;
  if decide (s = "") then Some (mkDatetime yyyy mon dd hh mi ss 0 z)
  else None.

(** [datetime.strptime(s, "%d/%b/%Y:%H:%M:%S %z")]; [None] stands for
    [ValueError], raised when the text does not match the format or the
    fields are not those of a [datetime]. *)
Definition strptime (s : string) : option datetime :=
  t ← match_format s;
  if Datetime.valid t then Some t else None.

End Strptime.

(** [parse_log_date]: the timestamp, or [None] on [ValueError]. *)
Definition parse_log_date (date_str : string) : option datetime :=
  Strptime.strptime date_str.

(** ** [analyze_file] *)

(** The local variables of [analyze_file] during the scan. *)
Record scan := mkScan {
  metrics_by_date : Dict.t LogMetrics;
  min_ts : option datetime;
  max_ts : option datetime
}.

Definition scan_init : scan := mkScan [] None None.

Definition set_metrics_by_date (f : Dict.t LogMetrics → Dict.t LogMetrics)
    (σ : scan) : scan :=
  mkScan (f (metrics_by_date σ)) (min_ts σ) (max_ts σ).

(** [for x in l: body(x)] *)
Fixpoint for_each {S A} (l : list A) (body : A → Method S unit)
  : Method S unit :=
  match l with
  | [] => mret ()
  | x :: l' => body x;; for_each l' body
  end.

(** [metrics_by_date[date_key].m(...)]: a method call on the aggregate
    stored under [date_key]. *)
Definition on_bucket (date_key : string) (m : Method LogMetrics unit)
  : Method scan unit := λ σ,
  match Dict.lookup (metrics_by_date σ) date_key with
  | Some b =>
      let '(r, b') := m b in
      (r, set_metrics_by_date (λ d, Dict.set d date_key b') σ)
  | None => (Raise (KeyError date_key), σ)
  end.

(** The body of the loop over the lines of the file. *)
Definition analyze_line (line : string) : Method scan unit :=
  let line := Str.strip line in
  if decide (line = "") then mret ()
  else
    match parse_log_line line with
    | Some data =>
        if decide (data = ∅) then mret ()
        else
          date ← getitem data "date";
          match parse_log_date date with
          | Some ts =>
              modify (λ σ,
                match min_ts σ with
                | Some t => if Datetime.lt ts t
                            then mkScan (metrics_by_date σ) (Some ts) (max_ts σ)
                            else σ
                | None => mkScan (metrics_by_date σ) (Some ts) (max_ts σ)
                end);;
              modify (λ σ,
                match max_ts σ with
                | Some t => if Datetime.gt ts t
                            then mkScan (metrics_by_date σ) (min_ts σ) (Some ts)
                            else σ
                | None => mkScan (metrics_by_date σ) (min_ts σ) (Some ts)
                end);;
              let date_key := Datetime.strftime_ymd ts in
              modify (λ σ,
                match Dict.lookup (metrics_by_date σ) date_key with
                | Some _ => σ
                | None =>
                    set_metrics_by_date
                      (λ d, Dict.set d date_key LogMetrics_init) σ
                end);;
              on_bucket date_key (update data)
          | None => mret ()
          end
    | None => mret ()
    end.

(** [analyze_file], on the lines the file yields.  An exception raised
    during the scan ends the program through [sys.exit(1)]. *)
Definition analyze_file (lines : list string)
  : outcome (Dict.t LogMetrics) :=
  match for_each lines analyze_line scan_init with
  | (Raise _, _) => Raise (SystemExit 1)
  | (Return _, σ) =>
      match min_ts σ, max_ts σ with
      | Some mn, Some mx =>
          if Datetime.sub mx mn <? Datetime.timedelta_hours 24
          then
            let summary_metrics :=
              (for_each (Dict.values (metrics_by_date σ)) merge
                 LogMetrics_init).2 in
            Return [("Summary", summary_metrics)]
          else Return (metrics_by_date σ)
      | _, _ => Return (metrics_by_date σ)
      end
  end.

(** ** The report *)

Fixpoint spaces (n : nat) : string :=
  match n with
  | O => ""
  | S n' => String " " (spaces n')
  end.

(** [f"{count:<5} {value}"] *)
Definition ranked_line (item : string * Z) : string :=
  let digits := pretty item.2 in
  digits +:+ spaces (5 - String.length digits) +:+ " " +:+ item.1.

(** The lines printed under one "Top 20" heading. *)
Definition top20 (c : Counter.t) : list string :=
  ranked_line <$> Counter.most_common 20 c.

(** [print_metrics], as the list of the lines printed. *)
Definition print_metrics (title : string) (metrics : LogMetrics)
  : list string :=
  [ "=== " +:+ title +:+ " ===";
    "Total Requests: " +:+ pretty (total_requests metrics);
    "Admin-ajax Requests: " +:+ pretty (admin_ajax_count metrics);
    "4xx Errors: " +:+ pretty (e4xx (error_counts metrics));
    "5xx Errors: " +:+ pretty (e5xx (error_counts metrics));
    "";
    "--- Top 20 Source IPs ---" ]
  ++ top20 (ip_counter metrics) ++
  [ ""; "--- Top 20 User Agents ---" ]
  ++ top20 (ua_counter metrics) ++
  [ ""; "--- Top 20 URIs ---" ]
  ++ top20 (uri_counter metrics) ++
  [ ""; "=============================="; "" ].

(** [print_report]: the buckets in ascending order of their labels. *)
Definition print_report (results : Dict.t LogMetrics) : list string :=
  mjoin ((λ date_key,
            match Dict.lookup results date_key with
            | Some m => print_metrics date_key m
            | None => []
            end) <$> merge_sort String.le (Dict.keys results)).

(** * Properties *)

(** ** Text *)

Section StrLemmas.

Lemma sapp_nil_l (s : string) : "" +:+ s = s.
Proof. done. Qed.

Lemma sapp_cons (c : ascii) (s t : string) :
  String c s +:+ t = String c (s +:+ t).
Proof. done. Qed.

Lemma sapp_nil_r (s : string) : s +:+ "" = s.
Proof. induction s as [|c s IH]; [done|]. by rewrite sapp_cons, IH. Qed.

Lemma sapp_assoc (s t u : string) : (s +:+ t) +:+ u = s +:+ t +:+ u.
Proof. induction s as [|c s IH]; [done|]. by rewrite !sapp_cons, IH. Qed.

Lemma slength_app (s t : string) :
  String.length (s +:+ t) = (String.length s + String.length t)%nat.
Proof. induction s as [|c s IH]; [done|]. rewrite sapp_cons. simpl. lia. Qed.

Lemma stake_app_length (s t : string) :
  Str.take (String.length (s +:+ t) - String.length t) (s +:+ t) = s.
Proof.
  rewrite slength_app.
  replace (String.length s + String.length t - String.length t)%nat
    with (String.length s) by lia.
  induction s as [|c s IH].
  - by destruct t.
  - rewrite sapp_cons. simpl. by rewrite IH.
Qed.

Lemma strip_prefix_Some (p s s' : string) :
  Str.strip_prefix p s = Some s' ↔ s = p +:+ s'.
Proof.
  revert s. induction p as [|a p IH]; intros s; simpl.
  - rewrite sapp_nil_l. naive_solver.
  - destruct s as [|b s]; [done|]. rewrite sapp_cons.
    destruct (Ascii.eqb_spec a b) as [->|Hne].
    + rewrite IH. split; [by intros ->|by intros [=]].
    + split; [done|]. intros [=]. done.
Qed.

Lemma strip_prefix_app (p s : string) : Str.strip_prefix p (p +:+ s) = Some s.
Proof. by apply strip_prefix_Some. Qed.

Lemma sall_app (p : ascii → bool) (s t : string) :
  Str.all p (s +:+ t) = Str.all p s && Str.all p t.
Proof.
  induction s as [|c s IH]; [done|].
  rewrite sapp_cons. simpl. by rewrite IH, andb_assoc.
Qed.

End StrLemmas.

(** ** The matcher

    What a regular expression denotes, and the matcher against it: the
    matcher finds a match exactly when one exists, and what it returns is
    one. *)

(** [denote r pre g g']: [r] matches the text [pre] and turns the groups
    [g] into [g']. *)
Fixpoint denote (r : regex) (pre : string) (g g' : gmap string string)
  : Prop :=
  match r with
  | Lit l => pre = l ∧ g' = g
  | Plus cs => pre ≠ "" ∧ Str.all (mem cs) pre = true ∧ g' = g
  | Star cs => Str.all (mem cs) pre = true ∧ g' = g
  | Alt r1 r2 => denote r1 pre g g' ∨ denote r2 pre g g'
  | Seq r1 r2 =>
      ∃ p1 p2 g1, pre = p1 +:+ p2 ∧ denote r1 p1 g g1 ∧ denote r2 p2 g1 g'
  | Group name r' => ∃ g1, denote r' pre g g1 ∧ g' = <[name := pre]> g1
  end.

Section MatcherLemmas.
Context {R : Type}.
Implicit Types (cs : charset) (r : regex) (g : gmap string string).

Lemma star_sound cs s (k : string → option R) x :
  star cs s k = Some x →
  ∃ pre rest, s = pre +:+ rest ∧ Str.all (mem cs) pre = true ∧ k rest = Some x.
Proof.
  induction s as [|c s IH]; simpl; intros H.
  - by exists "", "".
  - destruct (mem cs c) eqn:Hc; [|by exists "", (String c s)].
    destruct (star cs s k) as [x'|] eqn:Hs.
    + destruct (IH H) as (pre & rest & -> & Hall & Hk).
      exists (String c pre), rest. simpl. by rewrite Hc, Hall.
    + by exists "", (String c s).
Qed.

Lemma plus_sound cs s (k : string → option R) x :
  plus cs s k = Some x →
  ∃ pre rest, s = pre +:+ rest ∧ pre ≠ "" ∧
              Str.all (mem cs) pre = true ∧ k rest = Some x.
Proof.
  destruct s as [|c s]; simpl; [done|].
  destruct (mem cs c) eqn:Hc; [|done].
  intros (pre & rest & -> & Hall & Hk)%star_sound.
  exists (String c pre), rest. simpl. by rewrite Hc, Hall.
Qed.

Lemma star_complete cs pre rest (k : string → option R) :
  star cs (pre +:+ rest) k = None →
  Str.all (mem cs) pre = true → k rest = None.
Proof.
  induction pre as [|c pre IH]; intros H Hall.
  - rewrite sapp_nil_l in H. destruct rest as [|c rest]; [done|].
    simpl in H. destruct (mem cs c); [|done].
    by destruct (star cs rest k).
  - rewrite sapp_cons in H. simpl in *.
    apply andb_true_iff in Hall as [Hc Hall]. rewrite Hc in H.
    destruct (star cs (pre +:+ rest) k) eqn:Hs; [done|]. by apply IH.
Qed.

Lemma plus_complete cs pre rest (k : string → option R) :
  plus cs (pre +:+ rest) k = None →
  pre ≠ "" → Str.all (mem cs) pre = true → k rest = None.
Proof.
  destruct pre as [|c pre]; [done|]. intros H _ Hall.
  rewrite sapp_cons in H. simpl in *.
  apply andb_true_iff in Hall as [Hc Hall]. rewrite Hc in H.
  by eapply star_complete.
Qed.

(** Whatever the matcher hands to its continuation is a match. *)
Lemma rmatch_sound r s g (k : string → gmap string string → option R) x :
  rmatch r s g k = Some x →
  ∃ pre rest g', s = pre +:+ rest ∧ denote r pre g g' ∧ k rest g' = Some x.
Proof.
  revert s g k. induction r as [l|cs|cs|r1 IH1 r2 IH2|r1 IH1 r2 IH2|n r IH];
    intros s g k; simpl.
  - destruct (Str.strip_prefix l s) as [s'|] eqn:Hl; [|done].
    apply strip_prefix_Some in Hl as ->. intros Hk.
    by exists l, s', g.
  - intros (pre & rest & -> & ? & ? & ?)%plus_sound.
    by exists pre, rest, g.
  - intros (pre & rest & -> & ? & ?)%star_sound.
    by exists pre, rest, g.
  - destruct (rmatch r1 s g k) as [x'|] eqn:H1.
    + intros [= ->]. apply IH1 in H1 as (pre & rest & g' & ? & ? & ?).
      exists pre, rest, g'. auto.
    + intros (pre & rest & g' & ? & ? & ?)%IH2.
      exists pre, rest, g'. auto.
  - intros (p1 & s1 & g1 & -> & Hd1 & H2)%IH1.
    apply IH2 in H2 as (p2 & rest & g' & -> & Hd2 & Hk).
    exists (p1 +:+ p2), rest, g'. rewrite sapp_assoc.
    split_and!; [done| |done]. by exists p1, p2, g1.
  - intros (pre & rest & g1 & -> & Hd & Hk)%IH.
    rewrite stake_app_length in Hk.
    exists pre, rest, (<[n := pre]> g1). split_and!; [done| |done].
    by exists g1.
Qed.

(** When the matcher fails, no match leads to a continuation that
    succeeds. *)
Lemma rmatch_complete r pre rest g g'
    (k : string → gmap string string → option R) :
  rmatch r (pre +:+ rest) g k = None →
  denote r pre g g' → k rest g' = None.
Proof.
  revert pre rest g g' k.
  induction r as [l|cs|cs|r1 IH1 r2 IH2|r1 IH1 r2 IH2|n r IH];
    intros pre rest g g' k; simpl.
  - intros H [-> ->]. by rewrite strip_prefix_app in H.
  - intros H (? & ? & ->). by eapply plus_complete in H.
  - intros H (? & ->). by eapply star_complete in H.
  - destruct (rmatch r1 (pre +:+ rest) g k) eqn:H1; [done|].
    intros H2 [Hd|Hd]; eauto.
  - intros H (p1 & p2 & g1 & -> & Hd1 & Hd2).
    rewrite sapp_assoc in H. eapply IH2; [|done].
    by apply (IH1 _ _ _ _ _ H).
  - intros H (g1 & Hd & ->).
    apply (IH _ _ _ _ _ H) in Hd. by rewrite stake_app_length in Hd.
Qed.

End MatcherLemmas.

(** [pattern.match] returns a match of a prefix of the line, with the
    groups it captured and the offset where it ends. *)
Lemma re_match_sound (r : regex) (line : string) (m : match_object) :
  re_match r line = Some m →
  ∃ pre rest, line = pre +:+ rest ∧ denote r pre ∅ (groupdict m) ∧
              match_end m = String.length pre.
Proof.
  unfold re_match.
  intros (pre & rest & g' & -> & Hd & [= <-])%rmatch_sound.
  exists pre, rest. simpl. split_and!; [done..|].
  rewrite slength_app. lia.
Qed.

(** [pattern.match] finds a match whenever a prefix of the line has
    one. *)
Lemma re_match_complete (r : regex) (pre rest : string) g :
  denote r pre ∅ g → is_Some (re_match r (pre +:+ rest)).
Proof.
  intros Hd. destruct (re_match r (pre +:+ rest)) eqn:H; [done|].
  unfold re_match in H. by eapply rmatch_complete in H.
Qed.

(** ** The Combined Log Format grammar

    The grammar of the specification, stated on its own: seven fields and
    the fixed text between them. *)

Record fields := Fields {
  f_ip : string; f_date : string; f_request : string; f_status : string;
  f_size : string; f_referrer : string; f_user_agent : string
}.

Definition dq : string := String quote "".

(** The seven fields in order, separated by the fixed text of the
    access-log format; [dq] stands for the double-quote character. *)
Definition serialize (f : fields) : string :=
  f_ip f +:+ " - - [" +:+ f_date f +:+ ("] " +:+ dq) +:+ f_request f +:+
  (dq +:+ " ") +:+ f_status f +:+ " " +:+ f_size f +:+ (" " +:+ dq) +:+
  f_referrer f +:+ (dq +:+ " " +:+ dq) +:+ f_user_agent f +:+ dq.

Definition nonempty_of (p : ascii → bool) (s : string) : Prop :=
  s ≠ "" ∧ Str.all p s = true.

Record well_formed (f : fields) : Prop := WellFormed {
  wf_ip : nonempty_of (λ c, Str.isdigit c || Ascii.eqb "." c) (f_ip f);
  wf_date : nonempty_of (λ c, negb (Ascii.eqb "]" c)) (f_date f);
  wf_request : nonempty_of (λ c, negb (Ascii.eqb quote c)) (f_request f);
  wf_status : nonempty_of Str.isdigit (f_status f);
  wf_size : f_size f = "-" ∨ nonempty_of Str.isdigit (f_size f);
  wf_referrer : Str.all (λ c, negb (Ascii.eqb quote c)) (f_referrer f) = true;
  wf_user_agent :
    Str.all (λ c, negb (Ascii.eqb quote c)) (f_user_agent f) = true
}.

(** A line matches the grammar when it starts with the serialization of
    well-formed fields. *)
Definition matches_grammar (line : string) : Prop :=
  ∃ f rest, well_formed f ∧ line = serialize f +:+ rest.

(** The dictionary of a match. *)
Definition to_dict (f : fields) : gmap string string :=
  <["user_agent" := f_user_agent f]> (<["referrer" := f_referrer f]>
  (<["size" := f_size f]> (<["status" := f_status f]>
  (<["request" := f_request f]> (<["date" := f_date f]>
  (<["ip" := f_ip f]> ∅)))))).


(** What [LOG_PATTERN] denotes is the grammar. *)
Lemma denote_LOG_PATTERN (pre : string) (g : gmap string string) :
  denote LOG_PATTERN pre ∅ g ↔
  ∃ f, well_formed f ∧ pre = serialize f ∧ g = to_dict f.
Proof.
  unfold LOG_PATTERN. cbn [denote]. split.
  - intros H.
    repeat match goal with
           | H : ∃ _, _ |- _ => destruct H as [? H]
           | H : _ ∧ _ |- _ => destruct H as [? H]
           | H : _ ∨ _ |- _ => destruct H as [H|H]
           end; subst.
    all: eexists (Fields _ _ _ _ _ _ _); split_and!.
    3, 6: reflexivity.
    2, 4: reflexivity.
    all: split; simpl;
      first [eassumption | by split | by right; split | by left].
  - intros ([ip date req st sz ref ua] & [[??] [??] [??] [??] Hsz ? ?] & -> & ->).
    unfold serialize, to_dict.
    cbn [f_ip f_date f_request f_status f_size f_referrer f_user_agent] in *.
    destruct Hsz as [->|[??]];
      repeat first [ eassumption | reflexivity | split | eexists
                   | left; by repeat split | right; by repeat split ].
Qed.

(** The grammar is unambiguous: a run of characters of a class ends at
    the first character outside it. *)
Lemma run_unique (p : ascii → bool) (a b : string) c c' r r' :
  Str.all p a = true → Str.all p b = true → p c = false → p c' = false →
  a +:+ String c r = b +:+ String c' r' →
  a = b ∧ String c r = String c' r'.
Proof.
  revert b. induction a as [|x a IH]; intros [|y b] Ha Hb Hc Hc' E;
    rewrite ?sapp_cons, ?sapp_nil_l in E; simpl in *.
  - done.
  - injection E as -> _. apply andb_true_iff in Hb as [? _]. congruence.
  - injection E as -> _. apply andb_true_iff in Ha as [? _]. congruence.
  - injection E as -> E.
    apply andb_true_iff in Ha as [_ Ha]. apply andb_true_iff in Hb as [_ Hb].
    destruct (IH b Ha Hb Hc Hc' E) as [-> ?]. done.
Qed.

Lemma field_unique (p : ascii → bool) (a b : string) c l r r' :
  Str.all p a = true → Str.all p b = true → p c = false →
  a +:+ String c l +:+ r = b +:+ String c l +:+ r' →
  a = b ∧ r = r'.
Proof.
  intros Ha Hb Hc E. rewrite !sapp_cons in E.
  destruct (run_unique p a b c c _ _ Ha Hb Hc Hc E) as [-> E'].
  split; [done|]. injection E' as E'. by apply (inj (String.app l)).
Qed.

Lemma all_impl (p q : ascii → bool) (s : string) :
  (∀ c, p c = true → q c = true) → Str.all p s = true → Str.all q s = true.
Proof.
  intros Hpq. induction s as [|c s IH]; simpl; [done|].
  intros [? ?]%andb_true_iff. apply andb_true_iff. auto.
Qed.

Lemma serialize_inj (f f' : fields) (rest rest' : string) :
  well_formed f → well_formed f' →
  serialize f +:+ rest = serialize f' +:+ rest' →
  f = f' ∧ rest = rest'.
Proof.
  destruct f as [ip date req st sz ref ua], f' as [ip' date' req' st' sz' ref' ua'].
  intros [[_ Hip] [_ Hdate] [_ Hreq] [_ Hst] Hsz Href Hua]
         [[_ Hip'] [_ Hdate'] [_ Hreq'] [_ Hst'] Hsz' Href' Hua'].
  cbn [f_ip f_date f_request f_status f_size f_referrer f_user_agent] in *.
  unfold serialize.
  cbn [f_ip f_date f_request f_status f_size f_referrer f_user_agent].
  unfold dq. rewrite !sapp_assoc. intros E.
  assert (∀ s, s = "-" ∨ nonempty_of Str.isdigit s →
               Str.all (λ c, Str.isdigit c || Ascii.eqb "-" c) s = true)
    as Hsize.
  { intros s [->|[_ H]]; [done|].
    eapply all_impl; [|done]. by intros c ->. }
  apply Hsize in Hsz, Hsz'.
  repeat match goal with
         | Ha : Str.all _ ?a = true, Hb : Str.all _ ?b = true,
           E : ?a +:+ _ = ?b +:+ _ |- _ =>
             apply (field_unique _ _ _ _ _ _ _ Ha Hb) in E as [-> E];
             [clear Ha Hb|done]
         | E : ?l +:+ _ = ?l +:+ _ |- _ => apply (inj (String.app l)) in E
         end.
  by subst.
Qed.

(** [parse_log_line] decides the grammar and returns the fields of the
    unique match. *)
Lemma parse_log_line_Some (line : string) (d : gmap string string) :
  parse_log_line line = Some d ↔
  ∃ f rest, well_formed f ∧ line = serialize f +:+ rest ∧ d = to_dict f.
Proof.
  unfold parse_log_line. split.
  - destruct (re_match LOG_PATTERN line) as [m|] eqn:Hm; [|done].
    intros [= <-].
    apply re_match_sound in Hm as (pre & rest & -> & Hd & _).
    apply denote_LOG_PATTERN in Hd as (f & ? & -> & ?). by exists f, rest.
  - intros (f & rest & Hwf & -> & ->).
    assert (denote LOG_PATTERN (serialize f) ∅ (to_dict f)) as Hd.
    { apply denote_LOG_PATTERN. by exists f. }
    destruct (re_match_complete _ _ rest _ Hd) as [m Hm]. rewrite Hm.
    apply re_match_sound in Hm as (pre & rest' & E & Hd' & _).
    apply denote_LOG_PATTERN in Hd' as (f' & Hwf' & -> & ->).
    by apply serialize_inj in E as [-> _].
Qed.

Lemma parse_log_line_None (line : string) :
  parse_log_line line = None ↔ ¬ matches_grammar line.
Proof.
  unfold matches_grammar. split.
  - intros H (f & rest & Hwf & E).
    assert (parse_log_line line = Some (to_dict f)) as H'.
    { apply parse_log_line_Some. by exists f, rest. }
    congruence.
  - intros H. destruct (parse_log_line line) as [d|] eqn:Hd; [|done].
    apply parse_log_line_Some in Hd as (f & rest & ? & ? & ?).
    destruct H. by exists f, rest.
Qed.

(** ** Dictionaries *)

Section DictLemmas.
Context {V : Type}.
Implicit Types (d : Dict.t V) (k : string) (v : V).

Lemma lookup_set d k v k' :
  Dict.lookup (Dict.set d k v) k' =
  if decide (k = k') then Some v else Dict.lookup d k'.
Proof.
  induction d as [|[k0 v0] d IH]; simpl.
  - destruct (String.eqb_spec k k'); by case_decide.
  - destruct (String.eqb_spec k0 k) as [->|Hne]; simpl.
    + destruct (String.eqb_spec k k'); by case_decide.
    + destruct (String.eqb_spec k0 k'); [|done].
      case_decide; [congruence|done].
Qed.

Lemma lookup_None d k : Dict.lookup d k = None ↔ k ∉ Dict.keys d.
Proof.
  unfold Dict.keys. induction d as [|[k0 v0] d IH]; simpl.
  - split; [intros _; apply not_elem_of_nil|done].
  - rewrite not_elem_of_cons.
    destruct (String.eqb_spec k0 k); naive_solver.
Qed.

Lemma lookup_Some_elem d k v : Dict.lookup d k = Some v → (k, v) ∈ d.
Proof.
  induction d as [|[k0 v0] d IH]; simpl; [done|].
  destruct (String.eqb_spec k0 k) as [->|?].
  - intros [= ->]. left.
  - intros ?. right. auto.
Qed.

Lemma elem_lookup d k v :
  NoDup (Dict.keys d) → (k, v) ∈ d → Dict.lookup d k = Some v.
Proof.
  unfold Dict.keys. induction d as [|[k0 v0] d IH]; simpl.
  - by intros _ ?%elem_of_nil.
  - intros [Hk0 Hnd]%NoDup_cons [[= -> ->]|Hin]%elem_of_cons.
    + by rewrite String.eqb_refl.
    + destruct (String.eqb_spec k0 k) as [->|?]; [|by apply IH].
      destruct Hk0. apply list_elem_of_fmap. by exists (k, v).
Qed.

Lemma set_existing d k v :
  k ∈ Dict.keys d → Dict.keys (Dict.set d k v) = Dict.keys d.
Proof.
  unfold Dict.keys. induction d as [|[k0 v0] d IH]; simpl.
  - by intros ?%elem_of_nil.
  - destruct (String.eqb_spec k0 k) as [->|Hne]; [done|].
    intros [?|?]%elem_of_cons; [congruence|]. simpl. f_equal. auto.
Qed.

Lemma set_new d k v :
  k ∉ Dict.keys d → Dict.set d k v = d ++ [(k, v)].
Proof.
  unfold Dict.keys. induction d as [|[k0 v0] d IH]; simpl; [done|].
  intros [? ?]%not_elem_of_cons.
  destruct (String.eqb_spec k0 k) as [->|Hne]; [done|].
  f_equal. auto.
Qed.

Lemma keys_set_NoDup d k v :
  NoDup (Dict.keys d) → NoDup (Dict.keys (Dict.set d k v)).
Proof.
  intros Hnd. destruct (decide (k ∈ Dict.keys d)).
  - by rewrite set_existing.
  - rewrite set_new by done. unfold Dict.keys in *.
    rewrite fmap_app. simpl. apply NoDup_app. split_and!; [done| |].
    + intros x Hx ->%list_elem_of_singleton. done.
    + apply NoDup_singleton.
Qed.

End DictLemmas.

(** ** Claims about the line parser *)

Lemma stake_app (s t : string) : Str.take (String.length s) (s +:+ t) = s.
Proof.
  induction s as [|c s IH]; [by destruct t|].
  rewrite sapp_cons. simpl. by rewrite IH.
Qed.

(** The seven captured fields of a dictionary of groups. *)
Definition fields_of_dict (d : gmap string string) : option fields :=
  ip ← d !! "ip"; date ← d !! "date"; request ← d !! "request";
  status ← d !! "status"; size ← d !! "size";
  referrer ← d !! "referrer"; user_agent ← d !! "user_agent";
  Some (Fields ip date request status size referrer user_agent).

Lemma fields_of_to_dict (f : fields) : fields_of_dict (to_dict f) = Some f.
Proof. by destruct f. Qed.

Definition sample_line : string :=
  "127.0.0.1 - - [09/Dec/2025:11:00:00 -0600] " +:+ dq +:+
  "GET /index.html HTTP/1.1" +:+ dq +:+ " 200 1024 " +:+ dq +:+ "-" +:+ dq +:+
  " " +:+ dq +:+ "Mozilla/5.0" +:+ dq.

(** C7: for every line accepted by the line parser, writing the seven
    captured fields back into the grammar template gives, character for
    character, the prefix of the line that the match consumed. *)
Theorem C7_reserialize_matched_prefix (line : string) (m : match_object) :
  re_match LOG_PATTERN line = Some m →
  serialize <$> fields_of_dict (groupdict m)
  = Some (Str.take (match_end m) line).
Proof.
  intros (pre & rest & -> & Hd & ->)%re_match_sound.
  apply denote_LOG_PATTERN in Hd as (f & _ & -> & ->).
  by rewrite fields_of_to_dict, stake_app.
Qed.

Lemma C7_witness :
  ∃ m, re_match LOG_PATTERN (sample_line +:+ " trailing") = Some m ∧
       serialize <$> fields_of_dict (groupdict m) = Some sample_line.
Proof.
  eexists. split; [vm_compute; reflexivity|].
  refine (eq_trans (C7_reserialize_matched_prefix
            (sample_line +:+ " trailing") _ _) _);
    vm_compute; reflexivity.
Defined.

(** C10: a line whose request field, between the quotes, is empty is not
    matched; a line whose referrer or user-agent field is empty is
    matched, with that field captured as the empty string. *)
Theorem C10_empty_request_rejected_empty_referrer_agent_accepted :
  (∀ ip date rest,
     Str.all (λ c, Str.isdigit c || Ascii.eqb "." c) ip = true →
     Str.all (λ c, negb (Ascii.eqb "]" c)) date = true →
     parse_log_line
       (ip +:+ " - - [" +:+ date +:+ "] " +:+ dq +:+ dq +:+ rest) = None) ∧
  (∀ f rest,
     well_formed f → f_referrer f = "" ∨ f_user_agent f = "" →
     ∃ d, parse_log_line (serialize f +:+ rest) = Some d ∧
          d !! "referrer" = Some (f_referrer f) ∧
          d !! "user_agent" = Some (f_user_agent f)).
Proof.
  split.
  - intros ip date rest Hip Hdate.
    destruct (parse_log_line _) as [d|] eqn:Hd; [|done]. exfalso.
    apply parse_log_line_Some in Hd as (f & rest' & Hwf & E & _).
    destruct Hwf as [[_ Hip'] [_ Hdate'] [Hne Hreq] _ _ _ _].
    unfold serialize, dq in E. rewrite !sapp_assoc in E.
    apply (field_unique _ _ _ _ _ _ _ Hip Hip') in E as [_ E]; [|done].
    apply (field_unique _ _ _ _ _ _ _ Hdate Hdate') in E as [_ E]; [|done].
    apply (inj (String.app _)) in E.
    destruct (f_request f) as [|c r]; [done|].
    rewrite !sapp_cons in E. injection E as <- _. done.
  - intros f rest Hwf _. exists (to_dict f). split.
    + apply parse_log_line_Some. by exists f, rest.
    + by destruct f.
Qed.

Definition sample_fields (referrer user_agent : string) : fields :=
  Fields "10.0.0.1" "09/Dec/2025:11:00:02 -0600" "GET / HTTP/1.1" "404" "-"
         referrer user_agent.

Lemma sample_fields_wf : well_formed (sample_fields "" "").
Proof. split; simpl; try done. by left. Qed.

Lemma C10_witness :
  parse_log_line ("10.0.0.1 - - [09/Dec/2025:11:00:02 -0600] " +:+ dq +:+ dq
                  +:+ " 404 - " +:+ dq +:+ dq +:+ " " +:+ dq +:+ dq) = None ∧
  ∃ d, parse_log_line (serialize (sample_fields "" "")) = Some d ∧
       d !! "referrer" = Some "" ∧ d !! "user_agent" = Some "".
Proof.
  split.
  - apply (proj1 C10_empty_request_rejected_empty_referrer_agent_accepted
             "10.0.0.1" "09/Dec/2025:11:00:02 -0600"); reflexivity.
  - destruct (proj2 C10_empty_request_rejected_empty_referrer_agent_accepted
                (sample_fields "" "") "" sample_fields_wf (or_introl eq_refl))
      as (d & Hd & ? & ?).
    exists d. rewrite sapp_nil_r in Hd. done.
Defined.

(** ** [update] *)

(** The aggregate after the statements of [update] that precede the
    conversion of the status. *)
Definition counted (ip user_agent request : string) (m : LogMetrics)
  : LogMetrics :=
  let uri := request_uri request in
  mkLogMetrics
    (Counter.incr (ip_counter m) ip 1)
    (Counter.incr (ua_counter m) user_agent 1)
    (Counter.incr (uri_counter m) uri 1)
    (error_counts m)
    (admin_ajax_count m
     + (if Str.contains "admin-ajax.php" uri then 1 else 0))
    (total_requests m + 1).

(** The classification of a status into the error counters. *)
Definition classified (status : Z) (m : LogMetrics) : LogMetrics :=
  if decide (400 ≤ status < 500) then set_e4xx (λ n, n + 1) m
  else if decide (500 ≤ status < 600) then set_e5xx (λ n, n + 1) m
  else m.

Lemma update_spec (d : gmap string string) (m : LogMetrics)
    (ip user_agent request status : string) :
  d !! "ip" = Some ip → d !! "user_agent" = Some user_agent →
  d !! "request" = Some request → d !! "status" = Some status →
  update d m =
  match int_of_string status with
  | Some n => (Return (), classified n (counted ip user_agent request m))
  | None => (Raise ValueError, counted ip user_agent request m)
  end.
Proof.
  intros Hip Hua Hreq Hst.
  unfold update, getitem, int, classified. rewrite Hip, Hua, Hreq, Hst.
  unfold counted. destruct m as [ipc uac uric [e4 e5] adm tot].
  unfold mbind, method_bind, mret, method_ret, modify, raise,
    set_total_requests, set_ip_counter, set_ua_counter, set_uri_counter,
    set_admin_ajax_count; simpl.
  destruct (Str.contains _ _); simpl;
    destruct (int_of_string status) as [n|]; simpl;
    rewrite ?Z.add_0_r; try done;
    repeat case_decide; done.
Qed.

(** C9: when the status of the record is not a numeral that [int]
    accepts, [update] raises the conversion error with the aggregate
    already changed: the total, the three frequency tables and, for a
    target containing [admin-ajax.php], the admin-ajax counter have been
    incremented; the error counters have not. *)
Theorem C9_update_not_atomic_on_bad_status (d : gmap string string)
    (m : LogMetrics) (ip user_agent request status : string) :
  d !! "ip" = Some ip → d !! "user_agent" = Some user_agent →
  d !! "request" = Some request → d !! "status" = Some status →
  int_of_string status = None →
  ∃ m', update d m = (Raise ValueError, m') ∧
    total_requests m' = total_requests m + 1 ∧
    ip_counter m' = Counter.incr (ip_counter m) ip 1 ∧
    ua_counter m' = Counter.incr (ua_counter m) user_agent 1 ∧
    uri_counter m' = Counter.incr (uri_counter m) (request_uri request) 1 ∧
    admin_ajax_count m' =
      admin_ajax_count m
      + (if Str.contains "admin-ajax.php" (request_uri request)
         then 1 else 0) ∧
    error_counts m' = error_counts m.
Proof.
  intros Hip Hua Hreq Hst Hint.
  exists (counted ip user_agent request m).
  by rewrite (update_spec d m ip user_agent request status), Hint.
Qed.

Definition bad_status_record : gmap string string :=
  <["status" := "4o4"]> (<["request" := "GET /wp-admin/admin-ajax.php HTTP/1.1"]>
  (<["user_agent" := "UA1"]> (<["ip" := "10.0.0.1"]> ∅))).

Lemma C9_witness :
  ∃ m', update bad_status_record LogMetrics_init = (Raise ValueError, m') ∧
        total_requests m' = 1 ∧ admin_ajax_count m' = 1 ∧
        ip_counter m' = [("10.0.0.1", 1)] ∧
        error_counts m' = ErrorCounts 0 0.
Proof.
  destruct (C9_update_not_atomic_on_bad_status bad_status_record
              LogMetrics_init "10.0.0.1" "UA1"
              "GET /wp-admin/admin-ajax.php HTTP/1.1" "4o4"
              eq_refl eq_refl eq_refl eq_refl eq_refl)
    as (m' & Hrun & Ht & Hi & _ & _ & Ha & He).
  exists m'. by rewrite Ht, Hi, Ha, He.
Defined.

(** ** [str.split] *)

Definition nonspace (c : ascii) : bool := negb (Str.isspace c).

(** A token: a non-empty run of characters that are not white space. *)
Definition token (t : string) : Prop :=
  t ≠ "" ∧ Str.all nonspace t = true.

(** The end of a token: the end of the text or a white space. *)
Definition at_boundary (s : string) : Prop :=
  s = "" ∨ ∃ c s', s = String c s' ∧ Str.isspace c = true.

Lemma rev_app_rev_app (t a b : string) :
  String.rev_app (String.rev_app t a) b = String.rev_app a (t +:+ b).
Proof.
  revert a b. induction t as [|c t IH]; intros a b; simpl; [done|].
  by rewrite IH.
Qed.

Lemma rev_rev_app (t : string) : String.rev (String.rev_app t "") = t.
Proof. unfold String.rev. rewrite rev_app_rev_app. simpl. apply sapp_nil_r. Qed.

Lemma split_go_run (acc t rest : string) :
  Str.all nonspace t = true →
  Str.split_go (Some acc) (t +:+ rest)
  = Str.split_go (Some (String.rev_app t acc)) rest.
Proof.
  revert acc. induction t as [|c t IH]; intros acc Ht; [done|].
  rewrite sapp_cons. simpl in *. apply andb_true_iff in Ht as [Hc Ht].
  unfold nonspace in Hc. apply negb_true_iff in Hc. rewrite Hc.
  by apply IH.
Qed.

Lemma split_go_token (t rest : string) :
  token t →
  Str.split_go None (t +:+ rest)
  = Str.split_go (Some (String.rev_app t "")) rest.
Proof.
  intros [Hne Ht]. destruct t as [|c t]; [done|].
  rewrite sapp_cons. simpl in *. apply andb_true_iff in Ht as [Hc Ht].
  unfold nonspace in Hc. apply negb_true_iff in Hc. rewrite Hc.
  by apply split_go_run.
Qed.

Lemma split_go_spaces (ws s : string) :
  Str.all Str.isspace ws = true →
  Str.split_go None (ws +:+ s) = Str.split_go None s.
Proof.
  induction ws as [|c ws IH]; intros Hws; [done|].
  rewrite sapp_cons. simpl in *. apply andb_true_iff in Hws as [-> Hws].
  by apply IH.
Qed.

(** A token followed by a boundary is the next element of the split. *)
Lemma split_token_boundary (t rest : string) :
  token t → at_boundary rest →
  Str.split_go None (t +:+ rest)
  = t :: Str.split_go None (Str.dropwhile Str.isspace rest).
Proof.
  intros Ht Hb. rewrite split_go_token by done.
  destruct Hb as [->|(c & s' & -> & Hc)]; simpl.
  - by rewrite rev_rev_app.
  - rewrite Hc. simpl. rewrite rev_rev_app. f_equal.
    clear. induction s' as [|a s IH]; [done|].
    cbn [Str.dropwhile]. destruct (Str.isspace a) eqn:Ha; [|done].
    simpl. by rewrite Ha.
Qed.

(** A text without white space is its own only token, or has none. *)
Lemma split_no_space (s : string) :
  Str.all nonspace s = true →
  Str.split s = if decide (s = "") then [] else [s].
Proof.
  intros Hs. unfold Str.split. case_decide as Hne; [by subst|].
  rewrite <- (sapp_nil_r s) at 1.
  rewrite split_token_boundary; [done|done|by left].
Qed.

(** ** The request target *)

(** The [else] branch of [update]: [len(request_parts) > 1] is false. *)
Definition falls_back (request : string) : bool :=
  negb (bool_decide (1 < length (Str.split request))%nat).

Lemma request_uri_fallback (request : string) :
  falls_back request = true → request_uri request = request.
Proof.
  unfold falls_back, request_uri. intros H%negb_true_iff%bool_decide_eq_false.
  by case_decide.
Qed.

(** The second of two tokens is the target. *)
Lemma request_uri_second_token (ws t1 ws1 t2 rest : string) :
  Str.all Str.isspace ws = true → token t1 →
  ws1 ≠ "" → Str.all Str.isspace ws1 = true → token t2 → at_boundary rest →
  falls_back (ws +:+ t1 +:+ ws1 +:+ t2 +:+ rest) = false ∧
  request_uri (ws +:+ t1 +:+ ws1 +:+ t2 +:+ rest) = t2.
Proof.
  intros Hws Ht1 Hne Hws1 Ht2 Hrest.
  assert (Str.split (ws +:+ t1 +:+ ws1 +:+ t2 +:+ rest)
          = t1 :: t2 :: Str.split_go None (Str.dropwhile Str.isspace rest))
    as Hsplit.
  { unfold Str.split. rewrite split_go_spaces by done.
    rewrite split_token_boundary; [|done|].
    - f_equal. destruct ws1 as [|c ws1]; [done|]. simpl in Hws1.
      apply andb_true_iff in Hws1 as [Hc Hws1].
      rewrite sapp_cons. cbn [Str.dropwhile]. rewrite Hc.
      assert (∀ s, Str.dropwhile Str.isspace (ws1 +:+ t2 +:+ s) = t2 +:+ s)
        as ->.
      { intros s. clear Hne Hc. induction ws1 as [|a ws1 IH].
        - destruct Ht2 as [Hne2 Hall]. destruct t2 as [|b t2]; [done|].
          rewrite sapp_nil_l, sapp_cons. simpl in *.
          apply andb_true_iff in Hall as [Hb _]. unfold nonspace in Hb.
          apply negb_true_iff in Hb. by rewrite Hb.
        - simpl in Hws1. apply andb_true_iff in Hws1 as [Ha Hws1].
          rewrite sapp_cons. simpl. rewrite Ha. auto. }
      by apply split_token_boundary.
    - right. destruct ws1 as [|c ws1]; [done|]. simpl in Hws1.
      apply andb_true_iff in Hws1 as [Hc _]. rewrite sapp_cons. eauto. }
  unfold falls_back, request_uri. rewrite Hsplit. by simpl.
Qed.

(** C4 as stated fails: the request line ["GET "] contains white space,
    yet it has one token only and the whole line is counted. *)
Lemma C4_counterexample :
  ¬ (∀ request,
       falls_back request = true ↔ Str.all nonspace request = true).
Proof.
  intros H. destruct (H "GET ") as [H1 _].
  by specialize (H1 eq_refl).
Qed.

(** C4, amended: the target counted by [update] is the second
    whitespace-separated token of the request line when the line has at
    least two tokens, and the whole request line when it has fewer than
    two; a request line without white space always has fewer than two. *)
Theorem C4_request_target :
  (∀ (d : gmap string string) m ip user_agent request status n,
     d !! "ip" = Some ip → d !! "user_agent" = Some user_agent →
     d !! "request" = Some request → d !! "status" = Some status →
     int_of_string status = Some n →
     uri_counter (update d m).2
     = Counter.incr (uri_counter m) (request_uri request) 1) ∧
  (∀ ws t1 ws1 t2 rest,
     Str.all Str.isspace ws = true → token t1 →
     ws1 ≠ "" → Str.all Str.isspace ws1 = true → token t2 →
     at_boundary rest →
     falls_back (ws +:+ t1 +:+ ws1 +:+ t2 +:+ rest) = false ∧
     request_uri (ws +:+ t1 +:+ ws1 +:+ t2 +:+ rest) = t2) ∧
  (∀ request,
     falls_back request = true ↔ (length (Str.split request) < 2)%nat) ∧
  (∀ request, falls_back request = true → request_uri request = request) ∧
  (∀ request, Str.all nonspace request = true → falls_back request = true).
Proof.
  split_and!.
  - intros d m ip ua req st n Hip Hua Hreq Hst Hint.
    rewrite (update_spec d m ip ua req st), Hint by done.
    unfold classified. by repeat case_decide.
  - apply request_uri_second_token.
  - intros request. unfold falls_back.
    rewrite negb_true_iff, bool_decide_eq_false. lia.
  - apply request_uri_fallback.
  - intros request Hs. unfold falls_back. rewrite split_no_space by done.
    by case_decide.
Qed.

Lemma C4_witness :
  request_uri "GET /index.html HTTP/1.1" = "/index.html" ∧
  request_uri "GET " = "GET " ∧ request_uri "/" = "/".
Proof.
  destruct C4_request_target as (_ & H2 & _ & H4 & H5). split_and!.
  - refine (proj2 (H2 "" "GET" " " "/index.html" " HTTP/1.1"
                     eq_refl _ _ eq_refl _ _)).
    + by split.
    + done.
    + by split.
    + right. by eexists _, _.
  - by apply H4.
  - apply H4, H5. reflexivity.
Defined.

(** ** [merge] on objects

    [self.merge(other)] on a store of objects, where the receiver and the
    argument may be the same object. *)

Module Store.

Definition loc := nat.
Definition store := loc → LogMetrics.

(** [obj.field = f(obj.field)] *)
Definition assign (l : loc) (f : LogMetrics → LogMetrics)
  : Method store unit :=
  modify (λ σ, <[l := f (σ l)]> σ).

(** [LogMetrics.merge]: every statement reads the argument from the
    store as it is when the statement runs. *)
Definition merge (self other : loc) : Method store unit :=
  o ← gets (λ σ, total_requests (σ other));
  assign self (set_total_requests (λ n, n + o));;
  o ← gets (λ σ, ip_counter (σ other));
  assign self (set_ip_counter (λ c, Counter.iadd c o));;
  o ← gets (λ σ, ua_counter (σ other));
  assign self (set_ua_counter (λ c, Counter.iadd c o));;
  o ← gets (λ σ, uri_counter (σ other));
  assign self (set_uri_counter (λ c, Counter.iadd c o));;
  o ← gets (λ σ, e4xx (error_counts (σ other)));
  assign self (set_e4xx (λ n, n + o));;
  o ← gets (λ σ, e5xx (error_counts (σ other)));
  assign self (set_e5xx (λ n, n + o));;
  o ← gets (λ σ, admin_ajax_count (σ other));
  assign self (set_admin_ajax_count (λ n, n + o)).

End Store.

(** The aggregate of the receiver after [self.merge(other)]. *)
Definition merged (self other : LogMetrics) : LogMetrics :=
  (merge other self).2.

Lemma merged_eq (a b : LogMetrics) :
  merged a b =
  mkLogMetrics
    (Counter.iadd (ip_counter a) (ip_counter b))
    (Counter.iadd (ua_counter a) (ua_counter b))
    (Counter.iadd (uri_counter a) (uri_counter b))
    (ErrorCounts (e4xx (error_counts a) + e4xx (error_counts b))
                 (e5xx (error_counts a) + e5xx (error_counts b)))
    (admin_ajax_count a + admin_ajax_count b)
    (total_requests a + total_requests b).
Proof. by destruct a as [? ? ? [? ?] ? ?]. Qed.

Lemma merge_returns (a b : LogMetrics) : merge b a = (Return (), merged a b).
Proof. by destruct a as [? ? ? [? ?] ? ?]. Qed.

(** The method on the store returns, changes no object but the
    receiver, and leaves in the receiver what the method on values
    computes, also when the argument is the receiver itself. *)
Lemma store_merge_spec (σ : Store.store) (self other : Store.loc) :
  ∃ σ', Store.merge self other σ = (Return (), σ') ∧
        σ' self = merged (σ self) (σ other) ∧
        ∀ l, l ≠ self → σ' l = σ l.
Proof.
  eexists. split; [reflexivity|]. split.
  - rewrite merged_eq. simpl. rewrite !fn_lookup_insert.
    destruct (decide (self = other)) as [<-|Hne].
    + rewrite !fn_lookup_insert. by destruct (σ self) as [? ? ? [? ?] ? ?].
    + rewrite !fn_lookup_insert_ne by done.
      by destruct (σ self) as [? ? ? [? ?] ? ?].
  - intros l Hne. simpl. by rewrite !fn_lookup_insert_ne.
Qed.

(** A store holding, at every location, an aggregate fed one request. *)
Definition one_request : LogMetrics :=
  mkLogMetrics [("10.0.0.1", 1)] [("UA1", 1)] [("/", 1)] (ErrorCounts 1 0) 0 1.

(** C8 as stated fails when the argument is the receiver: after
    [m.merge(m)] the total of the argument has doubled. *)
Lemma C8_counterexample :
  ¬ (∀ (σ : Store.store) (self other : Store.loc),
       total_requests ((Store.merge self other σ).2 other)
       = total_requests (σ other)).
Proof. intros H. by specialize (H (λ _, one_request) 0%nat 0%nat). Qed.

(** C8, amended: for every pair of distinct aggregate objects,
    [self.merge(other)] returns and changes the receiver only; every
    field of the argument is what it was before the call. *)
Theorem C8_merge_frame (σ : Store.store) (self other : Store.loc) :
  self ≠ other →
  ∃ σ', Store.merge self other σ = (Return (), σ') ∧
        σ' other = σ other ∧
        σ' self = merged (σ self) (σ other) ∧
        ∀ l, l ≠ self → σ' l = σ l.
Proof.
  intros Hne.
  destruct (store_merge_spec σ self other) as (σ' & Hrun & Hself & Hframe).
  exists σ'. split_and!; auto.
Qed.

Lemma C8_witness :
  ∃ σ', Store.merge 0%nat 1%nat (λ _, one_request) = (Return (), σ') ∧
        σ' 1%nat = one_request ∧ total_requests (σ' 0%nat) = 2.
Proof.
  destruct (C8_merge_frame (λ _, one_request) 0%nat 1%nat) as
    (σ' & Hrun & Hother & Hself & _); [done|].
  exists σ'. split_and!; [done..|]. by rewrite Hself.
Defined.

(** ** Counters *)

Section CounterLemmas.
Implicit Types (c o : Counter.t) (k : string) (n : Z).

(** The invariant of a counter of occurrences: a key occurs once and
    its count is positive. *)
Definition wf_counter c : Prop :=
  NoDup (Dict.keys c) ∧ Forall (λ kv, 0 < kv.2) c.

Lemma wf_counter_nil : wf_counter [].
Proof. split; [apply NoDup_nil_2|apply Forall_nil_2]. Qed.

Lemma get_set c k n k' :
  Counter.get (Dict.set c k n) k' =
  if decide (k = k') then n else Counter.get c k'.
Proof. unfold Counter.get. rewrite lookup_set. by case_decide. Qed.

Lemma get_incr c k n k' :
  Counter.get (Counter.incr c k n) k' =
  Counter.get c k' + (if decide (k = k') then n else 0).
Proof.
  unfold Counter.incr. rewrite get_set. case_decide; [by subst|lia].
Qed.

Lemma get_nonneg c k : Forall (λ kv, 0 < kv.2) c → 0 ≤ Counter.get c k.
Proof.
  unfold Counter.get. intros Hc.
  destruct (Dict.lookup c k) as [v|] eqn:Hv; simpl; [|done].
  apply lookup_Some_elem in Hv. rewrite Forall_forall in Hc.
  apply Hc in Hv. simpl in Hv. lia.
Qed.

Lemma get_absent c k : k ∉ Dict.keys c → Counter.get c k = 0.
Proof. intros H%lookup_None. unfold Counter.get. by rewrite H. Qed.

Lemma Forall_set (P : string * Z → Prop) c k n :
  Forall P c → P (k, n) → Forall P (Dict.set c k n).
Proof.
  intros Hc Hk. induction Hc as [|[k0 v0] c H0 Hc IH]; simpl.
  - by apply Forall_singleton.
  - destruct (String.eqb_spec k0 k) as [->|?]; by apply Forall_cons.
Qed.

Lemma incr_wf c k n : wf_counter c → 0 < n → wf_counter (Counter.incr c k n).
Proof.
  intros [Hnd Hpos] Hn. split.
  - by apply keys_set_NoDup.
  - apply Forall_set; [done|]. simpl.
    pose proof (get_nonneg c k Hpos). lia.
Qed.

Definition add_item (acc : Counter.t) (kv : string * Z) : Counter.t :=
  Counter.incr acc kv.1 kv.2.

Lemma get_foldl_incr o c k :
  NoDup (Dict.keys o) →
  Counter.get (foldl add_item c o) k = Counter.get c k + Counter.get o k.
Proof.
  revert c. induction o as [|[k0 v0] o IH]; intros c Hnd; simpl.
  - unfold Counter.get. simpl. lia.
  - apply NoDup_cons in Hnd as [Hk0 Hnd].
    rewrite IH by done. unfold add_item. simpl. rewrite get_incr.
    unfold Counter.get at 4. simpl.
    destruct (String.eqb_spec k0 k) as [->|?]; simpl.
    + rewrite decide_True by done. rewrite (get_absent o k) by done. lia.
    + rewrite decide_False by done. unfold Counter.get. lia.
Qed.

Lemma foldl_incr_wf o c :
  wf_counter c → Forall (λ kv, 0 < kv.2) o → wf_counter (foldl add_item c o).
Proof.
  revert c. induction o as [|[k0 v0] o IH]; intros c Hc Ho; simpl; [done|].
  apply Forall_cons in Ho as [H0 Ho]. apply IH; [|done].
  by apply incr_wf.
Qed.

Lemma keep_positive_wf c : wf_counter c → Counter.keep_positive c = c.
Proof.
  intros [_ Hpos]. unfold Counter.keep_positive, Counter.t, Dict.t.
  induction Hpos as [|kv c H0 Hc IH]; [done|].
  rewrite filter_cons_True by done. by f_equal.
Qed.

Lemma iadd_eq c o :
  wf_counter c → wf_counter o → Counter.iadd c o = foldl add_item c o.
Proof.
  intros Hc [_ Ho]. unfold Counter.iadd.
  by apply keep_positive_wf, foldl_incr_wf.
Qed.

Lemma get_iadd c o k :
  wf_counter c → wf_counter o →
  Counter.get (Counter.iadd c o) k = Counter.get c k + Counter.get o k.
Proof.
  intros Hc Ho. rewrite iadd_eq by done. apply get_foldl_incr, Ho.
Qed.

Lemma iadd_wf c o :
  wf_counter c → wf_counter o → wf_counter (Counter.iadd c o).
Proof.
  intros Hc Ho. rewrite iadd_eq by done. apply foldl_incr_wf; [done|apply Ho].
Qed.

End CounterLemmas.

(** ** Aggregates

    What an aggregate says: its four counts and, for every value, the
    count each frequency table maps it to. *)

Inductive query :=
| QTotal | Q4xx | Q5xx | QAdminAjax
| QIp (k : string) | QUserAgent (k : string) | QUri (k : string).

Definition measure (m : LogMetrics) (q : query) : Z :=
  match q with
  | QTotal => total_requests m
  | Q4xx => e4xx (error_counts m)
  | Q5xx => e5xx (error_counts m)
  | QAdminAjax => admin_ajax_count m
  | QIp k => Counter.get (ip_counter m) k
  | QUserAgent k => Counter.get (ua_counter m) k
  | QUri k => Counter.get (uri_counter m) k
  end.

(** Field-by-field equality, the frequency tables taken as mappings from
    value to count. *)
Definition agg_equiv (a b : LogMetrics) : Prop :=
  ∀ q, measure a q = measure b q.

Definition wf_metrics (m : LogMetrics) : Prop :=
  wf_counter (ip_counter m) ∧ wf_counter (ua_counter m) ∧
  wf_counter (uri_counter m).

(** A record [update] accepts: the four keys it reads are present and the
    status converts. *)
Definition valid_record (d : gmap string string) : Prop :=
  ∃ ip user_agent request status n,
    d !! "ip" = Some ip ∧ d !! "user_agent" = Some user_agent ∧
    d !! "request" = Some request ∧ d !! "status" = Some status ∧
    int_of_string status = Some n.

(** The aggregate after [m.update(d)]. *)
Definition applied (d : gmap string string) (m : LogMetrics) : LogMetrics :=
  (update d m).2.

(** The aggregate after [for d in rs: m.update(d)]. *)
Definition feed (rs : list (gmap string string)) (m : LogMetrics)
  : LogMetrics :=
  foldl (λ m d, applied d m) m rs.

(** A fresh accumulator fed the records [rs], when no update raises. *)
Definition accumulate (rs : list (gmap string string)) : option LogMetrics :=
  match for_each rs update LogMetrics_init with
  | (Return _, m) => Some m
  | (Raise _, _) => None
  end.

(** [for m in ms: acc.merge(m)] on a fresh accumulator. *)
Definition merge_all (ms : list LogMetrics) : LogMetrics :=
  (for_each ms merge LogMetrics_init).2.

(** What one record adds to each measure. *)
Definition contribution (d : gmap string string) (q : query) : Z :=
  measure (applied d LogMetrics_init) q.

Definition contributions (rs : list (gmap string string)) (q : query) : Z :=
  foldr (λ d acc, contribution d q + acc) 0 rs.

Section AggregateLemmas.
Implicit Types (m a b : LogMetrics) (d : gmap string string)
  (rs : list (gmap string string)) (q : query).

Global Instance agg_equiv_equivalence : Equivalence agg_equiv.
Proof.
  split.
  - by intros a q.
  - intros a b H q. by rewrite H.
  - intros a b c H1 H2 q. by rewrite H1, H2.
Qed.

Lemma wf_metrics_init : wf_metrics LogMetrics_init.
Proof. repeat split; apply wf_counter_nil. Qed.

Lemma measure_merged a b q :
  wf_metrics a → wf_metrics b →
  measure (merged a b) q = measure a q + measure b q.
Proof.
  intros (? & ? & ?) (? & ? & ?). rewrite merged_eq.
  destruct q; simpl; try done; by apply get_iadd.
Qed.

Lemma merged_wf a b : wf_metrics a → wf_metrics b → wf_metrics (merged a b).
Proof.
  intros (? & ? & ?) (? & ? & ?). rewrite merged_eq.
  repeat split; simpl; by apply iadd_wf.
Qed.

Lemma update_valid d m :
  valid_record d → update d m = (Return (), applied d m).
Proof.
  intros (ip & ua & req & st & n & Hip & Hua & Hreq & Hst & Hn).
  unfold applied. rewrite (update_spec d m ip ua req st) by done.
  by rewrite Hn.
Qed.

Lemma update_Return_valid d m m' :
  update d m = (Return (), m') → valid_record d.
Proof.
  unfold valid_record, update, getitem, int,
    mbind, method_bind, modify, raise. simpl.
  destruct (d !! "ip") as [ip|]; simpl; [|done].
  destruct (d !! "user_agent") as [ua|]; simpl; [|done].
  destruct (d !! "request") as [req|]; simpl; [|done].
  destruct (Str.contains _ _); simpl;
    (destruct (d !! "status") as [st|]; simpl; [|done]);
    (destruct (int_of_string st) as [n|] eqn:Hn; simpl; [|done]);
    intros _; by exists ip, ua, req, st, n.
Qed.

Lemma applied_eq d m ip ua req st n :
  d !! "ip" = Some ip → d !! "user_agent" = Some ua →
  d !! "request" = Some req → d !! "status" = Some st →
  int_of_string st = Some n →
  applied d m = classified n (counted ip ua req m).
Proof.
  intros. unfold applied.
  rewrite (update_spec d m ip ua req st) by done.
  by simplify_option_eq.
Qed.

Lemma measure_classified n m q :
  measure (classified n m) q =
  measure m q +
  match q with
  | Q4xx => if decide (400 ≤ n < 500) then 1 else 0
  | Q5xx => if decide (500 ≤ n < 600) then 1 else 0
  | _ => 0
  end.
Proof.
  unfold classified.
  destruct q; repeat case_decide; simpl; lia.
Qed.

Lemma measure_applied d m q :
  valid_record d → wf_metrics m →
  measure (applied d m) q = measure m q + contribution d q.
Proof.
  intros (ip & ua & req & st & n & Hip & Hua & Hreq & Hst & Hn) Hm.
  unfold contribution.
  rewrite !(applied_eq d _ ip ua req st n) by done.
  rewrite !measure_classified.
  destruct q; simpl; rewrite ?get_incr; unfold Counter.get; simpl; lia.
Qed.

Lemma applied_wf d m : valid_record d → wf_metrics m → wf_metrics (applied d m).
Proof.
  intros (ip & ua & req & st & n & Hip & Hua & Hreq & Hst & Hn) (? & ? & ?).
  rewrite (applied_eq d _ ip ua req st n) by done.
  unfold classified.
  repeat case_decide; repeat split; simpl; by apply incr_wf.
Qed.

End AggregateLemmas.

Section AccumulateLemmas.
Implicit Types (m a b : LogMetrics) (d : gmap string string)
  (rs : list (gmap string string)) (q : query).

Lemma for_each_update_valid rs m :
  Forall valid_record rs → for_each rs update m = (Return (), feed rs m).
Proof.
  intros Hrs. revert m. induction Hrs as [|d rs Hd Hrs IH]; intros m.
  - done.
  - simpl. unfold mbind, method_bind. rewrite update_valid by done.
    apply IH.
Qed.

Lemma for_each_update_Return rs m m' :
  for_each rs update m = (Return (), m') → Forall valid_record rs.
Proof.
  revert m. induction rs as [|d rs IH]; intros m; [by constructor|].
  simpl. unfold mbind, method_bind.
  destruct (update d m) as [[[]|e] m1] eqn:Hd; [|done].
  intros H. constructor; [by eapply update_Return_valid|by eapply IH].
Qed.

Lemma accumulate_Some rs m :
  accumulate rs = Some m ↔
  Forall valid_record rs ∧ m = feed rs LogMetrics_init.
Proof.
  unfold accumulate. split.
  - destruct (for_each rs update LogMetrics_init) as [[[]|e] m'] eqn:H;
      [|done].
    intros [= ->]. pose proof (for_each_update_Return _ _ _ H) as Hv.
    rewrite for_each_update_valid in H by done. by simplify_eq.
  - intros [Hv ->]. by rewrite for_each_update_valid.
Qed.

Lemma feed_wf rs m :
  Forall valid_record rs → wf_metrics m → wf_metrics (feed rs m).
Proof.
  intros Hrs. revert m. induction Hrs as [|d rs Hd Hrs IH]; intros m Hm.
  - done.
  - simpl. apply IH. by apply applied_wf.
Qed.

Lemma measure_feed rs m q :
  Forall valid_record rs → wf_metrics m →
  measure (feed rs m) q = measure m q + contributions rs q.
Proof.
  intros Hrs. revert m. induction Hrs as [|d rs Hd Hrs IH]; intros m Hm.
  - simpl. lia.
  - simpl. rewrite IH by (by apply applied_wf).
    rewrite measure_applied by done. lia.
Qed.

Lemma measure_init q : measure LogMetrics_init q = 0.
Proof. by destruct q. Qed.

Lemma contributions_app rs rs' q :
  contributions (rs ++ rs') q = contributions rs q + contributions rs' q.
Proof. induction rs as [|d rs IH]; simpl; lia. Qed.

Lemma contributions_perm rs rs' q :
  rs ≡ₚ rs' → contributions rs q = contributions rs' q.
Proof. induction 1; simpl; lia. Qed.

Lemma merge_all_foldl (ms : list LogMetrics) m :
  (for_each ms merge m).2 = foldl merged m ms.
Proof.
  revert m. induction ms as [|b ms IH]; intros m; [done|].
  simpl. unfold mbind, method_bind. rewrite merge_returns. apply IH.
Qed.

Lemma foldl_merged_wf (ms : list LogMetrics) m :
  Forall wf_metrics ms → wf_metrics m → wf_metrics (foldl merged m ms).
Proof.
  intros Hms. revert m. induction Hms as [|b ms Hb Hms IH]; intros m Hm.
  - done.
  - simpl. apply IH. by apply merged_wf.
Qed.

Lemma measure_foldl_merged (ms : list LogMetrics) m q :
  Forall wf_metrics ms → wf_metrics m →
  measure (foldl merged m ms) q
  = measure m q + foldr (λ b acc, measure b q + acc) 0 ms.
Proof.
  intros Hms. revert m. induction Hms as [|b ms Hb Hms IH]; intros m Hm.
  - simpl. lia.
  - simpl. rewrite IH by (by apply merged_wf).
    rewrite measure_merged by done. lia.
Qed.

(** Merging the accumulators of the parts adds up to the accumulator
    of the records. *)
Lemma merge_all_parts (parts : list (list (gmap string string)))
    (ms : list LogMetrics) :
  Forall2 (λ p a, accumulate p = Some a) parts ms →
  Forall valid_record (mjoin parts) ∧ Forall wf_metrics ms ∧
  ∀ q, foldr (λ b acc, measure b q + acc) 0 ms
       = contributions (mjoin parts) q.
Proof.
  induction 1 as [|p a parts ms Hp Hparts (IH1 & IH2 & IH3)]; simpl.
  - split_and!; by constructor.
  - apply accumulate_Some in Hp as [Hv ->]. split_and!.
    + by apply Forall_app.
    + constructor; [|done]. apply feed_wf; [done|apply wf_metrics_init].
    + intros q. rewrite contributions_app, IH3.
      rewrite measure_feed, measure_init by (done || apply wf_metrics_init).
      lia.
Qed.

End AccumulateLemmas.

(** An aggregate built from records. *)
Definition built (m : LogMetrics) : Prop := ∃ rs, accumulate rs = Some m.

Lemma built_wf (m : LogMetrics) : built m → wf_metrics m.
Proof.
  intros (rs & [Hv ->]%accumulate_Some).
  apply feed_wf; [done|apply wf_metrics_init].
Qed.

(** C2: [merge] is commutative and associative up to field-by-field
    equality with the tables taken as mappings; merged accumulators equal
    one accumulator fed all the records; and for any partition of a
    record sequence, the merge of the accumulators of the parts equals
    the accumulator of the whole sequence. *)
Theorem C2_merge_commutative_associative :
  (∀ A B C, built A → built B → built C →
     agg_equiv (merged A B) (merged B A) ∧
     agg_equiv (merged (merged A B) C) (merged A (merged B C)) ∧
     agg_equiv (merged (merged A B) C) (merged (merged B C) A)) ∧
  (∀ ra rb rc A B C,
     accumulate ra = Some A → accumulate rb = Some B →
     accumulate rc = Some C →
     ∃ M, accumulate (ra ++ rb ++ rc) = Some M ∧
          agg_equiv (merged (merged A B) C) M) ∧
  (∀ (parts : list (list (gmap string string))) records ms,
     mjoin parts ≡ₚ records →
     Forall2 (λ p a, accumulate p = Some a) parts ms →
     ∃ M, accumulate records = Some M ∧ agg_equiv (merge_all ms) M).
Proof.
  split_and!.
  - intros A B C HA%built_wf HB%built_wf HC%built_wf.
    split_and!; intros q;
      rewrite ?measure_merged by auto using merged_wf; lia.
  - intros ra rb rc A B C [Ha ->]%accumulate_Some [Hb ->]%accumulate_Some
      [Hc ->]%accumulate_Some.
    pose proof wf_metrics_init as Hi.
    exists (feed (ra ++ rb ++ rc) LogMetrics_init). split.
    + apply accumulate_Some. split; [|done]. by rewrite !Forall_app.
    + intros q.
      rewrite !measure_merged, !measure_feed, !contributions_app, measure_init
        by (rewrite ?Forall_app; auto using merged_wf, feed_wf).
      lia.
  - intros parts records ms Hperm Hparts.
    apply merge_all_parts in Hparts as (Hv & Hwf & Hsum).
    pose proof wf_metrics_init as Hi.
    assert (Forall valid_record records) as Hrec by by rewrite <- Hperm.
    exists (feed records LogMetrics_init). split.
    + by apply accumulate_Some.
    + intros q. unfold merge_all. rewrite merge_all_foldl.
      rewrite measure_foldl_merged, measure_feed, Hsum by done.
      by rewrite (contributions_perm _ _ _ Hperm).
Qed.

Definition mk_record (ip user_agent request status : string)
  : gmap string string :=
  <["status" := status]> (<["request" := request]>
  (<["user_agent" := user_agent]> (<["ip" := ip]> ∅))).

Lemma C2_witness :
  let r1 := mk_record "10.0.0.1" "UA1" "GET / HTTP/1.1" "200" in
  let r2 := mk_record "10.0.0.2" "UA2" "GET /x HTTP/1.1" "404" in
  ∃ M, accumulate [r1; r2] = Some M ∧
       agg_equiv (merge_all [feed [r2] LogMetrics_init;
                             feed [r1] LogMetrics_init]) M.
Proof.
  intros r1 r2.
  apply (proj2 (proj2 C2_merge_commutative_associative) [[r2]; [r1]]).
  - apply perm_swap.
  - repeat constructor.
Defined.

(** ** [int] on the statuses the grammar admits *)

Lemma all_rev_app (p : ascii → bool) (s a : string) :
  Str.all p (String.rev_app s a) = Str.all p s && Str.all p a.
Proof.
  revert a. induction s as [|c s IH]; intros a; simpl; [done|].
  rewrite IH. simpl. destruct (p c), (Str.all p s); done.
Qed.

Lemma dropwhile_none (p : ascii → bool) (s : string) :
  Str.all (λ c, negb (p c)) s = true → Str.dropwhile p s = s.
Proof.
  destruct s as [|c s]; simpl; [done|].
  intros [Hc _]%andb_true_iff. apply negb_true_iff in Hc. by rewrite Hc.
Qed.

Lemma strip_no_space (s : string) :
  Str.all nonspace s = true → Str.strip s = s.
Proof.
  intros Hs. unfold Str.strip, Str.lstrip, Str.rstrip.
  rewrite (dropwhile_none _ s) by done.
  rewrite dropwhile_none.
  - apply rev_rev_app.
  - unfold String.rev. rewrite all_rev_app.
    apply andb_true_iff. by split.
Qed.

Lemma isdigit_nonspace (c : ascii) : Str.isdigit c = true → nonspace c = true.
Proof. by destruct c as [[] [] [] [] [] [] [] []]. Qed.

Lemma isdigit_not_int_isspace (c : ascii) :
  Str.isdigit c = true → negb (int_isspace c) = true.
Proof. by destruct c as [[] [] [] [] [] [] [] []]. Qed.

Lemma int_strip_digits (s : string) :
  Str.all Str.isdigit s = true → int_strip s = s.
Proof.
  intros Hs.
  assert (Str.all (λ c, negb (int_isspace c)) s = true) as Hns
    by (eapply all_impl; [apply isdigit_not_int_isspace|done]).
  unfold int_strip. rewrite (dropwhile_none _ s) by done.
  rewrite dropwhile_none.
  - apply rev_rev_app.
  - unfold String.rev. rewrite all_rev_app.
    apply andb_true_iff. by split.
Qed.

Lemma int_digits_Some (s : string) (acc : Z) (after_digit : bool) :
  Str.all Str.isdigit s = true → s ≠ "" ∨ after_digit = true →
  is_Some (int_digits acc after_digit s).
Proof.
  revert acc after_digit. induction s as [|c s IH]; intros acc b Hs Hb; simpl.
  - destruct Hb as [? | ->]; done.
  - simpl in Hs. apply andb_true_iff in Hs as [-> Hs]. apply IH; auto.
Qed.

Lemma count_digits_all (s : string) :
  Str.all Str.isdigit s = true →
  count_digits s = Z.of_nat (String.length s).
Proof.
  induction s as [|c s IH]; [done|]. cbn [Str.all count_digits String.length].
  intros [-> Hs]%andb_true_iff. rewrite IH by done. lia.
Qed.

Lemma int_of_string_unsigned (s : string) :
  Str.all Str.isdigit s = true → int_of_string s = int_unsigned s.
Proof.
  intros Hs. unfold int_of_string. rewrite int_strip_digits by done.
  destruct s as [|c s]; [done|].
  simpl in Hs. apply andb_true_iff in Hs as [Hc _].
  by destruct c as [[] [] [] [] [] [] [] []].
Qed.

(** On a run of digits [int] returns exactly when the run has no more
    digits than the limit. *)
Lemma int_of_string_digits (s : string) :
  nonempty_of Str.isdigit s →
  is_Some (int_of_string s)
  ↔ Z.of_nat (String.length s) ≤ int_max_str_digits.
Proof.
  intros [Hne Hs]. rewrite int_of_string_unsigned by done.
  unfold int_unsigned.
  destruct (int_digits_Some s 0 false Hs (or_introl Hne)) as [n ->].
  cbn [mbind option_bind]. rewrite count_digits_all by done.
  destruct (Z.leb_spec (Z.of_nat (String.length s)) int_max_str_digits).
  - split; [done|]. by eexists.
  - split; [by intros [? [=]]|lia].
Qed.

(** The status of the record is a text of at most as many characters as
    [int] converts. *)
Definition status_within_limit (d : gmap string string) : Prop :=
  ∃ status, d !! "status" = Some status ∧
            Z.of_nat (String.length status) ≤ int_max_str_digits.

Definition within_limit (d : gmap string string) : bool :=
  match d !! "status" with
  | Some status => Z.of_nat (String.length status) <=? int_max_str_digits
  | None => false
  end.

Lemma within_limit_spec (d : gmap string string) :
  within_limit d = true ↔ status_within_limit d.
Proof.
  unfold within_limit, status_within_limit.
  destruct (d !! "status") as [st|].
  - rewrite Z.leb_le. split; [by exists st|]. by intros (? & [= <-] & ?).
  - split; [done|]. by intros (? & ? & _).
Qed.

Lemma all_within_limit {A} (rs : list (gmap string string * A)) :
  forallb (λ r, within_limit r.1) rs = true
  ↔ Forall (λ r, status_within_limit r.1) rs.
Proof.
  induction rs as [|r rs IH]; cbn [forallb].
  - split; [constructor|done].
  - rewrite andb_true_iff, Forall_cons, IH, within_limit_spec. done.
Qed.

(** The dictionary of a match is a record [update] accepts exactly when
    its status is within the limit of [int]. *)
Lemma to_dict_valid (f : fields) :
  well_formed f → valid_record (to_dict f) ↔ status_within_limit (to_dict f).
Proof.
  intros Hwf. pose proof (int_of_string_digits _ (wf_status f Hwf)) as Hint.
  assert (to_dict f !! "status" = Some (f_status f)) as Hst by (by destruct f).
  split.
  - intros (ip & ua & req & st & n & _ & _ & _ & Hst' & Hn).
    exists (f_status f). split; [done|]. apply Hint.
    rewrite Hst in Hst'. injection Hst' as <-. by eexists.
  - intros (st & Hst' & Hlen). rewrite Hst in Hst'. injection Hst' as <-.
    apply Hint in Hlen as [n Hn].
    exists (f_ip f), (f_user_agent f), (f_request f), (f_status f), n.
    by destruct f.
Qed.

Lemma to_dict_nonempty (f : fields) : to_dict f ≠ ∅.
Proof. intros H. apply (f_equal (λ d, d !! "ip")) in H. by destruct f. Qed.

Lemma parse_log_line_valid (line : string) (d : gmap string string) :
  parse_log_line line = Some d →
  (valid_record d ↔ status_within_limit d) ∧ d ≠ ∅ ∧ is_Some (d !! "date").
Proof.
  intros (f & rest & Hwf & _ & ->)%parse_log_line_Some. split_and!.
  - by apply to_dict_valid.
  - apply to_dict_nonempty.
  - exists (f_date f). by destruct f.
Qed.

(** ** The scan of [analyze_file] *)

(** The record and the timestamp of a line that matches the grammar and
    carries a timestamp that parses; [None] for every other line. *)
Definition timed_record (line : string)
  : option (gmap string string * datetime) :=
  d ← parse_log_line (Str.strip line);
  date ← d !! "date";
  ts ← parse_log_date date;
  Some (d, ts).

Definition earlier (ts : datetime) (o : option datetime) : option datetime :=
  match o with
  | Some t => if Datetime.lt ts t then Some ts else Some t
  | None => Some ts
  end.

Definition later (ts : datetime) (o : option datetime) : option datetime :=
  match o with
  | Some t => if Datetime.gt ts t then Some ts else Some t
  | None => Some ts
  end.

(** The aggregate under [k], a fresh one when there is none yet. *)
Definition bucket (buckets : Dict.t LogMetrics) (k : string) : LogMetrics :=
  default LogMetrics_init (Dict.lookup buckets k).

(** What one timed record does to the local variables of the scan. *)
Definition scan_step (σ : scan) (r : gmap string string * datetime) : scan :=
  let k := Datetime.strftime_ymd r.2 in
  mkScan (Dict.set (metrics_by_date σ) k (applied r.1 (bucket (metrics_by_date σ) k)))
         (earlier r.2 (min_ts σ)) (later r.2 (max_ts σ)).

Lemma set_set {V} (d : Dict.t V) (k : string) (v v' : V) :
  Dict.set (Dict.set d k v) k v' = Dict.set d k v'.
Proof.
  induction d as [|[k0 v0] d IH]; simpl.
  - by rewrite String.eqb_refl.
  - destruct (String.eqb_spec k0 k) as [->|Hne]; simpl.
    + by rewrite String.eqb_refl.
    + destruct (String.eqb_spec k0 k); [done|]. by rewrite IH.
Qed.

Lemma parse_log_line_empty : parse_log_line "" = None.
Proof. reflexivity. Qed.

Lemma bind_ret {S A B} (a : A) (f : A → Method S B) (σ : S) :
  (mret a ≫= f) σ = f a σ.
Proof. done. Qed.

(** [update] returns exactly on the records it accepts, whatever the
    aggregate. *)
Lemma update_outcome (d : gmap string string) (m : LogMetrics) :
  (update d m).1 = Return () ↔ valid_record d.
Proof.
  split.
  - destruct (update d m) as [o m'] eqn:Hrun. cbn [fst]. intros ->.
    exact (update_Return_valid _ _ _ Hrun).
  - intros Hv. by rewrite update_valid.
Qed.

(** The loop body skips the line or applies its timed record to the
    scan; its outcome is that of [update] on the record. *)
Lemma analyze_line_spec (line : string) (σ : scan) :
  analyze_line line σ =
  match timed_record line with
  | Some r =>
      ((update r.1 (bucket (metrics_by_date σ)
                      (Datetime.strftime_ymd r.2))).1,
       scan_step σ r)
  | None => (Return (), σ)
  end.
Proof.
  unfold analyze_line, timed_record. case_decide as Hempty.
  { by rewrite Hempty, parse_log_line_empty. }
  destruct (parse_log_line (Str.strip line)) as [d|] eqn:Hd; [|done].
  apply parse_log_line_valid in Hd as (_ & Hne & [date Hdate]).
  rewrite decide_False by done.
  unfold getitem. cbn [mbind option_bind]. rewrite !Hdate, bind_ret.
  cbn [mbind option_bind].
  generalize (parse_log_date date). intros [ts|]; [|done].
  cbn [mbind option_bind].
  unfold scan_step, bucket, earlier, later, applied. cbn [fst snd].
  generalize (Datetime.strftime_ymd ts) (Datetime.lt ts) (Datetime.gt ts).
  intros k is_lt is_gt.
  unfold mbind, method_bind, mret, method_ret, modify, on_bucket,
    set_metrics_by_date.
  destruct σ as [buckets mn mx].
  cbn [metrics_by_date min_ts max_ts fst snd].
  destruct mn as [t1|], mx as [t2|];
    cbn [metrics_by_date min_ts max_ts];
    repeat match goal with
           | |- context [is_lt ?t] =>
               destruct (is_lt t); cbn [metrics_by_date min_ts max_ts]
           | |- context [is_gt ?t] =>
               destruct (is_gt t); cbn [metrics_by_date min_ts max_ts]
           end;
    (destruct (Dict.lookup buckets k) as [b|] eqn:Hb;
     cbn [metrics_by_date min_ts max_ts default];
     rewrite ?Hb, ?lookup_set, ?decide_True by done;
     cbn [default from_option id];
     match goal with
     | |- context [update d ?m] => destruct (update d m) as [o b']
     end;
     cbn [fst snd default metrics_by_date min_ts max_ts];
     rewrite ?set_set; done).
Qed.

(** The timed records of the lines of a file, in order. *)
Definition timed_records (lines : list string)
  : list (gmap string string * datetime) :=
  omap timed_record lines.

(** The scan over the timed records: every record is applied to the
    scan, up to the first one on which [update] raises. *)
Fixpoint scan_records (σ : scan) (rs : list (gmap string string * datetime))
  : outcome unit * scan :=
  match rs with
  | [] => (Return (), σ)
  | r :: rs' =>
      match (update r.1 (bucket (metrics_by_date σ)
                           (Datetime.strftime_ymd r.2))).1 with
      | Return _ => scan_records (scan_step σ r) rs'
      | Raise e => (Raise e, scan_step σ r)
      end
  end.

Lemma scan_spec (lines : list string) (σ : scan) :
  for_each lines analyze_line σ = scan_records σ (timed_records lines).
Proof.
  revert σ. induction lines as [|line lines IH]; intros σ; [done|].
  cbn [for_each]. unfold mbind, method_bind. rewrite analyze_line_spec.
  unfold timed_records. cbn [omap list_omap].
  destruct (timed_record line) as [r|]; [|apply IH].
  cbn [scan_records].
  destruct (update r.1 _).1 as [[]|e]; [apply IH|done].
Qed.

(** While [update] accepts the records the scan is the fold of
    [scan_step] over them. *)
Lemma scan_records_valid (σ : scan) (rs : list (gmap string string * datetime)) :
  Forall (λ r, valid_record r.1) rs →
  scan_records σ rs = (Return (), foldl scan_step σ rs).
Proof.
  intros Hrs. revert σ. induction Hrs as [|r rs Hr _ IH]; intros σ; [done|].
  cbn [scan_records foldl].
  by rewrite (proj2 (update_outcome _ _) Hr).
Qed.

Lemma scan_records_Return (σ σ' : scan)
    (rs : list (gmap string string * datetime)) :
  scan_records σ rs = (Return (), σ') →
  Forall (λ r, valid_record r.1) rs ∧ σ' = foldl scan_step σ rs.
Proof.
  revert σ. induction rs as [|r rs IH]; intros σ; cbn [scan_records foldl].
  - by intros [= <-].
  - destruct (update r.1 _).1 as [[]|e] eqn:Hr; [|done].
    apply update_outcome in Hr. intros [Hrs ->]%IH. by split; [constructor|].
Qed.

Lemma scan_records_Raise (σ : scan)
    (rs : list (gmap string string * datetime)) :
  ¬ Forall (λ r, valid_record r.1) rs →
  ∃ e σ', scan_records σ rs = (Raise e, σ').
Proof.
  revert σ. induction rs as [|r rs IH]; intros σ Hrs; cbn [scan_records].
  - destruct Hrs. constructor.
  - destruct (update r.1 _).1 as [[]|e] eqn:Hr; [|by eexists _, _].
    apply update_outcome in Hr. apply IH. intros Hrs'. apply Hrs.
    by constructor.
Qed.

(** The report of [analyze_file] from the final state of the scan. *)
Definition report_of (σ : scan) : Dict.t LogMetrics :=
  match min_ts σ, max_ts σ with
  | Some mn, Some mx =>
      if Datetime.sub mx mn <? Datetime.timedelta_hours 24
      then [("Summary", merge_all (Dict.values (metrics_by_date σ)))]
      else metrics_by_date σ
  | _, _ => metrics_by_date σ
  end.

(** [analyze_file] on the timed records of the file. *)
Definition analyze_records (rs : list (gmap string string * datetime))
  : outcome (Dict.t LogMetrics) :=
  match scan_records scan_init rs with
  | (Raise _, _) => Raise (SystemExit 1)
  | (Return _, σ) => Return (report_of σ)
  end.

Lemma analyze_file_spec (lines : list string) :
  analyze_file lines = analyze_records (timed_records lines).
Proof.
  unfold analyze_file, analyze_records, report_of. rewrite scan_spec.
  destruct (scan_records scan_init (timed_records lines)) as [[[]|e] σ];
    [|done].
  destruct σ as [buckets [mn|] [mx|]]; simpl; try done.
  by destruct (_ <? _).
Qed.

(** [analyze_file] returns the report of the scan when [update] accepts
    every timed record of the file... *)
Lemma analyze_file_Return (lines : list string) :
  Forall (λ r, valid_record r.1) (timed_records lines) →
  analyze_file lines
  = Return (report_of (foldl scan_step scan_init (timed_records lines))).
Proof.
  intros Hv. rewrite analyze_file_spec. unfold analyze_records.
  by rewrite scan_records_valid.
Qed.

(** ...and only then... *)
Lemma analyze_file_Return_inv (lines : list string)
    (report : Dict.t LogMetrics) :
  analyze_file lines = Return report →
  Forall (λ r, valid_record r.1) (timed_records lines) ∧
  report = report_of (foldl scan_step scan_init (timed_records lines)).
Proof.
  rewrite analyze_file_spec. unfold analyze_records.
  destruct (scan_records scan_init (timed_records lines)) as [[[]|e] σ] eqn:Hs;
    [|done].
  apply scan_records_Return in Hs as [Hv ->]. by intros [= <-].
Qed.

(** ...and ends the program otherwise. *)
Lemma analyze_file_exit (lines : list string) :
  ¬ Forall (λ r, valid_record r.1) (timed_records lines) →
  analyze_file lines = Raise (SystemExit 1).
Proof.
  intros Hv. rewrite analyze_file_spec. unfold analyze_records.
  by destruct (scan_records_Raise scan_init _ Hv) as (e & σ' & ->).
Qed.

(** ** Invariants of the scan *)

Definition date_key (r : gmap string string * datetime) : string :=
  Datetime.strftime_ymd r.2.

(** The records of the timed records that fall on the date [k]. *)
Definition records_on (k : string)
    (rs : list (gmap string string * datetime)) : list (gmap string string) :=
  (filter (λ r, date_key r = k) rs).*1.

Definition sum_totals (report : Dict.t LogMetrics) : Z :=
  foldr (λ kb acc, total_requests kb.2 + acc) 0 report.

Lemma strptime_valid (s : string) (t : datetime) :
  Strptime.strptime s = Some t → Datetime.valid t = true.
Proof.
  unfold Strptime.strptime.
  destruct (Strptime.match_format s) as [t'|]; simpl; [|done].
  destruct (Datetime.valid t') eqn:Hv; [|done]. by intros [= <-].
Qed.

Lemma timed_record_Some (line : string) (d : gmap string string)
    (ts : datetime) :
  timed_record line = Some (d, ts) →
  (valid_record d ↔ status_within_limit d) ∧ Datetime.valid ts = true.
Proof.
  unfold timed_record.
  destruct (parse_log_line (Str.strip line)) as [d'|] eqn:Hd; simpl; [|done].
  destruct (d' !! "date") as [date|]; simpl; [|done].
  destruct (parse_log_date date) as [ts'|] eqn:Hts; simpl; [|done].
  intros [= <- <-]. split.
  - by apply parse_log_line_valid in Hd as (? & _).
  - by apply strptime_valid in Hts.
Qed.

Lemma timed_records_valid (lines : list string) :
  Forall (λ r, (valid_record r.1 ↔ status_within_limit r.1) ∧
               Datetime.valid r.2 = true)
         (timed_records lines).
Proof.
  unfold timed_records. induction lines as [|line lines IH]; simpl.
  - constructor.
  - destruct (timed_record line) as [[d ts]|] eqn:H; [|done].
    constructor; [|done]. by eapply timed_record_Some.
Qed.

(** [update] accepts every timed record of the file exactly when the
    status of each is within the limit of [int]. *)
Lemma timed_records_within_limit (lines : list string) :
  Forall (λ r, valid_record r.1) (timed_records lines)
  ↔ Forall (λ r, status_within_limit r.1) (timed_records lines).
Proof.
  pose proof (timed_records_valid lines) as Hv.
  rewrite !Forall_forall in *.
  split; intros H r Hr; apply (Hv r Hr); by apply H.
Qed.

Lemma bucket_set (buckets : Dict.t LogMetrics) (k k' : string) (v : LogMetrics) :
  bucket (Dict.set buckets k v) k' =
  if decide (k = k') then v else bucket buckets k'.
Proof. unfold bucket. rewrite lookup_set. by case_decide. Qed.

Lemma keys_set_elem {V} (d : Dict.t V) (k k' : string) (v : V) :
  k' ∈ Dict.keys (Dict.set d k v) ↔ k' = k ∨ k' ∈ Dict.keys d.
Proof.
  destruct (decide (k ∈ Dict.keys d)).
  - rewrite set_existing by done. naive_solver.
  - rewrite set_new by done. unfold Dict.keys. rewrite fmap_app. simpl.
    rewrite elem_of_app, list_elem_of_singleton. naive_solver.
Qed.

Lemma feed_snoc rs (d : gmap string string) (m : LogMetrics) :
  feed (rs ++ [d]) m = applied d (feed rs m).
Proof. unfold feed. by rewrite foldl_app. Qed.

(** After the scan of the timed records [rs]: one bucket for each date
    present, holding the accumulator of the records on that date. *)
Lemma scan_buckets (rs : list (gmap string string * datetime)) :
  let buckets := metrics_by_date (foldl scan_step scan_init rs) in
  NoDup (Dict.keys buckets) ∧
  (∀ k, k ∈ Dict.keys buckets ↔ k ∈ date_key <$> rs) ∧
  (∀ k, bucket buckets k = feed (records_on k rs) LogMetrics_init).
Proof.
  induction rs as [|r rs IH] using rev_ind; simpl.
  - split_and!; [apply NoDup_nil_2|done|done].
  - destruct IH as (IH1 & IH2 & IH3). rewrite foldl_app. simpl.
    split_and!.
    + by apply keys_set_NoDup.
    + intros k. rewrite keys_set_elem, IH2, fmap_app, elem_of_app. simpl.
      rewrite list_elem_of_singleton. unfold date_key. naive_solver.
    + intros k. rewrite bucket_set. unfold records_on.
      rewrite filter_app, fmap_app.
      fold (date_key r). case_decide as Hk.
      * subst k. rewrite filter_cons_True, filter_nil by done. simpl.
        rewrite feed_snoc. f_equal. apply IH3.
      * rewrite filter_cons_False, filter_nil by done. simpl.
        rewrite app_nil_r. apply IH3.
Qed.

(** [t] is an earliest, respectively a latest, of the timestamps [ts]. *)
Definition is_min (t : datetime) (ts : list datetime) : Prop :=
  t ∈ ts ∧ ∀ t', t' ∈ ts → Datetime.utc_micros t ≤ Datetime.utc_micros t'.
Definition is_max (t : datetime) (ts : list datetime) : Prop :=
  t ∈ ts ∧ ∀ t', t' ∈ ts → Datetime.utc_micros t' ≤ Datetime.utc_micros t.

Lemma scan_min_max (rs : list (gmap string string * datetime)) :
  match min_ts (foldl scan_step scan_init rs),
        max_ts (foldl scan_step scan_init rs) with
  | Some mn, Some mx => is_min mn rs.*2 ∧ is_max mx rs.*2
  | None, None => rs = []
  | _, _ => False
  end.
Proof.
  induction rs as [|[d t] rs IH] using rev_ind; [done|].
  rewrite foldl_app, fmap_app.
  cbn [foldl scan_step min_ts max_ts fmap list_fmap snd].
  destruct (min_ts (foldl scan_step scan_init rs)) as [mn|],
           (max_ts (foldl scan_step scan_init rs)) as [mx|]; try done.
  - destruct IH as [[Hmn1 Hmn2] [Hmx1 Hmx2]].
    unfold earlier, later, Datetime.lt, Datetime.gt.
    destruct (Z.ltb_spec (Datetime.utc_micros t) (Datetime.utc_micros mn)),
             (Z.ltb_spec (Datetime.utc_micros mx) (Datetime.utc_micros t));
      (split; (split;
       [rewrite elem_of_app, list_elem_of_singleton; by auto|]));
      intros t' [Ht'| ->%list_elem_of_singleton]%elem_of_app;
      try pose proof (Hmn2 _ Ht'); try pose proof (Hmx2 _ Ht'); lia.
  - subst rs. unfold earlier, later.
    split; (split; [rewrite elem_of_app, list_elem_of_singleton; by auto|]);
      intros t' [[]%elem_of_nil| ->%list_elem_of_singleton]%elem_of_app; lia.
Qed.

Lemma total_applied (d : gmap string string) (m : LogMetrics) :
  valid_record d → total_requests (applied d m) = total_requests m + 1.
Proof.
  intros (ip & ua & req & st & n & Hip & Hua & Hreq & Hst & Hn).
  rewrite (applied_eq d _ ip ua req st n) by done.
  pose proof (measure_classified n (counted ip ua req m) QTotal) as H.
  simpl in H. lia.
Qed.

Lemma sum_totals_set (buckets : Dict.t LogMetrics) (k : string)
    (v : LogMetrics) :
  sum_totals (Dict.set buckets k v)
  = sum_totals buckets - total_requests (bucket buckets k) + total_requests v.
Proof.
  unfold bucket. induction buckets as [|[k0 v0] buckets IH]; simpl.
  - lia.
  - destruct (String.eqb_spec k0 k) as [->|Hne]; simpl; lia.
Qed.

Lemma scan_sum_totals (rs : list (gmap string string * datetime)) :
  Forall (λ r, valid_record r.1) rs →
  sum_totals (metrics_by_date (foldl scan_step scan_init rs))
  = Z.of_nat (length rs).
Proof.
  induction rs as [|[d t] rs IH] using rev_ind; intros Hv; [done|].
  apply Forall_app in Hv as [Hv Hd]. rewrite Forall_singleton in Hd.
  simpl in Hd. rewrite foldl_app, length_app.
  cbn [foldl scan_step metrics_by_date fst snd length].
  rewrite sum_totals_set, total_applied, IH by done. lia.
Qed.

Lemma total_merge_all (ms : list LogMetrics) :
  total_requests (merge_all ms)
  = foldr (λ b acc, total_requests b + acc) 0 ms.
Proof.
  unfold merge_all. rewrite merge_all_foldl.
  assert (∀ m, total_requests (foldl merged m ms)
               = total_requests m + foldr (λ b acc, total_requests b + acc) 0 ms)
    as H.
  { induction ms as [|b ms IH]; intros m; simpl; [lia|].
    rewrite IH, merged_eq. simpl. lia. }
  rewrite H. simpl. lia.
Qed.

Lemma sum_totals_values (report : Dict.t LogMetrics) :
  sum_totals report
  = foldr (λ b acc, total_requests b + acc) 0 (Dict.values report).
Proof.
  unfold sum_totals, Dict.values.
  induction report as [|[k b] report IH]; simpl; [done|]. by rewrite IH.
Qed.

(** The totals of the buckets of a report add up to the totals of the
    day buckets of the scan. *)
Lemma sum_totals_report_of (σ : scan) :
  sum_totals (report_of σ) = sum_totals (metrics_by_date σ).
Proof.
  unfold report_of.
  destruct (min_ts σ), (max_ts σ); try done.
  destruct (_ <? _); [|done].
  simpl. rewrite total_merge_all, <- sum_totals_values. lia.
Qed.

(** ** Date keys *)

(** The calendar date of a timestamp, in its own offset. *)
Definition calendar_date (t : datetime) : Z * Z * Z :=
  (year t, month t, day t).

Lemma strftime_not_Summary (t : datetime) :
  Datetime.strftime_ymd t ≠ "Summary".
Proof.
  unfold Datetime.strftime_ymd.
  intros H%(f_equal (Str.all (λ c, negb (Ascii.eqb "-" c)))).
  rewrite sall_app in H. cbn in H. by rewrite andb_false_r in H.
Qed.

Lemma pretty_N_char_isdigit (x : N) : Str.isdigit (pretty_N_char x) = true.
Proof. unfold pretty_N_char. by repeat case_match. Qed.

Lemma pretty_N_go_digits (x : N) (s : string) :
  Str.all Str.isdigit s = true →
  Str.all Str.isdigit (pretty_N_go x s) = true.
Proof.
  revert s. induction (N.lt_wf_0 x) as [x _ IH]; intros s Hs.
  destruct (decide (x = 0)%N) as [->|Hx]; [by rewrite pretty_N_go_0|].
  rewrite pretty_N_go_step by lia. apply IH; [apply N.div_lt; lia|].
  cbn [Str.all]. by rewrite pretty_N_char_isdigit.
Qed.

(** A year that is not negative is written with digits alone. *)
Lemma pretty_Z_digits (n : Z) :
  0 ≤ n → Str.all Str.isdigit (pretty n) = true.
Proof.
  destruct n as [|p|p]; [done| |lia]. intros _.
  unfold pretty, pretty_Z, pretty, pretty_positive, pretty, pretty_N.
  rewrite decide_False by done. by apply pretty_N_go_digits.
Qed.

Lemma digit_char_inj (a b : Z) :
  Datetime.digit_char a = Datetime.digit_char b → a mod 10 = b mod 10.
Proof.
  unfold Datetime.digit_char. intros H%(f_equal N_of_ascii).
  pose proof (Z.mod_pos_bound a 10 eq_refl).
  pose proof (Z.mod_pos_bound b 10 eq_refl).
  rewrite !N_ascii_embedding in H by lia. lia.
Qed.

Lemma valid_ranges (t : datetime) :
  Datetime.valid t = true →
  1 ≤ year t ≤ 9999 ∧ 1 ≤ month t ≤ 12 ∧ 1 ≤ day t ≤ 31.
Proof.
  unfold Datetime.valid. rewrite !andb_true_iff, !Z.leb_le.
  intros ((((((((((((((? & ?) & ?) & ?) & ?) & Hd) & _) & _) & _) & _) & _)
            & _) & _) & _) & _).
  assert (Datetime.days_in_month (year t) (month t) ≤ 31).
  { unfold Datetime.days_in_month.
    repeat match goal with |- context [if ?b then _ else _] =>
             destruct b end; lia. }
  lia.
Qed.

(** Timestamps get the same key exactly when their calendar dates are
    equal. *)
Lemma strftime_ymd_inj (t1 t2 : datetime) :
  Datetime.valid t1 = true → Datetime.valid t2 = true →
  Datetime.strftime_ymd t1 = Datetime.strftime_ymd t2 ↔
  calendar_date t1 = calendar_date t2.
Proof.
  intros (Hy1 & Hm1 & Hd1)%valid_ranges (Hy2 & Hm2 & Hd2)%valid_ranges.
  unfold calendar_date, Datetime.strftime_ymd. split.
  - intros Heq.
    apply (run_unique Str.isdigit) in Heq as [Hy Hrest];
      [|apply pretty_Z_digits; lia..|done|done].
    apply (inj pretty) in Hy. unfold Datetime.fmt2 in Hrest.
    injection Hrest as M1%digit_char_inj M0%digit_char_inj
                        D1%digit_char_inj D0%digit_char_inj.
    rewrite Hy.
    assert (month t1 = month t2) as ->
      by (clear D1 D0; Z.to_euclidean_division_equations; lia).
    assert (day t1 = day t2) as ->
      by (clear M1 M0; Z.to_euclidean_division_equations; lia).
    done.
  - by intros [= -> -> ->].
Qed.

(** ** Claims about [analyze_file] *)

Lemma timed_records_skip (pre post : list string) (line : string) :
  timed_record line = None →
  timed_records (pre ++ line :: post) = timed_records (pre ++ post).
Proof.
  intros H. unfold timed_records. rewrite !omap_app. simpl. by rewrite H.
Qed.

Lemma analyze_file_skip (pre post : list string) (line : string) :
  timed_record line = None →
  analyze_file (pre ++ line :: post) = analyze_file (pre ++ post).
Proof. intros H. by rewrite !analyze_file_spec, timed_records_skip. Qed.

Lemma analyze_line_skip (line : string) (σ : scan) :
  timed_record line = None → analyze_line line σ = (Return (), σ).
Proof. intros H. by rewrite analyze_line_spec, H. Qed.

(** C5: a line that does not match the grammar gets the explicit
    no-match result; [analyze_file] skips it, no aggregate changes and
    the lines after it are processed as if it were not there.  So for
    ['Invalid Log Line']. *)
Theorem C5_unparseable_line_skipped :
  (∀ line, ¬ matches_grammar line → parse_log_line line = None) ∧
  (∀ line σ,
     ¬ matches_grammar (Str.strip line) →
     analyze_line line σ = (Return (), σ)) ∧
  (∀ pre line post,
     ¬ matches_grammar (Str.strip line) →
     analyze_file (pre ++ line :: post) = analyze_file (pre ++ post)) ∧
  parse_log_line "Invalid Log Line" = None ∧
  (∀ σ, analyze_line "Invalid Log Line" σ = (Return (), σ)) ∧
  (∀ pre post,
     analyze_file (pre ++ "Invalid Log Line" :: post)
     = analyze_file (pre ++ post)).
Proof.
  assert (∀ line, ¬ matches_grammar (Str.strip line) →
                  timed_record line = None) as Hskip.
  { intros line H%parse_log_line_None. unfold timed_record. by rewrite H. }
  split_and!.
  - intros line. apply parse_log_line_None.
  - intros line σ H. by apply analyze_line_skip, Hskip.
  - intros pre line post H. by apply analyze_file_skip, Hskip.
  - reflexivity.
  - intros σ. by apply analyze_line_skip.
  - intros pre post. by apply analyze_file_skip.
Qed.

Lemma C5_witness :
  analyze_file [sample_line; "not a log line"; sample_line]
  = analyze_file [sample_line; sample_line].
Proof.
  apply (proj1 (proj2 (proj2 C5_unparseable_line_skipped)) [sample_line]).
  apply parse_log_line_None. reflexivity.
Defined.

(** C6: a line that matches the grammar but whose date does not parse
    changes nothing: neither the earliest and latest timestamps nor any
    bucket; and the totals of the buckets returned add up to the number
    of lines that matched the grammar with a date that parsed.  A report
    is returned whenever the status of every such line is within the
    limit of [int]. *)
Theorem C6_unparseable_date_contributes_nothing :
  (∀ line d date σ,
     parse_log_line (Str.strip line) = Some d → d !! "date" = Some date →
     parse_log_date date = None →
     analyze_line line σ = (Return (), σ)) ∧
  (∀ pre line post d date,
     parse_log_line (Str.strip line) = Some d → d !! "date" = Some date →
     parse_log_date date = None →
     analyze_file (pre ++ line :: post) = analyze_file (pre ++ post)) ∧
  (∀ lines report,
     analyze_file lines = Return report →
     sum_totals report = Z.of_nat (length (timed_records lines))) ∧
  (∀ lines,
     Forall (λ r, status_within_limit r.1) (timed_records lines) →
     ∃ report, analyze_file lines = Return report).
Proof.
  assert (∀ line d date,
            parse_log_line (Str.strip line) = Some d →
            d !! "date" = Some date → parse_log_date date = None →
            timed_record line = None) as Hskip.
  { intros line d date Hd Hdate Hts. unfold timed_record.
    rewrite Hd. simpl. rewrite Hdate. simpl. by rewrite Hts. }
  split_and!.
  - intros line d date σ ???. by eapply analyze_line_skip, Hskip.
  - intros pre line post d date ???. by eapply analyze_file_skip, Hskip.
  - intros lines report [Hv ->]%analyze_file_Return_inv.
    by rewrite sum_totals_report_of, scan_sum_totals.
  - intros lines Hv. eexists. apply analyze_file_Return.
    by apply timed_records_within_limit.
Qed.

Definition bad_date_line : string :=
  "10.0.0.1 - - [yesterday] " +:+ dq +:+ "GET / HTTP/1.1" +:+ dq +:+
  " 200 1024 " +:+ dq +:+ "-" +:+ dq +:+ " " +:+ dq +:+ "UA1" +:+ dq.

Lemma C6_witness :
  analyze_file [bad_date_line; sample_line] = analyze_file [sample_line] ∧
  ∃ report, analyze_file [bad_date_line; sample_line] = Return report ∧
            sum_totals report = 1.
Proof.
  split.
  - eapply (proj1 (proj2 C6_unparseable_date_contributes_nothing)
              [] bad_date_line [sample_line]).
    + vm_compute. reflexivity.
    + vm_compute. reflexivity.
    + vm_compute. reflexivity.
  - destruct (proj2 (proj2 (proj2 C6_unparseable_date_contributes_nothing))
                [bad_date_line; sample_line]) as [report Hrun].
    { apply all_within_limit. vm_compute. reflexivity. }
    exists report. split; [done|].
    rewrite (proj1 (proj2 (proj2 C6_unparseable_date_contributes_nothing))
               _ _ Hrun).
    vm_compute. reflexivity.
Defined.

(** The day buckets of the timed records [rs]: one bucket for each date
    present, holding the accumulator of the records of that date. *)
Definition day_buckets (days : Dict.t LogMetrics)
    (rs : list (gmap string string * datetime)) : Prop :=
  NoDup (Dict.keys days) ∧
  (∀ k, k ∈ Dict.keys days ↔ k ∈ date_key <$> rs) ∧
  (∀ k m, Dict.lookup days k = Some m →
          m = feed (records_on k rs) LogMetrics_init).

Lemma scan_day_buckets (rs : list (gmap string string * datetime)) :
  day_buckets (metrics_by_date (foldl scan_step scan_init rs)) rs.
Proof.
  destruct (scan_buckets rs) as (H1 & H2 & H3). split_and!; [done..|].
  intros k m Hk. rewrite <- H3. unfold bucket. by rewrite Hk.
Qed.

Lemma day_buckets_no_Summary (days : Dict.t LogMetrics) rs :
  day_buckets days rs → "Summary" ∉ Dict.keys days.
Proof.
  intros (_ & H & _) [r [Hr _]]%H%list_elem_of_fmap.
  symmetry in Hr. by apply strftime_not_Summary in Hr.
Qed.

Definition log_line (ip date request status : string) : string :=
  ip +:+ " - - [" +:+ date +:+ "] " +:+ dq +:+ request +:+ dq +:+ " " +:+
  status +:+ " 1024 " +:+ dq +:+ "-" +:+ dq +:+ " " +:+ dq +:+ "UA1" +:+ dq.

(** The character [c], [n] times. *)
Fixpoint repeated (n : nat) (c : ascii) : string :=
  match n with
  | O => ""
  | S n' => String c (repeated n' c)
  end.

(** A line that matches the grammar, with a timestamp that parses and a
    status of 4301 digits. *)
Definition long_status_line : string :=
  log_line "10.0.0.1" "09/Dec/2025:11:00:00 -0600" "GET / HTTP/1.1"
           (repeated (Z.to_nat 4301) "4").

(** C1 as stated fails on a file with one such line: the line produced
    a valid timestamp, and [analyze_file] returns no report; the
    [ValueError] of [int] is caught and the program ends with exit
    status 1. *)
Lemma C1_counterexample :
  (timed_records [long_status_line]).*2
  = [mkDatetime 2025 12 9 11 0 0 0 (-21600000000)] ∧
  analyze_file [long_status_line] = Raise (SystemExit 1).
Proof. split; vm_compute; reflexivity. Qed.

(** C1, amended: without a valid timestamp the report is empty.  When
    the status of every line that matched with a timestamp that parsed is
    within the limit of [int]: if the latest timestamp minus the earliest
    is less than 24 hours the report has the one key "Summary", mapped to
    the merge of all the day buckets; if it is 24 hours or more the report
    is the day buckets, one per calendar date present, and has no
    "Summary" key.  When the status of such a line is beyond the limit,
    [analyze_file] returns no report and ends the program with exit
    status 1. *)
Theorem C1_report_shape (lines : list string) :
  let rs := timed_records lines in
  (rs = [] → analyze_file lines = Return []) ∧
  (Forall (λ r, status_within_limit r.1) rs →
   ∀ mn mx, is_min mn rs.*2 → is_max mx rs.*2 →
     (Datetime.sub mx mn < Datetime.timedelta_hours 24 →
      ∃ days, day_buckets days rs ∧
              analyze_file lines
              = Return [("Summary", merge_all (Dict.values days))]) ∧
     (Datetime.timedelta_hours 24 ≤ Datetime.sub mx mn →
      ∃ days, day_buckets days rs ∧ analyze_file lines = Return days ∧
              "Summary" ∉ Dict.keys days)) ∧
  (¬ Forall (λ r, status_within_limit r.1) rs →
   analyze_file lines = Raise (SystemExit 1)) ∧
  (∀ r1 r2, r1 ∈ rs → r2 ∈ rs →
     date_key r1 = date_key r2 ↔ calendar_date r1.2 = calendar_date r2.2).
Proof.
  intros rs. split_and!.
  - intros Hrs. rewrite analyze_file_Return; fold rs; by rewrite Hrs.
  - intros Hv%timed_records_within_limit mn mx [Hmn1 Hmn2] [Hmx1 Hmx2].
    pose proof (scan_min_max rs) as Hmm.
    pose proof (scan_day_buckets rs) as Hdays.
    rewrite analyze_file_Return by done. fold rs. unfold report_of.
    destruct (min_ts _) as [mn'|], (max_ts _) as [mx'|]; try done.
    2: { subst rs. rewrite Hmm in Hmn1. by apply elem_of_nil in Hmn1. }
    destruct Hmm as [[Hmn1' Hmn2'] [Hmx1' Hmx2']].
    assert (Datetime.sub mx' mn' = Datetime.sub mx mn) as ->.
    { unfold Datetime.sub.
      pose proof (Hmn2 _ Hmn1'). pose proof (Hmn2' _ Hmn1).
      pose proof (Hmx2 _ Hmx1'). pose proof (Hmx2' _ Hmx1). lia. }
    split; intros Hspan.
    + eexists. split; [done|].
      by rewrite (proj2 (Z.ltb_lt _ _) Hspan).
    + eexists. split_and!; [done| |by eapply day_buckets_no_Summary].
      by rewrite (proj2 (Z.ltb_ge _ _) Hspan).
  - intros Hv. apply analyze_file_exit.
    by rewrite timed_records_within_limit.
  - intros [d1 t1] [d2 t2] H1 H2. unfold date_key. simpl.
    pose proof (timed_records_valid lines) as Hv. rewrite Forall_forall in Hv.
    apply strftime_ymd_inj; [by apply (Hv _ H1)|by apply (Hv _ H2)].
Qed.

Definition short_log : list string :=
  [ log_line "192.168.1.1" "09/Dec/2025:11:00:00 -0600" "GET / HTTP/1.1" "200";
    "Invalid Log Line";
    log_line "10.0.0.1" "09/Dec/2025:11:00:02 -0600" "GET / HTTP/1.1" "404" ].

Definition long_log : list string :=
  [ log_line "127.0.0.1" "09/Dec/2025:10:00:00 -0600" "GET / HTTP/1.1" "200";
    log_line "127.0.0.1" "10/Dec/2025:12:00:00 -0600" "GET / HTTP/1.1" "200" ].

Ltac solve_extreme :=
  split;
  [first [ apply elem_of_cons; by left
         | apply elem_of_cons; right; apply elem_of_cons; by left ]|];
  let t := fresh "t" in
  intros t Ht; repeat (apply elem_of_cons in Ht as [->|Ht]);
  [apply Z.leb_le; vm_compute; reflexivity ..|by apply elem_of_nil in Ht].

Lemma C1_witness :
  (∃ days, analyze_file short_log
           = Return [("Summary", merge_all (Dict.values days))]) ∧
  (∃ days, analyze_file long_log = Return days ∧
           "Summary" ∉ Dict.keys days) ∧
  analyze_file (short_log ++ [long_status_line]) = Raise (SystemExit 1).
Proof.
  set (t1 := mkDatetime 2025 12 9 11 0 0 0 (-21600000000)).
  set (t2 := mkDatetime 2025 12 9 11 0 2 0 (-21600000000)).
  set (t3 := mkDatetime 2025 12 9 10 0 0 0 (-21600000000)).
  set (t4 := mkDatetime 2025 12 10 12 0 0 0 (-21600000000)).
  split_and!.
  - destruct (C1_report_shape short_log) as (_ & H & _).
    assert ((timed_records short_log).*2 = [t1; t2]) as Hts
      by (vm_compute; reflexivity).
    rewrite Hts in H.
    destruct (H ltac:(apply all_within_limit; vm_compute; reflexivity) t1 t2)
      as [Hsum _]; [solve_extreme..|].
    destruct Hsum as (days & _ & Hrun); [by vm_compute|].
    by exists days.
  - destruct (C1_report_shape long_log) as (_ & H & _).
    assert ((timed_records long_log).*2 = [t3; t4]) as Hts
      by (vm_compute; reflexivity).
    rewrite Hts in H.
    destruct (H ltac:(apply all_within_limit; vm_compute; reflexivity) t3 t4)
      as [_ Hlong]; [solve_extreme..|].
    destruct Hlong as (days & _ & Hrun & Hno); [by vm_compute|].
    by exists days.
  - apply (C1_report_shape (short_log ++ [long_status_line])).
    intros Hall%all_within_limit. vm_compute in Hall. discriminate.
Defined.

(** ** [most_common] *)

Section MostCommon.
Implicit Types (c l : list (string * Z)) (x y z : string * Z).

(** [x] comes before [y] in the items [c] of a table. *)
Definition before c x y : Prop :=
  ∃ i j, c !! i = Some x ∧ c !! j = Some y ∧ (i < j)%nat.

(** The order of the ranking: by descending count, and among equal
    counts by position in the table. *)
Definition outranks c x y : Prop :=
  y.2 < x.2 ∨ (x.2 = y.2 ∧ before c x y).

Lemma before_cons c a x y : before c x y → before (a :: c) x y.
Proof. intros (i & j & ? & ? & ?). exists (S i), (S j). simpl. auto with lia. Qed.

Lemma before_head c a y : y ∈ c → before (a :: c) a y.
Proof.
  intros (j & Hj)%list_elem_of_lookup. exists 0%nat, (S j). simpl.
  auto with lia.
Qed.

Lemma outranks_cons c a x y : outranks c x y → outranks (a :: c) x y.
Proof. intros [?|[? ?]]; [by left|right]. auto using before_cons. Qed.

Lemma outranks_count c x y : outranks c x y → y.2 ≤ x.2.
Proof. intros [?|[? _]]; lia. Qed.

Lemma insert_desc_perm a l : Counter.insert_desc a l ≡ₚ a :: l.
Proof.
  induction l as [|y l IH]; simpl; [done|].
  destruct (a.2 <? y.2); [|done]. rewrite IH. apply perm_swap.
Qed.

Lemma sorted_desc_perm c : Counter.sorted_desc c ≡ₚ c.
Proof.
  unfold Counter.sorted_desc. induction c as [|a c IH]; simpl; [done|].
  by rewrite insert_desc_perm, IH.
Qed.

Lemma insert_desc_sorted (R : relation (string * Z)) a l :
  (∀ x y, R x y → y.2 ≤ x.2) →
  (∀ z, z ∈ l → a.2 < z.2 → R z a) →
  (∀ z, z ∈ l → z.2 ≤ a.2 → R a z) →
  StronglySorted R l → StronglySorted R (Counter.insert_desc a l).
Proof.
  intros Hcount Hlt Hge Hl.
  induction Hl as [|y l Hl IH Hy]; simpl.
  - repeat constructor.
  - destruct (Z.ltb_spec a.2 y.2) as [Hay|Hay].
    + constructor.
      * apply IH; intros z Hz; [apply Hlt|apply Hge]; by right.
      * rewrite insert_desc_perm. constructor; [|done].
        apply Hlt; [left|done].
    + constructor; [by constructor|].
      constructor; [apply Hge; [left|done]|].
      rewrite Forall_forall in Hy |- *. intros z Hz.
      apply Hge; [by right|]. specialize (Hcount _ _ (Hy z Hz)). lia.
Qed.

Lemma StronglySorted_mono (R R' : relation (string * Z)) l :
  (∀ x y, R x y → R' x y) → StronglySorted R l → StronglySorted R' l.
Proof.
  intros HR. induction 1 as [|a l Hl IH Ha]; constructor; [done|].
  eapply Forall_impl; [done|]. auto.
Qed.

(** The sort is stable: its result is sorted by [outranks]. *)
Lemma sorted_desc_sorted c :
  StronglySorted (outranks c) (Counter.sorted_desc c).
Proof.
  unfold Counter.sorted_desc. induction c as [|a c IH]; simpl.
  - constructor.
  - apply insert_desc_sorted.
    + apply outranks_count.
    + intros z _ Hz. by left.
    + intros z Hz Hle. fold (Counter.sorted_desc c) in Hz.
      rewrite sorted_desc_perm in Hz.
      destruct (decide (z.2 = a.2)) as [Heq|Hne]; [|left; lia].
      right. split; [done|]. by apply before_head.
    + eapply StronglySorted_mono; [|exact IH].
      intros x y. apply outranks_cons.
Qed.

Lemma StronglySorted_lookup_lt (R : relation (string * Z)) l i j x y :
  StronglySorted R l → l !! i = Some x → l !! j = Some y → (i < j)%nat →
  R x y.
Proof.
  intros Hl. revert i j. induction Hl as [|a l Hl IH Ha]; intros i j; [done|].
  destruct i as [|i], j as [|j]; simpl; try lia.
  - intros [= ->] Hy _. rewrite Forall_forall in Ha.
    apply Ha. by eapply list_elem_of_lookup_2.
  - intros ???. apply (IH i j); auto with lia.
Qed.

End MostCommon.

(** The ranking printed under a "Top 20" heading: at most 20 items of
    the table, in the order of [outranks], and every item left out is
    outranked by every item listed. *)
Lemma most_common_ranking (c : Counter.t) :
  let L := Counter.most_common 20 c in
  length L = (20 `min` length c)%nat ∧
  L ⊆+ c ∧
  (∀ i j x y, L !! i = Some x → L !! j = Some y → (i < j)%nat →
              outranks c x y) ∧
  (∀ x y, x ∈ c → x ∉ L → y ∈ L → outranks c y x).
Proof.
  unfold Counter.most_common.
  pose proof (sorted_desc_perm c) as Hperm.
  pose proof (sorted_desc_sorted c) as Hsorted.
  split_and!.
  - rewrite length_take, Hperm. done.
  - rewrite <- Hperm at 2. apply sublist_submseteq, sublist_take.
  - intros i j x y Hx%lookup_take_Some Hy%lookup_take_Some Hij.
    destruct Hx as [Hx _], Hy as [Hy _].
    by eapply StronglySorted_lookup_lt.
  - intros x y Hx Hnot Hy.
    rewrite <- (take_drop 20 (Counter.sorted_desc c)) in Hsorted.
    eapply StronglySorted_app_1_elem_of; [done..|].
    rewrite <- Hperm, <- (take_drop 20 (Counter.sorted_desc c)) in Hx.
    apply elem_of_app in Hx as [?|?]; done.
Qed.

(** Among equal counts an item that comes first in the table is listed
    first: when the later one is listed, the earlier one is listed above
    it. *)
Lemma most_common_tie (c : Counter.t) (x y : string * Z) (j : nat) :
  NoDup c → before c x y → x.2 = y.2 →
  Counter.most_common 20 c !! j = Some y →
  ∃ i, (i < j)%nat ∧ Counter.most_common 20 c !! i = Some x.
Proof.
  intros Hnd Hbefore Heq Hy.
  destruct (most_common_ranking c) as (_ & _ & Horder & Hout).
  assert (¬ outranks c y x) as Hno.
  { intros [?|[_ (i' & j' & Hi' & Hj' & ?)]]; [lia|].
    destruct Hbefore as (i0 & j0 & Hi0 & Hj0 & ?).
    pose proof (NoDup_lookup _ _ _ _ Hnd Hi' Hj0).
    pose proof (NoDup_lookup _ _ _ _ Hnd Hj' Hi0). lia. }
  assert (x ∈ c) as Hx.
  { destruct Hbefore as (i0 & _ & Hi0 & _). by eapply list_elem_of_lookup_2. }
  destruct (decide (x ∈ Counter.most_common 20 c)) as [Hin|Hnot].
  - apply list_elem_of_lookup in Hin as [i Hi]. exists i. split; [|done].
    destruct (decide (i < j)%nat); [done|]. destruct Hno.
    destruct (decide (i = j)) as [->|].
    + rewrite Hi in Hy. injection Hy as ->.
      destruct Hbefore as (i0 & j0 & Hi0 & Hj0 & ?).
      pose proof (NoDup_lookup _ _ _ _ Hnd Hi0 Hj0). lia.
    + apply (Horder j i); [done..|lia].
  - destruct Hno. apply Hout; [done..|]. by eapply list_elem_of_lookup_2.
Qed.

(** ** The order of a table filled by [update] *)

Section TableOrder.
Implicit Types (c : Counter.t) (d : gmap string string)
  (rs : list (gmap string string)) (m : LogMetrics).

Lemma incr_keys c k n :
  Dict.keys (Counter.incr c k n)
  = Dict.keys c ++ (if decide (k ∈ Dict.keys c) then [] else [k]).
Proof.
  unfold Counter.incr. case_decide.
  - rewrite set_existing by done. by rewrite app_nil_r.
  - rewrite set_new by done. unfold Dict.keys. by rewrite fmap_app.
Qed.

Lemma applied_ip_counter d m ip :
  valid_record d → d !! "ip" = Some ip →
  ip_counter (applied d m) = Counter.incr (ip_counter m) ip 1.
Proof.
  intros (ip' & ua & req & st & n & Hip & Hua & Hreq & Hst & Hn) Hip'.
  rewrite (applied_eq d _ ip' ua req st n) by done.
  assert (ip' = ip) as -> by congruence.
  unfold classified. by repeat case_decide.
Qed.

Definition ip_of d : option string := d !! "ip".

(** Feeding records appends the addresses not seen before. *)
Lemma feed_ip_keys rs m :
  Forall valid_record rs →
  ∃ ext, Dict.keys (ip_counter (feed rs m))
         = Dict.keys (ip_counter m) ++ ext ∧
         ∀ k, k ∈ ext → Some k ∈ ip_of <$> rs.
Proof.
  intros Hrs. revert m. induction Hrs as [|d rs Hd Hrs IH]; intros m.
  - exists []. split; [by rewrite app_nil_r|]. by intros k ?%elem_of_nil.
  - simpl. destruct (IH (applied d m)) as (ext & Hkeys & Hext).
    destruct Hd as (ip & ? & ? & ? & ? & Hip & Hrest).
    rewrite (applied_ip_counter d m ip) in Hkeys
      by (done || by eexists _, _, _, _, _).
    rewrite incr_keys, <- app_assoc in Hkeys.
    eexists. split; [exact Hkeys|].
    intros k [Hk|Hk]%elem_of_app.
    + case_decide; [by apply elem_of_nil in Hk|].
      apply list_elem_of_singleton in Hk as ->.
      apply elem_of_cons. left. by unfold ip_of.
    + apply elem_of_cons. right. auto.
Qed.

Lemma feed_ip_keys_seen rs m k :
  Forall valid_record rs → Some k ∈ ip_of <$> rs →
  k ∈ Dict.keys (ip_counter (feed rs m)).
Proof.
  intros Hrs. revert m. induction Hrs as [|d rs Hd Hrs IH]; intros m Hk.
  - by apply elem_of_nil in Hk.
  - simpl in *. apply elem_of_cons in Hk as [Hk|Hk]; [|by apply IH].
    unfold ip_of in Hk. symmetry in Hk.
    destruct (feed_ip_keys rs (applied d m) Hrs) as (ext & -> & _).
    apply elem_of_app. left.
    rewrite (applied_ip_counter d m k) by done.
    rewrite incr_keys. case_decide; set_solver.
Qed.

Lemma before_keys c k1 k2 v1 v2 (K1 ext : list string) :
  NoDup (Dict.keys c) → Dict.keys c = K1 ++ ext →
  k1 ∈ K1 → k2 ∈ ext → (k1, v1) ∈ c → (k2, v2) ∈ c →
  before c (k1, v1) (k2, v2).
Proof.
  intros Hnd Hkeys H1 H2 Hx Hy.
  apply list_elem_of_lookup in Hx as [i Hi], Hy as [j Hj].
  exists i, j. split_and!; [done..|].
  assert (Dict.keys c !! i = Some k1) as Hi'
    by (unfold Dict.keys; by rewrite list_lookup_fmap, Hi).
  assert (Dict.keys c !! j = Some k2) as Hj'
    by (unfold Dict.keys; by rewrite list_lookup_fmap, Hj).
  apply list_elem_of_lookup in H1 as [i1 Hi1], H2 as [j2 Hj2].
  pose proof (lookup_lt_Some _ _ _ Hi1) as Hlt.
  assert (Dict.keys c !! i1 = Some k1) as Hk1
    by (rewrite Hkeys; by apply lookup_app_l_Some).
  assert (Dict.keys c !! (length K1 + j2)%nat = Some k2) as Hk2
    by (rewrite Hkeys, lookup_app_r by lia; rewrite <- Hj2; f_equal; lia).
  pose proof (NoDup_lookup _ _ _ _ Hnd Hi' Hk1).
  pose proof (NoDup_lookup _ _ _ _ Hnd Hj' Hk2). lia.
Qed.

(** In the table of an accumulator fed records, an address seen first
    comes before an address first seen later. *)
Lemma feed_first_seen r1 a r2 A B vA vB :
  let c := ip_counter (feed (r1 ++ a :: r2) LogMetrics_init) in
  Forall valid_record (r1 ++ a :: r2) →
  ip_of a = Some A → Some B ∉ ip_of <$> r1 → A ≠ B →
  (A, vA) ∈ c → (B, vB) ∈ c →
  before c (A, vA) (B, vB).
Proof.
  intros c Hv HA HB Hne Hx Hy.
  pose proof wf_metrics_init as Hi.
  assert (wf_metrics (feed (r1 ++ a :: r2) LogMetrics_init)) as (Hwf & _ & _)
    by by apply feed_wf.
  apply Forall_app in Hv as [Hv1 Hv2].
  apply Forall_cons in Hv2 as [Hva Hv2].
  assert (Forall valid_record (r1 ++ [a])) as Hv1a
    by (apply Forall_app; split; [done|by apply Forall_singleton]).
  unfold c in *. replace (r1 ++ a :: r2) with ((r1 ++ [a]) ++ r2) in *
    by by rewrite <- app_assoc.
  unfold feed in *. rewrite foldl_app in *.
  fold (feed (r1 ++ [a]) LogMetrics_init) in *.
  set (m1 := feed (r1 ++ [a]) LogMetrics_init) in *.
  fold (feed r2 m1) in *.
  destruct (feed_ip_keys r2 m1 Hv2) as (ext & Hkeys & Hext).
  eapply before_keys; [apply Hwf|exact Hkeys| | |done|done].
  - apply feed_ip_keys_seen; [done|].
    rewrite fmap_app, elem_of_app. right. simpl. rewrite HA.
    apply elem_of_cons. by left.
  - assert (B ∈ Dict.keys (ip_counter (feed r2 m1))) as HBin.
    { apply list_elem_of_fmap. by exists (B, vB). }
    rewrite Hkeys in HBin. apply elem_of_app in HBin as [HBin|]; [|done].
    exfalso. subst m1.
    destruct (feed_ip_keys (r1 ++ [a]) LogMetrics_init Hv1a)
      as (ext' & Hk' & Hext').
    rewrite Hk' in HBin. simpl in HBin. apply Hext' in HBin.
    rewrite fmap_app, elem_of_app in HBin. destruct HBin as [?|HBin]; [done|].
    simpl in HBin. apply list_elem_of_singleton in HBin. congruence.
Qed.

End TableOrder.

(** ** The first address of the Summary table *)

Section SummaryHead.
Implicit Types (c o : Counter.t) (A k : string) (m b : LogMetrics).

(** [A] is the first key of the table. *)
Definition heads_with A c : Prop := ∃ v c', c = (A, v) :: c'.

Lemma incr_head A c k n : heads_with A c → heads_with A (Counter.incr c k n).
Proof.
  intros (v & c' & ->). unfold Counter.incr. simpl.
  destruct (String.eqb_spec A k); by eexists _, _.
Qed.

Lemma foldl_add_item_head A c o :
  heads_with A c → heads_with A (foldl add_item c o).
Proof.
  revert c. induction o as [|kv o IH]; intros c Hc; [done|].
  simpl. apply IH. by apply incr_head.
Qed.

Lemma iadd_head A c o :
  wf_counter c → wf_counter o → heads_with A c →
  heads_with A (Counter.iadd c o).
Proof. intros. rewrite iadd_eq by done. by apply foldl_add_item_head. Qed.

Lemma iadd_nil_head A o :
  wf_counter o → heads_with A o → heads_with A (Counter.iadd [] o).
Proof.
  intros Ho (v & o' & ->). rewrite iadd_eq by (done || apply wf_counter_nil).
  simpl. apply foldl_add_item_head. by eexists _, _.
Qed.

Lemma foldl_merged_head A (ms : list LogMetrics) m :
  Forall wf_metrics ms → wf_metrics m → heads_with A (ip_counter m) →
  heads_with A (ip_counter (foldl merged m ms)).
Proof.
  intros Hms. revert m. induction Hms as [|b ms Hb Hms IH]; intros m Hm HA.
  - done.
  - simpl. apply IH; [by apply merged_wf|].
    rewrite merged_eq. simpl. apply iadd_head; [apply Hm|apply Hb|done].
Qed.

Lemma merge_all_head A b (ms : list LogMetrics) :
  Forall wf_metrics (b :: ms) → heads_with A (ip_counter b) →
  heads_with A (ip_counter (merge_all (b :: ms))).
Proof.
  intros [Hb Hms]%Forall_cons HA. unfold merge_all.
  rewrite merge_all_foldl. simpl.
  apply foldl_merged_head; [done|by apply merged_wf, Hb; apply wf_metrics_init|].
  rewrite merged_eq. simpl. apply iadd_nil_head; [apply Hb|done].
Qed.

(** The first bucket of the scan starts with the address [A]. *)
Definition first_bucket_heads_with A (buckets : Dict.t LogMetrics) : Prop :=
  ∃ k b rest, buckets = (k, b) :: rest ∧ heads_with A (ip_counter b).

Lemma scan_step_head A (σ : scan) r :
  valid_record r.1 →
  first_bucket_heads_with A (metrics_by_date σ) →
  first_bucket_heads_with A (metrics_by_date (scan_step σ r)).
Proof.
  intros Hv (k & b & rest & Hb & HA). unfold scan_step. simpl.
  rewrite Hb. unfold bucket. simpl.
  destruct Hv as (ip & ? & ? & ? & ? & Hip & ?).
  destruct (String.eqb_spec k (Datetime.strftime_ymd r.2)).
  - eexists _, _, _. split; [done|]. simpl.
    rewrite (applied_ip_counter _ _ ip) by (done || by eexists _, _, _, _, _).
    by apply incr_head.
  - by eexists _, _, _.
Qed.

Lemma scan_head A (σ : scan) rs :
  Forall (λ r, valid_record r.1) rs →
  first_bucket_heads_with A (metrics_by_date σ) →
  first_bucket_heads_with A (metrics_by_date (foldl scan_step σ rs)).
Proof.
  intros Hrs. revert σ. induction Hrs as [|r rs Hr Hrs IH]; intros σ Hσ.
  - done.
  - simpl. apply IH. by apply scan_step_head.
Qed.

Lemma scan_first_head A d t rs :
  Forall (λ r, valid_record r.1) ((d, t) :: rs) → ip_of d = Some A →
  first_bucket_heads_with A
    (metrics_by_date (foldl scan_step scan_init ((d, t) :: rs))).
Proof.
  intros [Hd Hrs]%Forall_cons HA. simpl. apply scan_head; [done|].
  unfold scan_step, bucket. simpl. eexists _, _, _. split; [done|].
  rewrite (applied_ip_counter _ _ A) by done. by eexists _, _.
Qed.

Lemma scan_values_wf rs :
  Forall (λ r, valid_record r.1) rs →
  Forall wf_metrics
    (Dict.values (metrics_by_date (foldl scan_step scan_init rs))).
Proof.
  intros Hrs. destruct (scan_buckets rs) as (Hnd & _ & Hb).
  apply Forall_forall. intros b [[k b'] [-> Hin]]%list_elem_of_fmap.
  apply elem_lookup in Hin; [|done].
  specialize (Hb k). unfold bucket in Hb. rewrite Hin in Hb. simpl in *.
  rewrite Hb. apply feed_wf; [|apply wf_metrics_init].
  unfold records_on. apply Forall_fmap, Forall_forall.
  intros r [_ Hr]%list_elem_of_filter.
  rewrite Forall_forall in Hrs. by apply Hrs.
Qed.

End SummaryHead.

(** ** The ranking claim *)

(** Lines of two dates within 24 hours, the dates interleaved: the
    address 1.1.1.1 is first seen on the second line, 2.2.2.2 on the
    third. *)
Definition interleaved_log : list string :=
  [ log_line "3.3.3.3" "09/Dec/2025:23:59:58 +0000" "GET / HTTP/1.1" "200";
    log_line "1.1.1.1" "10/Dec/2025:00:00:01 +0000" "GET / HTTP/1.1" "200";
    log_line "2.2.2.2" "09/Dec/2025:23:59:59 +0000" "GET / HTTP/1.1" "200";
    log_line "1.1.1.1" "10/Dec/2025:00:00:02 +0000" "GET / HTTP/1.1" "200";
    log_line "2.2.2.2" "09/Dec/2025:23:59:59 +0000" "GET / HTTP/1.1" "200" ].

(** C3 as stated fails on the Summary bucket: both addresses occur
    twice, 1.1.1.1 is on an earlier line than 2.2.2.2, and 2.2.2.2 is
    ranked above it, since the Summary table is filled bucket by
    bucket. *)
Lemma C3_counterexample :
  ∃ s, analyze_file interleaved_log = Return [("Summary", s)] ∧
       omap (λ line, parse_log_line line ≫= ip_of) interleaved_log
       = ["3.3.3.3"; "1.1.1.1"; "2.2.2.2"; "1.1.1.1"; "2.2.2.2"] ∧
       Counter.most_common 20 (ip_counter s)
       = [("2.2.2.2", 2); ("1.1.1.1", 2); ("3.3.3.3", 1)].
Proof. eexists. split_and!; vm_compute; reflexivity. Qed.

Lemma wf_counter_NoDup (c : Counter.t) : wf_counter c → NoDup c.
Proof. intros [Hnd _]. by apply NoDup_fmap_1 in Hnd. Qed.

(** C3, amended: each "Top 20" list holds at most 20 items of its table,
    by descending count, items of equal count in the order of the table,
    and no item left out outranks an item listed.  In a table filled by
    [update] alone, as that of a day bucket, of two addresses with the
    same count the one first seen on an earlier line is listed above the
    other.  In the Summary the address of the first line counted is
    listed above every other address with the same count. *)
Theorem C3_top20_ranking :
  (∀ c : Counter.t,
     top20 c = ranked_line <$> Counter.most_common 20 c ∧
     length (Counter.most_common 20 c) = (20 `min` length c)%nat ∧
     Counter.most_common 20 c ⊆+ c ∧
     (∀ i j x y,
        Counter.most_common 20 c !! i = Some x →
        Counter.most_common 20 c !! j = Some y → (i < j)%nat →
        y.2 < x.2 ∨ (x.2 = y.2 ∧ before c x y)) ∧
     (∀ x y, x ∈ c → x ∉ Counter.most_common 20 c →
             y ∈ Counter.most_common 20 c →
             x.2 < y.2 ∨ (y.2 = x.2 ∧ before c y x))) ∧
  (∀ r1 a r2 A B n j,
     Forall valid_record (r1 ++ a :: r2) →
     ip_of a = Some A → Some B ∉ ip_of <$> r1 → A ≠ B →
     (A, n) ∈ ip_counter (feed (r1 ++ a :: r2) LogMetrics_init) →
     Counter.most_common 20
       (ip_counter (feed (r1 ++ a :: r2) LogMetrics_init)) !! j
     = Some (B, n) →
     ∃ i, (i < j)%nat ∧
          Counter.most_common 20
            (ip_counter (feed (r1 ++ a :: r2) LogMetrics_init)) !! i
          = Some (A, n)) ∧
  (∀ lines d t rs s A B n j,
     timed_records lines = (d, t) :: rs → ip_of d = Some A →
     analyze_file lines = Return [("Summary", s)] → A ≠ B →
     (A, n) ∈ ip_counter s →
     Counter.most_common 20 (ip_counter s) !! j = Some (B, n) →
     ∃ i, (i < j)%nat ∧
          Counter.most_common 20 (ip_counter s) !! i = Some (A, n)).
Proof.
  split_and!.
  - intros c. destruct (most_common_ranking c) as (H1 & H2 & H3 & H4).
    split_and!; done.
  - intros r1 a r2 A B n j Hv HA HB Hne HAin HBj.
    assert (wf_metrics (feed (r1 ++ a :: r2) LogMetrics_init)) as (Hwf & _ & _)
      by (apply feed_wf; [done|apply wf_metrics_init]).
    apply (most_common_tie _ (A, n) (B, n) j);
      [by apply wf_counter_NoDup| |done|done].
    eapply feed_first_seen; [done..|].
    destruct (most_common_ranking
                (ip_counter (feed (r1 ++ a :: r2) LogMetrics_init)))
      as (_ & Hsub & _).
    eapply elem_of_submseteq; [|exact Hsub].
    by eapply list_elem_of_lookup_2.
  - intros lines d t rs s A B n j Hrs HA Hrun Hne HAin HBj.
    apply analyze_file_Return_inv in Hrun as [Hv' Hrun].
    rewrite Hrs in Hv', Hrun.
    pose proof (scan_first_head A d t rs Hv' HA) as (k & b & rest & Hb & Hhead).
    pose proof (scan_values_wf _ Hv') as Hwf.
    pose proof (scan_day_buckets ((d, t) :: rs)) as Hdays.
    apply day_buckets_no_Summary in Hdays.
    revert Hrun Hb Hwf Hdays.
    generalize (foldl scan_step scan_init ((d, t) :: rs)).
    intros σ Hrun Hb Hwf Hdays.
    assert (report_of σ = [("Summary", s)]) as Hrep by congruence.
    assert (s = merge_all (Dict.values (metrics_by_date σ))) as ->.
    { unfold report_of in Hrep.
      destruct (min_ts σ) as [mn|], (max_ts σ) as [mx|];
        try (rewrite Hrep in Hdays; destruct Hdays; by left).
      destruct (Datetime.sub mx mn <? Datetime.timedelta_hours 24);
        [congruence|rewrite Hrep in Hdays; destruct Hdays; by left]. }
    rewrite Hb in *. unfold Dict.values in *.
    rewrite fmap_cons in *. cbn [snd] in *.
    pose proof (merge_all_head A b _ Hwf Hhead) as (v & c' & Hc).
    assert (wf_counter (ip_counter (merge_all (b :: rest.*2)))) as Hwfc.
    { unfold merge_all. rewrite merge_all_foldl.
      apply foldl_merged_wf; [done|apply wf_metrics_init]. }
    pose proof (wf_counter_NoDup _ Hwfc) as Hnd.
    apply (most_common_tie _ (A, n) (B, n) j); [done| |done|done].
    assert ((B, n) ∈ ip_counter (merge_all (b :: rest.*2))) as HBin.
    { destruct (most_common_ranking
                  (ip_counter (merge_all (b :: rest.*2)))) as (_ & Hsub & _).
      eapply elem_of_submseteq; [|exact Hsub].
      by eapply list_elem_of_lookup_2. }
    destruct Hwfc as [Hk _].
    rewrite Hc in HAin, HBin, Hk |- *.
    unfold Dict.keys in Hk. rewrite fmap_cons in Hk. cbn [fst] in Hk.
    apply NoDup_cons in Hk as [Hk _].
    apply elem_of_cons in HAin as [[= <-]|HAin].
    2: { destruct Hk. apply list_elem_of_fmap. by exists (A, n). }
    apply elem_of_cons in HBin as [[= ->]|HBin]; [done|].
    by apply before_head.
Qed.

Lemma C3_witness :
  (let a := mk_record "10.0.0.1" "UA1" "GET / HTTP/1.1" "200" in
   let b := mk_record "10.0.0.2" "UA2" "GET /x HTTP/1.1" "404" in
   ∃ i, (i < 1)%nat ∧
        Counter.most_common 20 (ip_counter (feed [a; b] LogMetrics_init)) !! i
        = Some ("10.0.0.1", 1)) ∧
  (∃ s, analyze_file short_log = Return [("Summary", s)] ∧
        ∃ i, (i < 1)%nat ∧
             Counter.most_common 20 (ip_counter s) !! i
             = Some ("192.168.1.1", 1)).
Proof.
  split.
  - intros a b.
    apply (proj1 (proj2 C3_top20_ranking) [] a [b] "10.0.0.1" "10.0.0.2" 1 1%nat).
    + repeat constructor; by eexists _, _, _, _, _.
    + vm_compute. reflexivity.
    + apply not_elem_of_nil.
    + done.
    + vm_compute. apply elem_of_cons. by left.
    + vm_compute. reflexivity.
  - eexists. split.
    + vm_compute. reflexivity.
    + eapply (proj2 (proj2 C3_top20_ranking) short_log _ _ _ _
                "192.168.1.1" "10.0.0.1" 1 1%nat).
      * vm_compute. reflexivity.
      * vm_compute. reflexivity.
      * vm_compute. reflexivity.
      * done.
      * vm_compute. apply elem_of_cons. by left.
      * vm_compute. reflexivity.
Defined.

(** * Further properties of the code *)

(** ** The line parser: [LOG_PATTERN], [parse_log_line] *)

(** X1: The pattern is anchored at the start of the line only: a line that
    matches still matches, with the same fields, whatever text is
    appended to it. *)
Theorem parse_log_line_appended (line extra : string)
    (d : gmap string string) :
  parse_log_line line = Some d → parse_log_line (line +:+ extra) = Some d.
Proof.
  intros (f & rest & Hwf & -> & ->)%parse_log_line_Some.
  apply parse_log_line_Some. exists f, (rest +:+ extra).
  by rewrite sapp_assoc.
Qed.

Definition sample_line_fields : fields :=
  Fields "127.0.0.1" "09/Dec/2025:11:00:00 -0600" "GET /index.html HTTP/1.1"
         "200" "1024" "-" "Mozilla/5.0".

Lemma parse_log_line_appended_witness :
  parse_log_line sample_line = Some (to_dict sample_line_fields) ∧
  parse_log_line (sample_line +:+ " and more text")
  = Some (to_dict sample_line_fields).
Proof.
  assert (parse_log_line sample_line = Some (to_dict sample_line_fields))
    as H by (vm_compute; reflexivity).
  split; [exact H|]. apply parse_log_line_appended. exact H.
Defined.

(** The names of the seven groups of [LOG_PATTERN]. *)
Definition group_names : gset string :=
  {[ "ip"; "date"; "request"; "status"; "size"; "referrer"; "user_agent" ]}.

(** X2: Every dictionary returned by [parse_log_line] has exactly the seven
    keys of the pattern, so it is never empty, and its values have the
    shape the pattern asks for: the address is a non-empty run of digits
    and dots, the status a non-empty run of digits, the size a hyphen or
    a non-empty run of digits, the date is non-empty without a closing
    bracket, the request is non-empty, and request, referrer and user
    agent hold no double quote. *)
Theorem parse_log_line_groups (line : string) (d : gmap string string) :
  parse_log_line line = Some d →
  dom d = group_names ∧ d ≠ ∅ ∧
  ∃ f, fields_of_dict d = Some f ∧ well_formed f.
Proof.
  intros (f & rest & Hwf & -> & ->)%parse_log_line_Some. split_and!.
  - unfold to_dict, group_names. rewrite !dom_insert_L, dom_empty_L.
    set_solver.
  - apply to_dict_nonempty.
  - exists f. split; [apply fields_of_to_dict|done].
Qed.

Lemma parse_log_line_groups_witness :
  dom (to_dict sample_line_fields) = group_names ∧
  fields_of_dict (to_dict sample_line_fields) = Some sample_line_fields.
Proof.
  destruct (parse_log_line_groups sample_line (to_dict sample_line_fields))
    as (Hdom & _ & f & Hf & _); [vm_compute; reflexivity|].
  split; [exact Hdom|]. apply fields_of_to_dict.
Defined.

(** ** White space around a line: [analyze_file], the loop body *)

Lemma dropwhile_all_app (p : ascii → bool) (ws s : string) :
  Str.all p ws = true → Str.dropwhile p (ws +:+ s) = Str.dropwhile p s.
Proof.
  induction ws as [|c ws IH]; [done|]. rewrite sapp_cons. simpl.
  intros [-> ?]%andb_true_iff. auto.
Qed.

Lemma dropwhile_all (p : ascii → bool) (ws : string) :
  Str.all p ws = true → Str.dropwhile p ws = "".
Proof.
  induction ws as [|c ws IH]; [done|]. simpl.
  intros [-> ?]%andb_true_iff. auto.
Qed.

Lemma dropwhile_app_all (p : ascii → bool) (s ws : string) :
  Str.all p ws = true →
  Str.dropwhile p (s +:+ ws)
  = if Str.all p s then "" else Str.dropwhile p s +:+ ws.
Proof.
  intros Hws. induction s as [|c s IH].
  - rewrite sapp_nil_l. simpl. by apply dropwhile_all.
  - rewrite sapp_cons. simpl. destruct (p c); [done|]. simpl.
    by rewrite sapp_cons.
Qed.

Lemma rev_app_app (s t acc : string) :
  String.rev_app (s +:+ t) acc = String.rev_app t (String.rev_app s acc).
Proof.
  revert acc. induction s as [|c s IH]; intros acc.
  - by rewrite sapp_nil_l.
  - rewrite sapp_cons. simpl. apply IH.
Qed.

Lemma rev_app_acc (s acc : string) :
  String.rev_app s acc = String.rev s +:+ acc.
Proof.
  unfold String.rev. revert acc. induction s as [|c s IH]; intros acc.
  - by rewrite sapp_nil_l.
  - simpl. rewrite (IH (String c "")), (IH (String c acc)), sapp_assoc. done.
Qed.

Lemma rstrip_app_space (s ws : string) :
  Str.all Str.isspace ws = true → Str.rstrip (s +:+ ws) = Str.rstrip s.
Proof.
  intros Hws. unfold Str.rstrip. f_equal. unfold String.rev at 1.
  rewrite rev_app_app, rev_app_acc. apply dropwhile_all_app.
  unfold String.rev. by rewrite all_rev_app, Hws.
Qed.

Lemma strip_all_space (ws : string) :
  Str.all Str.isspace ws = true → Str.strip ws = "".
Proof.
  intros Hws. unfold Str.strip, Str.lstrip. by rewrite dropwhile_all.
Qed.

(** [strip] removes the white space around a text and nothing else. *)
Lemma strip_surrounding (ws1 s ws2 : string) :
  Str.all Str.isspace ws1 = true → Str.all Str.isspace ws2 = true →
  Str.strip (ws1 +:+ s +:+ ws2) = Str.strip s.
Proof.
  intros H1 H2. unfold Str.strip, Str.lstrip.
  rewrite dropwhile_all_app, dropwhile_app_all by done.
  destruct (Str.all Str.isspace s) eqn:Hs.
  - by rewrite dropwhile_all.
  - by apply rstrip_app_space.
Qed.

(** The lines [lines'] are the lines [lines], each with white space
    added at its ends. *)
Definition padded (lines lines' : list string) : Prop :=
  Forall2 (λ line line',
    ∃ ws1 ws2, Str.all Str.isspace ws1 = true ∧
               Str.all Str.isspace ws2 = true ∧
               line' = ws1 +:+ line +:+ ws2) lines lines'.

(** X3: White space around a line is ignored: indentation, trailing blanks
    and the line terminator change neither what the loop body does nor
    the report; a line of white space alone is skipped. *)
Theorem analyze_file_ignores_surrounding_space :
  (∀ ws1 line ws2 σ,
     Str.all Str.isspace ws1 = true → Str.all Str.isspace ws2 = true →
     analyze_line (ws1 +:+ line +:+ ws2) σ = analyze_line line σ) ∧
  (∀ lines lines',
     padded lines lines' → analyze_file lines' = analyze_file lines) ∧
  (∀ pre ws post,
     Str.all Str.isspace ws = true →
     analyze_file (pre ++ ws :: post) = analyze_file (pre ++ post)).
Proof.
  assert (∀ ws1 line ws2,
            Str.all Str.isspace ws1 = true → Str.all Str.isspace ws2 = true →
            timed_record (ws1 +:+ line +:+ ws2) = timed_record line) as Hrec.
  { intros ws1 line ws2 H1 H2. unfold timed_record.
    by rewrite strip_surrounding. }
  split_and!.
  - intros ws1 line ws2 σ H1 H2. by rewrite !analyze_line_spec, Hrec.
  - intros lines lines' Hpad. rewrite !analyze_file_spec.
    assert (timed_records lines' = timed_records lines) as ->; [|done].
    unfold timed_records.
    induction Hpad as [|line line' lines lines' (ws1 & ws2 & H1 & H2 & ->) _ IH];
      [done|].
    cbn [omap list_omap]. by rewrite Hrec, IH.
  - intros pre ws post Hws. apply analyze_file_skip.
    unfold timed_record. rewrite strip_all_space by done.
    by rewrite parse_log_line_empty.
Qed.

Definition line_feed : ascii := Eval cbv in ascii_of_N 10.
Definition newline : string := String line_feed "".

Lemma analyze_file_ignores_surrounding_space_witness :
  analyze_file ["  " +:+ sample_line +:+ newline; newline]
  = analyze_file [sample_line].
Proof.
  destruct analyze_file_ignores_surrounding_space as (_ & Hpad & Hblank).
  transitivity (analyze_file ["  " +:+ sample_line +:+ newline]).
  { apply (Hblank [_] newline []). vm_compute. reflexivity. }
  apply Hpad. repeat constructor.
  exists "  ", newline. split_and!; [vm_compute; reflexivity..|done].
Defined.

(** ** The admin-ajax count of [update] *)

(** [needle in s] holds exactly when [needle] occurs in [s]. *)
Lemma contains_spec (needle s : string) :
  Str.contains needle s = true ↔ ∃ pre post, s = pre +:+ needle +:+ post.
Proof.
  split.
  - induction s as [|c s IH]; simpl.
    + destruct (Str.strip_prefix needle "") as [post|] eqn:H; [|done].
      intros _. apply strip_prefix_Some in H. by exists "", post.
    + destruct (Str.strip_prefix needle (String c s)) as [post|] eqn:H.
      * intros _. apply strip_prefix_Some in H. by exists "", post.
      * intros (pre & post & ->)%IH. by exists (String c pre), post.
  - intros (pre & post & ->). induction pre as [|c pre IH].
    + rewrite sapp_nil_l.
      destruct (needle +:+ post) as [|c s] eqn:E; simpl;
        by rewrite <- E, strip_prefix_app.
    + rewrite sapp_cons. simpl.
      by destruct (Str.strip_prefix needle _).
Qed.

(** X4: [update] adds one to the admin-ajax count exactly when the text
    admin-ajax.php occurs in the request target it counts, wherever it
    stands in the target (in a longer path or in a query string) and in
    this spelling only; otherwise the count is unchanged. *)
Theorem update_admin_ajax_count (d : gmap string string) (m : LogMetrics)
    (request : string) :
  valid_record d → d !! "request" = Some request →
  ∃ m', update d m = (Return (), m') ∧
    ((∃ pre post,
        request_uri request = pre +:+ "admin-ajax.php" +:+ post) →
     admin_ajax_count m' = admin_ajax_count m + 1) ∧
    (¬ (∃ pre post,
          request_uri request = pre +:+ "admin-ajax.php" +:+ post) →
     admin_ajax_count m' = admin_ajax_count m).
Proof.
  intros Hv Hreq. exists (applied d m). split; [by apply update_valid|].
  destruct Hv as (ip & ua & req & st & n & Hip & Hua & Hreq' & Hst & Hn).
  assert (req = request) as -> by congruence.
  rewrite (applied_eq d _ ip ua request st n) by done.
  pose proof (measure_classified n (counted ip ua request m) QAdminAjax) as Hc.
  cbn [measure] in Hc. rewrite Hc. cbn [counted admin_ajax_count].
  rewrite <- contains_spec.
  destruct (Str.contains "admin-ajax.php" (request_uri request));
    split; intros; (done || lia).
Qed.

Lemma update_admin_ajax_count_witness :
  let d := mk_record "10.0.0.1" "UA1"
             "POST /wp-admin/admin-ajax.php?action=heartbeat HTTP/1.1" "200" in
  ∃ m', update d LogMetrics_init = (Return (), m') ∧ admin_ajax_count m' = 1.
Proof.
  intros d.
  destruct (update_admin_ajax_count d LogMetrics_init
              "POST /wp-admin/admin-ajax.php?action=heartbeat HTTP/1.1")
    as (m' & Hrun & Hyes & _).
  - by eexists _, _, _, _, _.
  - vm_compute. reflexivity.
  - exists m'. split; [done|]. apply Hyes.
    exists "/wp-admin/", "?action=heartbeat". vm_compute. reflexivity.
Defined.

(** ** What holds of every aggregate of a report *)

(** [sum(c.values())] *)
Definition sum_counts (c : Counter.t) : Z := foldr (λ kv acc, kv.2 + acc) 0 c.

(** The counts of an aggregate agree with each other: every table has
    distinct keys and positive counts that add up to the total, the two
    error counts are not negative and add up to the total at most, and so
    does the admin-ajax count. *)
Record consistent (m : LogMetrics) : Prop := Consistent {
  consistent_tables : wf_metrics m;
  consistent_ip : sum_counts (ip_counter m) = total_requests m;
  consistent_ua : sum_counts (ua_counter m) = total_requests m;
  consistent_uri : sum_counts (uri_counter m) = total_requests m;
  consistent_4xx : 0 ≤ e4xx (error_counts m);
  consistent_5xx : 0 ≤ e5xx (error_counts m);
  consistent_errors :
    e4xx (error_counts m) + e5xx (error_counts m) ≤ total_requests m;
  consistent_admin_ajax : 0 ≤ admin_ajax_count m ≤ total_requests m
}.

Lemma sum_counts_set (c : Counter.t) (k : string) (v : Z) :
  sum_counts (Dict.set c k v) = sum_counts c - Counter.get c k + v.
Proof.
  unfold Counter.get. induction c as [|[k0 v0] c IH]; simpl.
  - lia.
  - destruct (String.eqb_spec k0 k) as [->|Hne]; simpl; lia.
Qed.

Lemma sum_counts_incr (c : Counter.t) (k : string) (n : Z) :
  sum_counts (Counter.incr c k n) = sum_counts c + n.
Proof. unfold Counter.incr. rewrite sum_counts_set. lia. Qed.

Lemma sum_counts_foldl (o c : Counter.t) :
  sum_counts (foldl add_item c o) = sum_counts c + sum_counts o.
Proof.
  revert c. induction o as [|[k v] o IH]; intros c; simpl; [lia|].
  rewrite IH. unfold add_item. rewrite sum_counts_incr. simpl. lia.
Qed.

Lemma sum_counts_iadd (c o : Counter.t) :
  wf_counter c → wf_counter o →
  sum_counts (Counter.iadd c o) = sum_counts c + sum_counts o.
Proof. intros. rewrite iadd_eq by done. apply sum_counts_foldl. Qed.

Lemma consistent_init : consistent LogMetrics_init.
Proof. split; simpl; try lia. apply wf_metrics_init. Qed.

Lemma consistent_applied (d : gmap string string) (m : LogMetrics) :
  valid_record d → consistent m → consistent (applied d m).
Proof.
  intros Hv [Hwf Hip Hua Huri H4 H5 He Ha].
  pose proof (applied_wf d m Hv Hwf) as Hwf'.
  destruct Hv as (ip & ua & req & st & n & ? & ? & ? & ? & ?).
  rewrite (applied_eq d _ ip ua req st n) in Hwf' |- * by done.
  unfold classified, counted in *.
  split; [done|..];
    repeat case_decide; simpl; rewrite ?sum_counts_incr;
    try destruct (Str.contains _ _); lia.
Qed.

Lemma consistent_merged (a b : LogMetrics) :
  consistent a → consistent b → consistent (merged a b).
Proof.
  intros [Hwa ? ? ? ? ? ? ?] [Hwb ? ? ? ? ? ? ?].
  pose proof (merged_wf a b Hwa Hwb) as Hwf.
  destruct Hwa as (? & ? & ?), Hwb as (? & ? & ?).
  rewrite merged_eq in Hwf |- *.
  split; [done|..]; simpl; rewrite ?sum_counts_iadd by done; lia.
Qed.

Lemma consistent_feed (rs : list (gmap string string)) (m : LogMetrics) :
  Forall valid_record rs → consistent m → consistent (feed rs m).
Proof.
  intros Hrs. revert m. induction Hrs as [|d rs Hd Hrs IH]; intros m Hm.
  - done.
  - simpl. apply IH. by apply consistent_applied.
Qed.

Lemma consistent_foldl_merged (ms : list LogMetrics) (m : LogMetrics) :
  Forall consistent ms → consistent m → consistent (foldl merged m ms).
Proof.
  intros Hms. revert m. induction Hms as [|b ms Hb Hms IH]; intros m Hm.
  - done.
  - simpl. apply IH. by apply consistent_merged.
Qed.

Lemma total_feed (rs : list (gmap string string)) (m : LogMetrics) :
  Forall valid_record rs →
  total_requests (feed rs m) = total_requests m + Z.of_nat (length rs).
Proof.
  intros Hrs. revert m. induction Hrs as [|d rs Hd Hrs IH]; intros m.
  - simpl. lia.
  - simpl. rewrite IH, total_applied by done. lia.
Qed.

Lemma records_on_valid (k : string) (rs : list (gmap string string * datetime)) :
  Forall (λ r, valid_record r.1) rs → Forall valid_record (records_on k rs).
Proof.
  intros Hrs. unfold records_on. apply Forall_fmap, Forall_forall.
  intros r [_ Hr]%list_elem_of_filter.
  rewrite Forall_forall in Hrs. by apply Hrs.
Qed.

Lemma records_on_nonempty (k : string)
    (rs : list (gmap string string * datetime)) :
  k ∈ date_key <$> rs → (0 < length (records_on k rs))%nat.
Proof.
  intros (r & -> & Hr)%list_elem_of_fmap.
  assert (r.1 ∈ records_on (date_key r) rs) as Hin.
  { unfold records_on. apply list_elem_of_fmap. exists r. split; [done|].
    by apply list_elem_of_filter. }
  destruct (records_on (date_key r) rs); [by apply elem_of_nil in Hin|].
  simpl. lia.
Qed.

Lemma scan_buckets_consistent (rs : list (gmap string string * datetime))
    (k : string) (m : LogMetrics) :
  Forall (λ r, valid_record r.1) rs →
  (k, m) ∈ metrics_by_date (foldl scan_step scan_init rs) →
  consistent m ∧ 1 ≤ total_requests m.
Proof.
  intros Hrs Hin. destruct (scan_day_buckets rs) as (Hnd & Hkeys & Hfeed).
  assert (k ∈ date_key <$> rs) as Hk.
  { apply Hkeys. apply list_elem_of_fmap. by exists (k, m). }
  apply elem_lookup in Hin; [|done]. apply Hfeed in Hin as ->.
  split.
  - apply consistent_feed; [by apply records_on_valid|apply consistent_init].
  - rewrite total_feed by (by apply records_on_valid).
    apply records_on_nonempty in Hk. simpl. lia.
Qed.

(** X5: Every aggregate of a report, the Summary as well as a day bucket,
    is consistent and counts at least one request: no bucket is empty,
    each of its three tables adds up to its total, and neither the error
    counts together nor the admin-ajax count exceed the total. *)
Theorem report_aggregates_consistent (lines : list string)
    (report : Dict.t LogMetrics) (k : string) (m : LogMetrics) :
  analyze_file lines = Return report → (k, m) ∈ report →
  consistent m ∧ 1 ≤ total_requests m.
Proof.
  intros [Hv ->]%analyze_file_Return_inv.
  pose proof (scan_min_max (timed_records lines)) as Hmm.
  pose proof (scan_sum_totals _ Hv) as Hsum.
  pose proof (scan_buckets_consistent (timed_records lines)) as Hb.
  revert Hmm Hsum Hb.
  generalize (foldl scan_step scan_init (timed_records lines)).
  intros σ Hmm Hsum Hb. unfold report_of.
  destruct (min_ts σ) as [mn|], (max_ts σ) as [mx|]; try (by apply Hb).
  destruct (Datetime.sub mx mn <? Datetime.timedelta_hours 24);
    [|by apply Hb].
  intros [= -> ->]%list_elem_of_singleton. split.
  - unfold merge_all. rewrite merge_all_foldl.
    apply consistent_foldl_merged; [|apply consistent_init].
    apply Forall_forall. intros b [[k b'] [-> Hin]]%list_elem_of_fmap.
    by apply (Hb k b').
  - rewrite total_merge_all, <- sum_totals_values, Hsum.
    destruct Hmm as [[Hin _] _]. destruct (timed_records lines); [|simpl; lia].
    by apply elem_of_nil in Hin.
Qed.

Lemma report_aggregates_consistent_witness :
  ∃ s, analyze_file short_log = Return [("Summary", s)] ∧
       consistent s ∧ 1 ≤ total_requests s.
Proof.
  eexists. split; [vm_compute; reflexivity|].
  eapply (report_aggregates_consistent short_log _ "Summary").
  - vm_compute. reflexivity.
  - apply list_elem_of_singleton. reflexivity.
Defined.

(** ** Conservation of the counts *)

(** A statistic added up over the buckets of a report. *)
Definition report_measure (report : Dict.t LogMetrics) (q : query) : Z :=
  foldr (λ kb acc, measure kb.2 q + acc) 0 report.

Lemma report_measure_set (buckets : Dict.t LogMetrics) (k : string)
    (v : LogMetrics) (q : query) :
  report_measure (Dict.set buckets k v) q
  = report_measure buckets q - measure (bucket buckets k) q + measure v q.
Proof.
  unfold bucket. induction buckets as [|[k0 v0] buckets IH]; simpl.
  - rewrite measure_init. lia.
  - destruct (String.eqb_spec k0 k) as [->|Hne]; simpl; lia.
Qed.

Lemma report_measure_values (report : Dict.t LogMetrics) (q : query) :
  report_measure report q
  = foldr (λ b acc, measure b q + acc) 0 (Dict.values report).
Proof.
  unfold Dict.values. induction report as [|[k b] report IH]; simpl; [done|].
  by rewrite IH.
Qed.

Lemma bucket_wf (buckets : Dict.t LogMetrics) (k : string) :
  Forall wf_metrics (Dict.values buckets) → wf_metrics (bucket buckets k).
Proof.
  intros Hwf. unfold bucket.
  destruct (Dict.lookup buckets k) as [b|] eqn:Hb; [|apply wf_metrics_init].
  apply lookup_Some_elem in Hb. rewrite Forall_forall in Hwf. apply Hwf.
  apply list_elem_of_fmap. by exists (k, b).
Qed.

Lemma contributions_snoc (rs : list (gmap string string))
    (d : gmap string string) (q : query) :
  contributions (rs ++ [d]) q = contributions rs q + contribution d q.
Proof. rewrite contributions_app. simpl. lia. Qed.

Lemma scan_report_measure (rs : list (gmap string string * datetime))
    (q : query) :
  Forall (λ r, valid_record r.1) rs →
  report_measure (metrics_by_date (foldl scan_step scan_init rs)) q
  = contributions rs.*1 q.
Proof.
  induction rs as [|[d t] rs IH] using rev_ind; intros Hv; [done|].
  apply Forall_app in Hv as [Hv Hd]. rewrite Forall_singleton in Hd.
  simpl in Hd. rewrite foldl_app, fmap_app.
  cbn [foldl scan_step metrics_by_date fst snd fmap list_fmap].
  rewrite report_measure_set, contributions_snoc, <- IH by done.
  rewrite measure_applied; [lia|done|].
  apply bucket_wf. by apply scan_values_wf.
Qed.

Lemma report_measure_analyze (lines : list string)
    (report : Dict.t LogMetrics) (q : query) :
  analyze_file lines = Return report →
  report_measure report q = contributions (timed_records lines).*1 q.
Proof.
  intros [Hv ->]%analyze_file_Return_inv.
  rewrite <- (scan_report_measure _ q Hv).
  pose proof (scan_values_wf _ Hv) as Hwf. revert Hwf.
  generalize (foldl scan_step scan_init (timed_records lines)).
  intros σ Hwf. unfold report_of.
  destruct (min_ts σ) as [mn|], (max_ts σ) as [mx|]; try done.
  destruct (Datetime.sub mx mn <? Datetime.timedelta_hours 24); [|done].
  cbn [report_measure foldr snd]. unfold merge_all.
  rewrite merge_all_foldl, measure_foldl_merged, measure_init,
    report_measure_values by (done || apply wf_metrics_init).
  lia.
Qed.

(** X6: Whatever the shape of the report, one Summary or one bucket per date,
    every statistic (the total, an error count, the admin-ajax count, the
    count of one address, user agent or request target) adds up over the
    buckets of the report to the sum of what each counted line contributes
    by itself: no request is lost or counted twice by the bucketing or by
    the merge into the Summary. *)
Theorem report_conserves_counts (lines : list string)
    (report : Dict.t LogMetrics) (q : query) :
  analyze_file lines = Return report →
  report_measure report q = contributions (timed_records lines).*1 q.
Proof. apply report_measure_analyze. Qed.

Lemma report_conserves_counts_witness :
  ∃ report, analyze_file long_log = Return report ∧
            report_measure report (QIp "127.0.0.1") = 2.
Proof.
  eexists. split; [vm_compute; reflexivity|].
  rewrite (report_conserves_counts long_log _ (QIp "127.0.0.1"))
    by (vm_compute; reflexivity).
  vm_compute. reflexivity.
Defined.

(** ** The order of the lines *)

Lemma timed_records_perm (lines lines' : list string) :
  lines ≡ₚ lines' → timed_records lines ≡ₚ timed_records lines'.
Proof.
  unfold timed_records. induction 1 as [|x l l' _ IH|x y l|l l' l'' _ IH1 _ IH2];
    cbn [omap list_omap].
  - done.
  - destruct (timed_record x); [by constructor|done].
  - destruct (timed_record x), (timed_record y); try done. apply perm_swap.
  - by etrans.
Qed.

Lemma records_on_perm (k : string)
    (rs rs' : list (gmap string string * datetime)) :
  rs ≡ₚ rs' → records_on k rs ≡ₚ records_on k rs'.
Proof. intros H. unfold records_on. by rewrite H. Qed.

Lemma agg_equiv_feed (rs rs' : list (gmap string string)) :
  Forall valid_record rs → rs ≡ₚ rs' →
  agg_equiv (feed rs LogMetrics_init) (feed rs' LogMetrics_init).
Proof.
  intros Hv Hp q.
  assert (Forall valid_record rs') as Hv' by (by rewrite <- Hp).
  rewrite !measure_feed by (done || apply wf_metrics_init).
  by rewrite (contributions_perm rs rs').
Qed.

Lemma extremes_perm (mn mx mn' mx' : datetime) (ts ts' : list datetime) :
  ts ≡ₚ ts' → is_min mn ts → is_max mx ts → is_min mn' ts' → is_max mx' ts' →
  Datetime.sub mx mn = Datetime.sub mx' mn'.
Proof.
  intros Hp [Hmn Hmin] [Hmx Hmax] [Hmn' Hmin'] [Hmx' Hmax'].
  unfold Datetime.sub.
  assert (mn ∈ ts') as H1 by (by rewrite <- Hp).
  assert (mx ∈ ts') as H2 by (by rewrite <- Hp).
  assert (mn' ∈ ts) as H3 by (by rewrite Hp).
  assert (mx' ∈ ts) as H4 by (by rewrite Hp).
  pose proof (Hmin _ H3). pose proof (Hmin' _ H1).
  pose proof (Hmax _ H4). pose proof (Hmax' _ H2). lia.
Qed.

Lemma summary_measure (rs : list (gmap string string * datetime)) (q : query) :
  Forall (λ r, valid_record r.1) rs →
  measure (merge_all (Dict.values
             (metrics_by_date (foldl scan_step scan_init rs)))) q
  = contributions rs.*1 q.
Proof.
  intros Hv. unfold merge_all.
  rewrite merge_all_foldl, measure_foldl_merged, measure_init,
    <- report_measure_values, scan_report_measure
    by (done || apply wf_metrics_init || by apply scan_values_wf).
  lia.
Qed.

Lemma day_buckets_perm (rs rs' : list (gmap string string * datetime))
    (days days' : Dict.t LogMetrics) :
  Forall (λ r, valid_record r.1) rs → rs ≡ₚ rs' →
  day_buckets days rs → day_buckets days' rs' →
  Dict.keys days ≡ₚ Dict.keys days' ∧
  ∀ k m m', Dict.lookup days k = Some m → Dict.lookup days' k = Some m' →
            agg_equiv m m'.
Proof.
  intros Hv Hp (Hnd & Hkeys & Hfeed) (Hnd' & Hkeys' & Hfeed'). split.
  - apply NoDup_Permutation; [done..|]. intros k.
    rewrite Hkeys, Hkeys'. by rewrite Hp.
  - intros k m m' ->%Hfeed ->%Hfeed'.
    apply agg_equiv_feed; [by apply records_on_valid|by apply records_on_perm].
Qed.

(** X7: The counts of a report do not depend on the order of the lines of
    the file: when the lines are permuted the report has the same labels,
    and under each label an aggregate with the same total, error counts,
    admin-ajax count and the same count for every address, user agent and
    request target.  (The order of the entries inside a table, and with it
    the ranking of entries with equal counts, may differ.) *)
Theorem analyze_file_line_order (lines lines' : list string)
    (report : Dict.t LogMetrics) :
  lines ≡ₚ lines' → analyze_file lines = Return report →
  ∃ report', analyze_file lines' = Return report' ∧
    Dict.keys report ≡ₚ Dict.keys report' ∧
    ∀ k m m', Dict.lookup report k = Some m →
              Dict.lookup report' k = Some m' → agg_equiv m m'.
Proof.
  intros Hp%timed_records_perm [Hv ->]%analyze_file_Return_inv.
  assert (Forall (λ r, valid_record r.1) (timed_records lines')) as Hv'
    by (by rewrite <- Hp).
  rewrite (analyze_file_Return lines') by done.
  eexists. split; [done|].
  revert Hp Hv Hv'.
  generalize (timed_records lines) (timed_records lines').
  intros rs rs' Hp Hv Hv'.
  pose proof (scan_min_max rs) as Hmm.
  pose proof (scan_min_max rs') as Hmm'.
  pose proof (day_buckets_perm rs rs' _ _ Hv Hp
                (scan_day_buckets rs) (scan_day_buckets rs')) as Hdays.
  pose proof (λ q, summary_measure rs q Hv) as Hsum.
  pose proof (λ q, summary_measure rs' q Hv') as Hsum'.
  unfold report_of.
  destruct (min_ts (foldl scan_step scan_init rs)) as [mn|],
           (max_ts (foldl scan_step scan_init rs)) as [mx|]; try done;
  destruct (min_ts (foldl scan_step scan_init rs')) as [mn'|],
           (max_ts (foldl scan_step scan_init rs')) as [mx'|]; try done.
  - destruct Hmm as [Hmn Hmx], Hmm' as [Hmn' Hmx'].
    assert (rs.*2 ≡ₚ rs'.*2) as Hp2 by (by rewrite Hp).
    rewrite (extremes_perm mn mx mn' mx' _ _ Hp2) by done.
    destruct (Datetime.sub mx' mn' <? Datetime.timedelta_hours 24); [|done].
    split; [done|]. intros k m m'. cbn [Dict.lookup].
    destruct (String.eqb "Summary" k); [|done]. intros [= <-] [= <-] q.
    rewrite Hsum, Hsum'. apply contributions_perm. by rewrite Hp.
  - subst rs'. apply Permutation_nil_r in Hp. subst rs.
    destruct Hmm as [[Hin _] _]. by apply elem_of_nil in Hin.
  - subst rs. apply Permutation_nil_l in Hp. subst rs'.
    destruct Hmm' as [[Hin _] _]. by apply elem_of_nil in Hin.
Qed.

Lemma analyze_file_line_order_witness :
  ∃ report', analyze_file (reverse long_log) = Return report' ∧
             Dict.keys report' ≡ₚ ["2025-12-09"; "2025-12-10"].
Proof.
  set (b := feed [mk_record "127.0.0.1" "UA1" "GET / HTTP/1.1" "200"]
                 LogMetrics_init).
  destruct (analyze_file_line_order long_log (reverse long_log)
              [("2025-12-09", b); ("2025-12-10", b)])
    as (report' & Hrun & Hkeys & _).
  - symmetry. apply reverse_Permutation.
  - vm_compute. reflexivity.
  - exists report'. split; [done|]. symmetry. exact Hkeys.
Defined.

(** ** Merging into a fresh aggregate *)

Lemma foldl_add_item_fresh (o c : Counter.t) :
  NoDup (Dict.keys o) → (∀ k, k ∈ Dict.keys o → k ∉ Dict.keys c) →
  foldl add_item c o = c ++ o.
Proof.
  revert c. induction o as [|[k v] o IH]; intros c Hnd Hfresh.
  - by rewrite app_nil_r.
  - cbn [Dict.keys fmap list_fmap fst] in Hnd.
    apply NoDup_cons in Hnd as [Hk Hnd].
    assert (k ∉ Dict.keys c) as Hkc by (apply Hfresh; by left).
    cbn [foldl]. unfold add_item at 2, Counter.incr. cbn [fst snd].
    rewrite set_new, get_absent, Z.add_0_l by done.
    rewrite IH; [by rewrite <- app_assoc|done|].
    intros k' Hk'. unfold Dict.keys. rewrite fmap_app.
    intros [?|[->|[]%elem_of_nil]%elem_of_cons]%elem_of_app.
    + revert H. apply Hfresh. by right.
    + done.
Qed.

Lemma iadd_nil_l (o : Counter.t) : wf_counter o → Counter.iadd [] o = o.
Proof.
  intros Ho. rewrite iadd_eq by (done || apply wf_counter_nil).
  rewrite foldl_add_item_fresh; [done|apply Ho|].
  intros k _ []%elem_of_nil.
Qed.

Lemma iadd_nil_r (c : Counter.t) : wf_counter c → Counter.iadd c [] = c.
Proof. intros Hc. unfold Counter.iadd. simpl. by apply keep_positive_wf. Qed.

Lemma merged_init_l (m : LogMetrics) :
  wf_metrics m → merged LogMetrics_init m = m.
Proof.
  intros (? & ? & ?). rewrite merged_eq. simpl.
  rewrite !iadd_nil_l by done. by destruct m as [? ? ? [? ?] ? ?].
Qed.

Lemma merged_init_r (m : LogMetrics) :
  wf_metrics m → merged m LogMetrics_init = m.
Proof.
  intros (? & ? & ?). rewrite merged_eq. simpl.
  rewrite !iadd_nil_r, !Z.add_0_r by done. by destruct m as [? ? ? [? ?] ? ?].
Qed.

(** A report with the single label Summary holds the merge of the day
    buckets of a scan that counted at least one line. *)
Lemma report_of_Summary (rs : list (gmap string string * datetime))
    (s : LogMetrics) :
  report_of (foldl scan_step scan_init rs) = [("Summary", s)] →
  s = merge_all (Dict.values (metrics_by_date (foldl scan_step scan_init rs))).
Proof.
  pose proof (day_buckets_no_Summary _ _ (scan_day_buckets rs)) as Hno.
  revert Hno. generalize (foldl scan_step scan_init rs).
  intros σ Hno Hrep. unfold report_of in Hrep.
  destruct (min_ts σ) as [mn|], (max_ts σ) as [mx|];
    try (rewrite Hrep in Hno; destruct Hno; by left).
  destruct (Datetime.sub mx mn <? Datetime.timedelta_hours 24);
    [congruence|rewrite Hrep in Hno; destruct Hno; by left].
Qed.

Lemma records_on_all (k : string) (rs : list (gmap string string * datetime)) :
  (∀ r, r ∈ rs → date_key r = k) → records_on k rs = rs.*1.
Proof.
  intros Hall. unfold records_on. f_equal.
  induction rs as [|r rs IH]; [done|].
  rewrite filter_cons_True by (apply Hall; by left).
  f_equal. apply IH. intros r' Hr'. apply Hall. by right.
Qed.

(** X8: Merging an aggregate built by [update] into a fresh aggregate, or a
    fresh aggregate into it, gives back the aggregate itself, the tables
    in the same order.  So when every counted line of a file bears the
    same date and the report is a Summary, the Summary is exactly the
    aggregate that one accumulator fed with the counted records in line
    order would hold. *)
Theorem merge_fresh_aggregate :
  (∀ m, wf_metrics m →
        merged LogMetrics_init m = m ∧ merged m LogMetrics_init = m) ∧
  (∀ lines s k,
     analyze_file lines = Return [("Summary", s)] →
     (∀ r, r ∈ timed_records lines → date_key r = k) →
     s = feed (timed_records lines).*1 LogMetrics_init).
Proof.
  split.
  - intros m Hm. split; [by apply merged_init_l|by apply merged_init_r].
  - intros lines s k [Hv Hrep]%analyze_file_Return_inv Hall.
    symmetry in Hrep.
    revert Hrep Hall Hv. generalize (timed_records lines).
    intros rs Hrep Hall Hv.
    pose proof (report_of_Summary rs s Hrep) as ->.
    destruct (scan_day_buckets rs) as (Hnd & Hkeys & Hfeed).
    assert (∀ k', k' ∈ Dict.keys (metrics_by_date (foldl scan_step scan_init rs))
                  → k' = k) as Hk.
    { intros k' (r & -> & Hr)%Hkeys%list_elem_of_fmap. by apply Hall. }
    destruct rs as [|r0 rs0]; [done|].
    assert (k ∈ Dict.keys (metrics_by_date
                             (foldl scan_step scan_init (r0 :: rs0)))) as Hin.
    { apply Hkeys, list_elem_of_fmap. exists r0. split; [|by left].
      symmetry. apply Hall. by left. }
    revert Hnd Hfeed Hk Hin.
    generalize (metrics_by_date (foldl scan_step scan_init (r0 :: rs0))).
    intros [|[k1 b1] [|[k2 b2] days]] Hnd Hfeed Hk Hin.
    + by apply elem_of_nil in Hin.
    + assert (k1 = k) as -> by (apply Hk; by left).
      specialize (Hfeed k b1). cbn [Dict.lookup] in Hfeed.
      rewrite String.eqb_refl in Hfeed. specialize (Hfeed eq_refl).
      rewrite records_on_all in Hfeed by done.
      unfold merge_all. rewrite merge_all_foldl.
      cbn [Dict.values fmap list_fmap snd foldl].
      rewrite merged_init_l; [exact Hfeed|].
      rewrite Hfeed. apply feed_wf; [|apply wf_metrics_init].
      by rewrite Forall_fmap.
    + assert (k1 = k) as -> by (apply Hk; by left).
      assert (k2 = k) as -> by (apply Hk; right; by left).
      cbn [Dict.keys fmap list_fmap fst] in Hnd.
      apply NoDup_cons in Hnd as [Hnd _]. destruct Hnd. by left.
Qed.

Lemma merge_fresh_aggregate_witness :
  ∃ s, analyze_file short_log = Return [("Summary", s)] ∧
       s = feed [mk_record "192.168.1.1" "UA1" "GET / HTTP/1.1" "200";
                 mk_record "10.0.0.1" "UA1" "GET / HTTP/1.1" "404"]
                LogMetrics_init.
Proof.
  eexists. split; [vm_compute; reflexivity|].
  etrans; [eapply (proj2 merge_fresh_aggregate short_log _ "2025-12-09")|].
  - vm_compute. reflexivity.
  - intros r Hr.
    assert (Forall (λ r, date_key r = "2025-12-09") (timed_records short_log))
      as Hall by (vm_compute; repeat constructor).
    rewrite Forall_forall in Hall. by apply Hall.
  - vm_compute. reflexivity.
Defined.
(** ** The order of the report: [print_report] *)

Lemma lookup_perm {V} (d d' : Dict.t V) (k : string) :
  NoDup (Dict.keys d) → d ≡ₚ d' → Dict.lookup d k = Dict.lookup d' k.
Proof.
  intros Hnd Hp.
  assert (NoDup (Dict.keys d')) as Hnd'.
  { unfold Dict.keys in *. by rewrite <- Hp. }
  destruct (Dict.lookup d k) as [v|] eqn:Hk.
  - apply lookup_Some_elem in Hk. rewrite Hp in Hk.
    symmetry. by apply elem_lookup.
  - destruct (Dict.lookup d' k) as [v'|] eqn:Hk'; [|done].
    apply lookup_Some_elem in Hk'. rewrite <- Hp in Hk'.
    apply elem_lookup in Hk'; [|done]. congruence.
Qed.

Lemma merge_sort_perm (l l' : list string) :
  l ≡ₚ l' → merge_sort String.le l = merge_sort String.le l'.
Proof.
  intros Hp. apply (StronglySorted_unique String.le).
  - apply StronglySorted_merge_sort; apply _.
  - apply StronglySorted_merge_sort; apply _.
  - by rewrite !merge_sort_Permutation.
Qed.

Lemma StronglySorted_keys {V} (d : Dict.t V) :
  StronglySorted String.le (Dict.keys d) →
  StronglySorted (λ a b, String.le a.1 b.1) d.
Proof.
  unfold Dict.keys. induction d as [|kb d IH]; [constructor|].
  rewrite fmap_cons. intros [Hs Hall]%StronglySorted_inv.
  constructor; [by apply IH|]. by rewrite Forall_fmap in Hall.
Qed.

(** The buckets of [results] in ascending order of their labels. *)
Definition by_label (results sorted : Dict.t LogMetrics) : Prop :=
  sorted ≡ₚ results ∧ StronglySorted (λ a b, String.le a.1 b.1) sorted.

Lemma sorted_keys_buckets (results : Dict.t LogMetrics) :
  NoDup (Dict.keys results) →
  ∃ sorted, by_label results sorted ∧
            Dict.keys sorted = merge_sort String.le (Dict.keys results).
Proof.
  intros Hnd.
  set (ks := merge_sort String.le (Dict.keys results)).
  assert (∀ k, k ∈ ks → is_Some (Dict.lookup results k)) as Hks.
  { intros k Hk. unfold ks in Hk. rewrite merge_sort_Permutation in Hk.
    destruct (Dict.lookup results k) eqn:E; [done|].
    by apply lookup_None in E. }
  assert (NoDup ks) as Hndk by (unfold ks; by rewrite merge_sort_Permutation).
  assert (StronglySorted String.le ks) as Hs
    by (apply StronglySorted_merge_sort; apply _).
  assert (∃ sorted, Dict.keys sorted = ks ∧
                    ∀ kb, kb ∈ sorted → kb ∈ results) as (sorted & Hk & Hin).
  { clear Hndk Hs. induction ks as [|k ks' IH].
    - exists []. split; [done|]. intros kb []%elem_of_nil.
    - destruct IH as (sorted & Hk & Hin).
      { intros k' Hk'. apply Hks. by right. }
      destruct (Hks k) as [b Hb]; [by left|].
      exists ((k, b) :: sorted). split; [simpl; by rewrite Hk|].
      intros kb [->|?]%elem_of_cons; [by apply lookup_Some_elem|by apply Hin]. }
  exists sorted. split; [split|done].
  - apply NoDup_Permutation.
    + apply (NoDup_fmap_1 fst). fold (Dict.keys sorted). by rewrite Hk.
    + by apply (NoDup_fmap_1 fst).
    + intros [k b]. split; [apply Hin|]. intros Hkb.
      assert (k ∈ Dict.keys sorted) as Hks'.
      { rewrite Hk. unfold ks. rewrite merge_sort_Permutation.
        apply list_elem_of_fmap. by exists (k, b). }
      apply list_elem_of_fmap in Hks' as ([k' b'] & -> & Hkb').
      pose proof (Hin _ Hkb') as Hkb''.
      apply elem_lookup in Hkb; [|done]. apply elem_lookup in Hkb''; [|done].
      simpl in *. congruence.
  - rewrite <- Hk in Hs. by apply StronglySorted_keys.
Qed.

(** X9: [print_report] prints every bucket once, by [print_metrics], in
    ascending order of the labels (compared as strings, by code point),
    and so prints the same text whatever the order in which the buckets
    were inserted into the dictionary. *)
Theorem print_report_sorted_by_label :
  (∀ results,
     NoDup (Dict.keys results) →
     ∃ sorted, by_label results sorted ∧
       print_report results
       = mjoin ((λ kb, print_metrics kb.1 kb.2) <$> sorted)) ∧
  (∀ results results',
     NoDup (Dict.keys results) → results ≡ₚ results' →
     print_report results = print_report results').
Proof.
  split.
  - intros results Hnd.
    destruct (sorted_keys_buckets results Hnd) as (sorted & Hby & Hk).
    exists sorted. split; [done|]. unfold print_report. rewrite <- Hk.
    f_equal. unfold Dict.keys. rewrite <- list_fmap_compose.
    apply list_fmap_ext. intros i [k b] Hi%list_elem_of_lookup_2. simpl.
    destruct Hby as [Hp _]. rewrite Hp in Hi.
    by rewrite (elem_lookup _ _ _ Hnd Hi).
  - intros results results' Hnd Hp. unfold print_report.
    rewrite (merge_sort_perm (Dict.keys results) (Dict.keys results'))
      by (unfold Dict.keys; by rewrite Hp).
    f_equal. apply list_fmap_ext. intros i k _.
    by rewrite (lookup_perm results results').
Qed.

Lemma print_report_sorted_by_label_witness :
  print_report [("2025-12-10", LogMetrics_init); ("2025-12-09", one_request)]
  = print_report [("2025-12-09", one_request); ("2025-12-10", LogMetrics_init)].
Proof.
  apply (proj2 print_report_sorted_by_label).
  - apply NoDup_cons_2; [by intros [=]%list_elem_of_singleton|].
    apply NoDup_singleton.
  - apply perm_swap.
Defined.

(** ** The labels of the day buckets *)

(** The calendar date of [t1] is not after that of [t2]. *)
Definition date_le (t1 t2 : datetime) : Prop :=
  year t1 < year t2 ∨
  (year t1 = year t2 ∧
   (month t1 < month t2 ∨ (month t1 = month t2 ∧ day t1 ≤ day t2))).

Lemma N_of_digit_char (n : Z) :
  N_of_ascii (Datetime.digit_char n) = Z.to_N (48 + n mod 10).
Proof.
  unfold Datetime.digit_char. apply N_ascii_embedding.
  pose proof (Z.mod_pos_bound n 10 ltac:(lia)). lia.
Qed.

Lemma compare_digit_char (a b : Z) :
  Ascii.compare (Datetime.digit_char a) (Datetime.digit_char b)
  = (a mod 10 ?= b mod 10).
Proof.
  unfold Ascii.compare. rewrite !N_of_digit_char.
  pose proof (Z.mod_pos_bound a 10 ltac:(lia)).
  pose proof (Z.mod_pos_bound b 10 ltac:(lia)).
  rewrite Z2N.inj_compare by lia. apply Z.add_compare_mono_l.
Qed.

Lemma compare_digits (a b : Z) (s s' : string) :
  String.compare (String (Datetime.digit_char a) s)
                 (String (Datetime.digit_char b) s')
  = match a mod 10 ?= b mod 10 with
    | Eq => String.compare s s'
    | c => c
    end.
Proof. simpl. by rewrite compare_digit_char. Qed.

Lemma compare_hyphen (s s' : string) :
  String.compare (String "-" s) (String "-" s') = String.compare s s'.
Proof. done. Qed.

Lemma pretty_N_char_digit_char (n : N) :
  pretty_N_char (n `mod` 10) = Datetime.digit_char (Z.of_N n).
Proof.
  unfold Datetime.digit_char.
  replace (Z.of_N n `mod` 10) with (Z.of_N (n `mod` 10))
    by (by rewrite N2Z.inj_mod).
  pose proof (N.mod_upper_bound n 10 ltac:(done)) as Hlt.
  generalize dependent (n `mod` 10)%N. intros k Hk.
  assert (k = 0 ∨ k = 1 ∨ k = 2 ∨ k = 3 ∨ k = 4 ∨ k = 5 ∨ k = 6 ∨ k = 7
          ∨ k = 8 ∨ k = 9)%N as Hcases by lia.
  repeat (destruct Hcases as [->|Hcases]; [reflexivity|]). by subst.
Qed.

(** A year of four digits is written with its four digits. *)
Lemma pretty_fmt4 (y : Z) : 1000 ≤ y ≤ 9999 → pretty y = Datetime.fmt4 y.
Proof.
  intros Hy. destruct y as [|p|p]; [lia| |lia].
  unfold pretty, pretty_Z, pretty, pretty_positive, pretty, pretty_N.
  rewrite decide_False by done.
  set (x := N.pos p). assert (Z.of_N x = Z.pos p) as Hx by done.
  assert (0 < x ∧ 0 < x `div` 10 ∧ 0 < x `div` 10 `div` 10
          ∧ 0 < x `div` 10 `div` 10 `div` 10
          ∧ x `div` 10 `div` 10 `div` 10 `div` 10 = 0)%N
    as (H0 & H1 & H2 & H3 & H4).
  { rewrite !N.Div0.div_div. change (10 * 10)%N with 100%N.
    change (100 * 10)%N with 1000%N. change (1000 * 10)%N with 10000%N.
    split_and!; try (apply N.div_str_pos; lia).
    - lia.
    - apply N.div_small. lia. }
  rewrite (pretty_N_go_step x) by done.
  rewrite (pretty_N_go_step (x `div` 10)) by done.
  rewrite (pretty_N_go_step (x `div` 10 `div` 10)) by done.
  rewrite (pretty_N_go_step (x `div` 10 `div` 10 `div` 10)) by done.
  rewrite H4, pretty_N_go_0, !pretty_N_char_digit_char.
  unfold Datetime.fmt4, Datetime.fmt2.
  rewrite !N2Z.inj_div, Hx, !Z.div_div by lia. done.
Qed.

Lemma compare_strftime_ymd (t1 t2 : datetime) :
  1000 ≤ year t1 ≤ 9999 → 1 ≤ month t1 ≤ 12 → 1 ≤ day t1 ≤ 31 →
  1000 ≤ year t2 ≤ 9999 → 1 ≤ month t2 ≤ 12 → 1 ≤ day t2 ≤ 31 →
  String.compare (Datetime.strftime_ymd t1) (Datetime.strftime_ymd t2)
  = match year t1 ?= year t2 with
    | Eq => match month t1 ?= month t2 with
            | Eq => day t1 ?= day t2
            | c => c
            end
    | c => c
    end.
Proof.
  intros Hy1 Hm1 Hd1 Hy2 Hm2 Hd2.
  unfold Datetime.strftime_ymd. rewrite !pretty_fmt4 by done.
  unfold Datetime.fmt4, Datetime.fmt2.
  rewrite !sapp_cons, !sapp_nil_l.
  repeat (rewrite compare_digits || rewrite compare_hyphen). simpl.
  generalize dependent (year t1). generalize dependent (year t2).
  generalize dependent (month t1). generalize dependent (month t2).
  generalize dependent (day t1). generalize dependent (day t2).
  intros d2 Hd2 d1 Hd1 m2 Hm2 m1 Hm1 y2 Hy2 y1 Hy1.
  repeat match goal with
         | |- context [?a mod 10 ?= ?b mod 10] =>
             destruct (Z.compare_spec (a mod 10) (b mod 10))
         end;
    repeat match goal with
           | |- context [?a ?= ?b] => destruct (Z.compare_spec a b)
           end;
    try done; exfalso; Z.div_mod_to_equations; lia.
Qed.

(** X10: The labels of the day buckets, compared as [print_report] compares
    them, are in the order of the calendar dates they stand for, for the
    years that are written with four digits: the report of a long log
    lists its days chronologically. *)
Theorem day_labels_chronological (t1 t2 : datetime) :
  Datetime.valid t1 = true → Datetime.valid t2 = true →
  1000 ≤ year t1 → 1000 ≤ year t2 →
  String.le (Datetime.strftime_ymd t1) (Datetime.strftime_ymd t2)
  ↔ date_le t1 t2.
Proof.
  intros (Hy1 & Hm1 & Hd1)%valid_ranges (Hy2 & Hm2 & Hd2)%valid_ranges Hk1 Hk2.
  unfold String.le, String.leb, date_le.
  rewrite compare_strftime_ymd by (done || lia).
  destruct (Z.compare_spec (year t1) (year t2));
    destruct (Z.compare_spec (month t1) (month t2));
    destruct (Z.compare_spec (day t1) (day t2));
    simpl; split; (done || lia).
Qed.

Lemma day_labels_chronological_witness :
  String.le "2025-12-09" "2026-01-02".
Proof.
  apply (day_labels_chronological
           (mkDatetime 2025 12 9 11 0 0 0 (-21600000000))
           (mkDatetime 2026 1 2 0 0 0 0 0)); [done|done|simpl; lia|simpl; lia|].
  left. simpl. lia.
Defined.

(** ** Timestamps as the access log writes them: [parse_log_date] *)

Definition month_abbr (m : Z) : string :=
  nth (Z.to_nat (m - 1))
      ["Jan"; "Feb"; "Mar"; "Apr"; "May"; "Jun";
       "Jul"; "Aug"; "Sep"; "Oct"; "Nov"; "Dec"] "".

(** A UTC offset of whole minutes, written [+hhmm] or [-hhmm]. *)
Definition offset_text (z : Z) : string :=
  let minutes := Z.abs z / 60000000 in
  (if z <? 0 then "-" else "+") +:+
  Datetime.fmt2 (minutes / 60) +:+ Datetime.fmt2 (minutes mod 60).

(** The text of [t] in the format ["%d/%b/%Y:%H:%M:%S %z"], every
    number with leading zeros. *)
Definition clf_timestamp (t : datetime) : string :=
  Datetime.fmt2 (day t) +:+ "/" +:+ month_abbr (month t) +:+ "/" +:+
  Datetime.fmt4 (year t) +:+ ":" +:+ Datetime.fmt2 (hour t) +:+ ":" +:+
  Datetime.fmt2 (minute t) +:+ ":" +:+ Datetime.fmt2 (second t) +:+ " " +:+
  offset_text (utcoffset t).

(** The fields that can be written in this way: a date of the year 0 to
    9999 with a month and a day up to 31, a time of day in seconds, and
    an offset of whole minutes within 24 hours. *)
Definition writable (t : datetime) : Prop :=
  0 ≤ year t ≤ 9999 ∧ 1 ≤ month t ≤ 12 ∧ 1 ≤ day t ≤ 31 ∧
  0 ≤ hour t ≤ 23 ∧ 0 ≤ minute t ≤ 59 ∧ 0 ≤ second t ≤ 59 ∧
  microsecond t = 0 ∧ utcoffset t mod 60000000 = 0 ∧
  - Datetime.timedelta_hours 24 < utcoffset t < Datetime.timedelta_hours 24.

Section StrptimeLemmas.
Import Strptime.

Lemma digit_digit_char (k : Z) (rest : string) :
  digit (String (Datetime.digit_char k) rest) = Some (k mod 10, rest).
Proof.
  pose proof (Z.mod_pos_bound k 10 ltac:(lia)) as Hk.
  unfold digit, digit_in, Str.isdigit, Str.digit_val.
  rewrite N_of_digit_char.
  replace (Z.of_N (Z.to_N (48 + k mod 10)) - 48) with (k mod 10) by lia.
  replace ((48 <=? Z.to_N (48 + k mod 10))%N) with true by (symmetry; apply N.leb_le; lia).
  replace ((Z.to_N (48 + k mod 10) <=? 57)%N) with true by (symmetry; apply N.leb_le; lia).
  replace (0 <=? k mod 10) with true by (symmetry; apply Z.leb_le; lia).
  replace (k mod 10 <=? 9) with true by (symmetry; apply Z.leb_le; lia).
  done.
Qed.

Lemma two_digit_fmt2 (n : Z) (rest : string) :
  0 ≤ n ≤ 99 → two digit digit (Datetime.fmt2 n +:+ rest) = Some (n, rest).
Proof.
  intros Hn. unfold two, Datetime.fmt2. rewrite !sapp_cons, sapp_nil_l.
  rewrite digit_digit_char. cbn [mbind option_bind].
  rewrite digit_digit_char. cbn [mbind option_bind].
  do 2 f_equal. Z.div_mod_to_equations. lia.
Qed.

Lemma directive_Y_fmt4 (y : Z) (rest : string) :
  0 ≤ y ≤ 9999 → directive_Y (Datetime.fmt4 y +:+ rest) = Some (y, rest).
Proof.
  intros Hy. unfold directive_Y, two, Datetime.fmt4, Datetime.fmt2.
  rewrite !sapp_cons, sapp_nil_l.
  repeat (rewrite digit_digit_char; cbn [mbind option_bind]).
  do 2 f_equal. Z.div_mod_to_equations. lia.
Qed.

(** The cases [lo], ..., [hi] of a natural number, each settled by
    evaluation. *)
Tactic Notation "by_cases" ident(k) integer(n) :=
  do n (destruct k as [|k]; [first [exfalso; lia | vm_compute; reflexivity]|]);
  exfalso; lia.

Lemma directive_d_fmt2 (n : Z) (rest : string) :
  1 ≤ n ≤ 31 → directive_d (Datetime.fmt2 n +:+ rest) = Some (n, rest).
Proof.
  intros Hn. replace n with (Z.of_nat (Z.to_nat n)) by lia.
  assert (1 ≤ Z.to_nat n ≤ 31)%nat as Hk by lia. revert Hk.
  generalize (Z.to_nat n). clear. intros k Hk. by_cases k 32.
Qed.

Lemma directive_b_abbr (n : Z) (rest : string) :
  1 ≤ n ≤ 12 → directive_b (month_abbr n +:+ rest) = Some (n, rest).
Proof.
  intros Hn. replace n with (Z.of_nat (Z.to_nat n)) by lia.
  assert (1 ≤ Z.to_nat n ≤ 12)%nat as Hk by lia. revert Hk.
  generalize (Z.to_nat n). clear. intros k Hk. by_cases k 13.
Qed.

Lemma directive_H_fmt2 (n : Z) (rest : string) :
  0 ≤ n ≤ 23 → directive_H (Datetime.fmt2 n +:+ rest) = Some (n, rest).
Proof.
  intros Hn. replace n with (Z.of_nat (Z.to_nat n)) by lia.
  assert (Z.to_nat n ≤ 23)%nat as Hk by lia. revert Hk.
  generalize (Z.to_nat n). clear. intros k Hk. by_cases k 24.
Qed.

Lemma directive_M_fmt2 (n : Z) (rest : string) :
  0 ≤ n ≤ 59 → directive_M (Datetime.fmt2 n +:+ rest) = Some (n, rest).
Proof.
  intros Hn. replace n with (Z.of_nat (Z.to_nat n)) by lia.
  assert (Z.to_nat n ≤ 59)%nat as Hk by lia. revert Hk.
  generalize (Z.to_nat n). clear. intros k Hk. by_cases k 60.
Qed.

Lemma directive_S_fmt2 (n : Z) (rest : string) :
  0 ≤ n ≤ 59 → directive_S (Datetime.fmt2 n +:+ rest) = Some (n, rest).
Proof.
  intros Hn. replace n with (Z.of_nat (Z.to_nat n)) by lia.
  assert (Z.to_nat n ≤ 59)%nat as Hk by lia. revert Hk.
  generalize (Z.to_nat n). clear. intros k Hk. by_cases k 60.
Qed.

(** The minutes of an offset, with nothing after them. *)
Lemma offset_minutes_fmt2 (n : Z) :
  0 ≤ n ≤ 59 →
  optional_colon (Datetime.fmt2 n) = Some (false, Datetime.fmt2 n) ∧
  two (digit_in 0 5) digit (Datetime.fmt2 n) = Some (n, "").
Proof.
  intros Hn. replace n with (Z.of_nat (Z.to_nat n)) by lia.
  assert (Z.to_nat n ≤ 59)%nat as Hk by lia. revert Hk.
  generalize (Z.to_nat n). clear. intros k Hk.
  do 60 (destruct k as [|k]; [split; vm_compute; reflexivity|]).
  exfalso; lia.
Qed.

Lemma literal_app (l rest : string) : literal l (l +:+ rest) = Some ((), rest).
Proof. unfold literal. by rewrite strip_prefix_app. Qed.

Lemma directive_z_offset_text (z : Z) :
  z mod 60000000 = 0 →
  - Datetime.timedelta_hours 24 < z < Datetime.timedelta_hours 24 →
  directive_z (offset_text z) = Some (z, "").
Proof.
  unfold Datetime.timedelta_hours. intros Hmod Hz.
  set (minutes := Z.abs z / 60000000).
  assert (0 ≤ minutes / 60 ≤ 23 ∧ 0 ≤ minutes mod 60 ≤ 59) as [Hh Hm]
    by (unfold minutes; Z.div_mod_to_equations; lia).
  destruct (offset_minutes_fmt2 (minutes mod 60) Hm) as [Hcolon Hmin].
  assert (z = (if z <? 0 then -1 else 1)
              * (((minutes / 60) * 3600 + (minutes mod 60) * 60) * 1000000 + 0))
    as Hval.
  { unfold minutes. destruct (Z.ltb_spec z 0); Z.div_mod_to_equations; lia. }
  unfold offset_text. fold minutes. rewrite Hval at 2.
  unfold directive_z, or_else.
  destruct (z <? 0); rewrite sapp_cons, sapp_nil_l; cbn [sign mbind option_bind];
    rewrite two_digit_fmt2 by lia; cbn [mbind option_bind];
    rewrite <- (sapp_nil_r (Datetime.fmt2 (minutes mod 60))) at 1;
    rewrite sapp_nil_r, Hcolon; cbn [mbind option_bind];
    rewrite Hmin; cbn [mbind option_bind]; done.
Qed.

Lemma whitespace_offset_text (z : Z) :
  whitespace (" " +:+ offset_text z) = Some ((), offset_text z).
Proof. unfold offset_text. by destruct (z <? 0). Qed.

(** The format matches the text of writable fields and gives the fields
    back. *)
Lemma match_format_clf (t : datetime) :
  writable t → match_format (clf_timestamp t) = Some t.
Proof.
  intros (Hy & Hmon & Hd & Hh & Hmi & Hs & Hus & Hz1 & Hz2).
  unfold match_format, clf_timestamp.
  rewrite directive_d_fmt2 by done. cbn [mbind option_bind].
  rewrite literal_app. cbn [mbind option_bind].
  rewrite directive_b_abbr by done. cbn [mbind option_bind].
  rewrite literal_app. cbn [mbind option_bind].
  rewrite directive_Y_fmt4 by done. cbn [mbind option_bind].
  rewrite literal_app. cbn [mbind option_bind].
  rewrite directive_H_fmt2 by done. cbn [mbind option_bind].
  rewrite literal_app. cbn [mbind option_bind].
  rewrite directive_M_fmt2 by done. cbn [mbind option_bind].
  rewrite literal_app. cbn [mbind option_bind].
  rewrite directive_S_fmt2 by done. cbn [mbind option_bind].
  rewrite whitespace_offset_text. cbn [mbind option_bind].
  rewrite directive_z_offset_text by done. cbn [mbind option_bind].
  rewrite decide_True by done. destruct t. simpl in *. by subst.
Qed.

End StrptimeLemmas.

Lemma parse_log_date_clf_text (t : datetime) :
  writable t →
  parse_log_date (clf_timestamp t)
  = if Datetime.valid t then Some t else None.
Proof.
  intros Ht. unfold parse_log_date, Strptime.strptime.
  by rewrite match_format_clf.
Qed.

Lemma valid_writable (t : datetime) :
  Datetime.valid t = true → microsecond t = 0 →
  utcoffset t mod 60000000 = 0 → writable t.
Proof.
  unfold Datetime.valid, writable. intros Hv Hus Hz.
  repeat (apply andb_true_iff in Hv as [Hv ?]).
  pose proof (valid_ranges t) as Hr.
  repeat match goal with
         | H : (_ <=? _) = true |- _ => apply Z.leb_le in H
         | H : (_ <? _) = true |- _ => apply Z.ltb_lt in H
         end.
  assert (day t ≤ 31); [|lia].
  etrans; [done|]. unfold Datetime.days_in_month.
  repeat case_match; lia.
Qed.

(** X11: A timestamp written in the format of the access log, two digits for
    the day, the English month abbreviation, four digits for the year,
    the time of day and an offset [+hhmm] or [-hhmm], is parsed to
    exactly the date, time and offset written. *)
Theorem parse_log_date_round_trip (t : datetime) :
  Datetime.valid t = true → microsecond t = 0 →
  utcoffset t mod 60000000 = 0 →
  parse_log_date (clf_timestamp t) = Some t.
Proof.
  intros Hv Hus Hz. rewrite parse_log_date_clf_text, Hv; [done|].
  by apply valid_writable.
Qed.

Lemma parse_log_date_round_trip_witness :
  parse_log_date "09/Dec/2025:11:00:00 -0600"
  = Some (mkDatetime 2025 12 9 11 0 0 0 (-21600000000)).
Proof.
  apply (parse_log_date_round_trip
           (mkDatetime 2025 12 9 11 0 0 0 (-21600000000))); done.
Defined.

(** X12: A day that the month does not have (the 31st of a month of 30 days,
    the 30th of February, the 29th of February outside a leap year) and
    the year 0000 are not accepted, although the text has the form the
    format asks for: [parse_log_date] returns [None], and the line is
    not counted. *)
Theorem parse_log_date_rejects_impossible_date (t : datetime) :
  writable t →
  year t = 0 ∨ Datetime.days_in_month (year t) (month t) < day t →
  parse_log_date (clf_timestamp t) = None.
Proof.
  intros Ht Hbad. rewrite parse_log_date_clf_text by done.
  destruct (Datetime.valid t) eqn:Hv; [|done]. exfalso.
  unfold Datetime.valid in Hv.
  repeat (apply andb_true_iff in Hv as [Hv ?]).
  repeat match goal with
         | H : (_ <=? _) = true |- _ => apply Z.leb_le in H
         | H : (_ <? _) = true |- _ => apply Z.ltb_lt in H
         end.
  lia.
Qed.

Lemma parse_log_date_rejects_impossible_date_witness :
  parse_log_date "29/Feb/2025:11:00:00 +0100" = None ∧
  parse_log_date "31/Apr/2024:23:59:59 -0600" = None.
Proof.
  split.
  - apply (parse_log_date_rejects_impossible_date
             (mkDatetime 2025 2 29 11 0 0 0 3600000000)).
    + unfold writable. split_and!; by vm_compute.
    + right. vm_compute. reflexivity.
  - apply (parse_log_date_rejects_impossible_date
             (mkDatetime 2024 4 31 23 59 59 0 (-21600000000))).
    + unfold writable. split_and!; by vm_compute.
    + right. vm_compute. reflexivity.
Defined.

(** ** [update] on a record that lacks a key *)

(** X13: [update] reads the keys of the record in the order ip, user_agent,
    request, status, each after it has recorded what it read before: a
    missing key raises [KeyError] for that key and leaves the aggregate
    with the total already incremented and the tables of the keys read
    so far already updated. *)
Theorem update_missing_key (d : gmap string string) (m : LogMetrics) :
  (d !! "ip" = None →
   update d m
   = (Raise (KeyError "ip"), set_total_requests (λ n, n + 1) m)) ∧
  (∀ ip, d !! "ip" = Some ip → d !! "user_agent" = None →
   update d m
   = (Raise (KeyError "user_agent"),
      set_ip_counter (λ c, Counter.incr c ip 1)
        (set_total_requests (λ n, n + 1) m))) ∧
  (∀ ip ua, d !! "ip" = Some ip → d !! "user_agent" = Some ua →
   d !! "request" = None →
   update d m
   = (Raise (KeyError "request"),
      set_ua_counter (λ c, Counter.incr c ua 1)
        (set_ip_counter (λ c, Counter.incr c ip 1)
           (set_total_requests (λ n, n + 1) m)))) ∧
  (∀ ip ua request, d !! "ip" = Some ip → d !! "user_agent" = Some ua →
   d !! "request" = Some request → d !! "status" = None →
   update d m = (Raise (KeyError "status"), counted ip ua request m)).
Proof.
  split_and!.
  - intros Hip. unfold update, getitem. by rewrite Hip.
  - intros ip Hip Hua. unfold update, getitem. by rewrite Hip, Hua.
  - intros ip ua Hip Hua Hreq. unfold update, getitem.
    by rewrite Hip, Hua, Hreq.
  - intros ip ua request Hip Hua Hreq Hst. unfold update, getitem, counted.
    rewrite Hip, Hua, Hreq, Hst. destruct m as [ipc uac uric [e4 e5] adm tot].
    unfold mbind, method_bind, mret, method_ret, modify, raise,
      set_total_requests, set_ip_counter, set_ua_counter, set_uri_counter,
      set_admin_ajax_count; simpl.
    destruct (Str.contains _ _); simpl; by rewrite ?Z.add_0_r.
Qed.

Lemma update_missing_key_witness :
  update (<["ip" := "10.0.0.1"]> ∅) LogMetrics_init
  = (Raise (KeyError "user_agent"),
     mkLogMetrics [("10.0.0.1", 1)] [] [] (ErrorCounts 0 0) 0 1).
Proof.
  apply (proj1 (proj2 (update_missing_key (<["ip" := "10.0.0.1"]> ∅)
                         LogMetrics_init)) "10.0.0.1"); done.
Defined.

(** ** Lines the pattern does not accept *)

(** X14: The pattern asks for an address of digits and dots at the very
    start of the line, followed by two hyphens for the identity and the
    user: a line that starts with any other character (a host name, a
    byte-order mark), and a line in which the run of digits and dots at
    its start is not followed by the two hyphens and the opening bracket
    (an IPv6 address, a user name instead of the hyphen), are not
    matched, and so are skipped by [analyze_file]. *)
Theorem parse_log_line_rejects :
  (∀ c s, Str.isdigit c = false → c ≠ "."%char →
          parse_log_line (String c s) = None) ∧
  (∀ ip c rest,
     Str.all (λ c, Str.isdigit c || Ascii.eqb "." c) ip = true →
     Str.isdigit c = false → c ≠ "."%char →
     Str.strip_prefix " - - [" (String c rest) = None →
     parse_log_line (ip +:+ String c rest) = None).
Proof.
  split.
  - intros c s Hc Hdot. apply parse_log_line_None.
    intros (f & rest & [[Hne Hip] _ _ _ _ _ _] & Heq).
    unfold serialize in Heq. destruct (f_ip f) as [|c' ip]; [done|].
    rewrite !sapp_cons in Heq. injection Heq as <- _.
    simpl in Hip. rewrite Hc in Hip. simpl in Hip.
    destruct (Ascii.eqb_spec "." c); [by subst|done].
  - intros ip c rest Hip Hc Hdot Hrest. apply parse_log_line_None.
    intros (f & rest' & [[_ Hip'] _ _ _ _ _ _] & Heq).
    unfold serialize in Heq. rewrite !sapp_assoc in Heq.
    change (" - - [" +:+ ?x) with (String " " ("- - [" +:+ x)) in Heq.
    apply (run_unique (λ c, Str.isdigit c || Ascii.eqb "." c)) in Heq
      as [_ Heq]; [|done..| |done].
    + change (String " " ("- - [" +:+ ?x)) with (" - - [" +:+ x) in Heq.
      apply strip_prefix_Some in Heq. congruence.
    + rewrite Hc. simpl. by destruct (Ascii.eqb_spec "." c).
Qed.

Lemma parse_log_line_rejects_witness :
  parse_log_line
    ("example.org - - [09/Dec/2025:11:00:00 -0600] " +:+ dq +:+
     "GET / HTTP/1.1" +:+ dq +:+ " 200 1024 " +:+ dq +:+ "-" +:+ dq +:+ " " +:+
     dq +:+ "UA1" +:+ dq) = None ∧
  parse_log_line
    ("10.0.0.1 - alice [09/Dec/2025:11:00:00 -0600] " +:+ dq +:+
     "GET / HTTP/1.1" +:+ dq +:+ " 200 1024 " +:+ dq +:+ "-" +:+ dq +:+ " " +:+
     dq +:+ "UA1" +:+ dq) = None.
Proof.
  split.
  - apply (proj1 parse_log_line_rejects "e"%char); by vm_compute.
  - apply (proj2 parse_log_line_rejects "10.0.0.1" " "%char); by vm_compute.
Defined.

(** ** Concatenated logs *)

Lemma contribution_nonneg (d : gmap string string) (q : query) :
  valid_record d → 0 ≤ contribution d q.
Proof.
  intros Hd. unfold contribution.
  destruct (consistent_applied d LogMetrics_init Hd consistent_init)
    as [(Hip & Hua & Huri) _ _ _ H4 H5 He Ha].
  destruct q; simpl; try lia; apply get_nonneg;
    [apply Hip|apply Hua|apply Huri].
Qed.

Lemma contributions_nonneg (rs : list (gmap string string)) (q : query) :
  Forall valid_record rs → 0 ≤ contributions rs q.
Proof.
  induction 1 as [|d rs Hd _ IH]; simpl; [done|].
  pose proof (contribution_nonneg d q Hd). lia.
Qed.

(** X15: The statistics of a file made of two files one after the other are
    the sums of the statistics of the two files, whether the reports are
    Summaries or by day; no count of a file goes down when lines are
    appended to it. *)
Theorem analyze_file_concatenation (lines1 lines2 : list string)
    (report1 report2 report : Dict.t LogMetrics) (q : query) :
  analyze_file lines1 = Return report1 →
  analyze_file lines2 = Return report2 →
  analyze_file (lines1 ++ lines2) = Return report →
  report_measure report q = report_measure report1 q + report_measure report2 q ∧
  report_measure report1 q ≤ report_measure report q.
Proof.
  intros H1%(report_measure_analyze _ _ q) H2 H%(report_measure_analyze _ _ q).
  pose proof (proj1 (analyze_file_Return_inv _ _ H2)) as Hv2.
  apply (report_measure_analyze _ _ q) in H2.
  unfold timed_records in H. rewrite omap_app, fmap_app, contributions_app in H.
  fold (timed_records lines1) (timed_records lines2) in H.
  pose proof (contributions_nonneg (timed_records lines2).*1 q) as Hnn.
  rewrite Forall_fmap in Hnn. specialize (Hnn Hv2).
  lia.
Qed.

Lemma analyze_file_concatenation_witness :
  ∃ report, analyze_file (short_log ++ long_log) = Return report ∧
            report_measure report QTotal = 4.
Proof.
  destruct (analyze_file short_log) as [r1|] eqn:H1; [|by vm_compute in H1].
  destruct (analyze_file long_log) as [r2|] eqn:H2; [|by vm_compute in H2].
  destruct (analyze_file (short_log ++ long_log)) as [r|] eqn:H;
    [|by vm_compute in H].
  exists r. split; [done|].
  destruct (analyze_file_concatenation _ _ _ _ _ QTotal H1 H2 H) as [-> _].
  vm_compute in H1. vm_compute in H2.
  injection H1 as <-. injection H2 as <-. vm_compute. reflexivity.
Defined.

(** ** The columns of a ranked line: [print_metrics] *)

Lemma length_pretty_N_go_ge (x : N) (s : string) :
  (String.length s ≤ String.length (pretty_N_go x s))%nat.
Proof.
  revert s. induction (N.lt_wf_0 x) as [x _ IH]; intros s.
  destruct (decide (x = 0)%N) as [->|Hx]; [by rewrite pretty_N_go_0|].
  rewrite pretty_N_go_step by lia.
  etrans; [|apply IH; apply N.div_lt; lia]. simpl. lia.
Qed.

Lemma length_pretty_N_go_upper (k : nat) (x : N) (s : string) :
  (x < 10 ^ N.of_nat k)%N →
  (String.length (pretty_N_go x s) ≤ k + String.length s)%nat.
Proof.
  revert x s. induction k as [|k IH]; intros x s Hx.
  - assert (x = 0%N) as -> by (simpl in Hx; lia). by rewrite pretty_N_go_0.
  - destruct (decide (x = 0)%N) as [->|Hx0]; [rewrite pretty_N_go_0; lia|].
    rewrite pretty_N_go_step by lia.
    etrans; [apply IH|simpl; lia].
    rewrite Nat2N.inj_succ, N.pow_succ_r' in Hx.
    apply N.Div0.div_lt_upper_bound. lia.
Qed.

Lemma length_pretty_N_go_lower (k : nat) (x : N) (s : string) :
  (10 ^ N.of_nat k ≤ x)%N →
  (k + 1 + String.length s ≤ String.length (pretty_N_go x s))%nat.
Proof.
  revert x s. induction k as [|k IH]; intros x s Hx.
  - simpl in Hx. rewrite pretty_N_go_step by lia.
    etrans; [|apply length_pretty_N_go_ge]. simpl. lia.
  - rewrite Nat2N.inj_succ, N.pow_succ_r' in Hx.
    assert (0 < 10 ^ N.of_nat k)%N by (apply N.neq_0_lt_0, N.pow_nonzero; lia).
    rewrite pretty_N_go_step by lia.
    etrans; [|apply IH]; [simpl; lia|].
    apply N.div_le_lower_bound; lia.
Qed.

Lemma length_pretty_Z (n : Z) :
  (0 ≤ n < 100000 → (String.length (pretty n) ≤ 5)%nat) ∧
  (10000 ≤ n → (5 ≤ String.length (pretty n))%nat).
Proof.
  destruct n as [|p|p]; [split; intros; [vm_compute; lia|lia]| |split; lia].
  unfold pretty, pretty_Z, pretty, pretty_positive, pretty, pretty_N.
  rewrite decide_False by done. split; intros Hp.
  - etrans; [apply (length_pretty_N_go_upper 5)|simpl; lia].
    change (10 ^ N.of_nat 5)%N with 100000%N. lia.
  - etrans; [|apply (length_pretty_N_go_lower 4)]; [simpl; lia|].
    change (10 ^ N.of_nat 4)%N with 10000%N. lia.
Qed.

Lemma length_spaces (k : nat) : String.length (spaces k) = k.
Proof. induction k as [|k IH]; simpl; [done|by rewrite IH]. Qed.

Lemma sdrop_app (s t : string) : Str.drop (String.length s) (s +:+ t) = t.
Proof. induction s as [|c s IH]; [by destruct t|]. by rewrite sapp_cons. Qed.

(** X16: A ranked line holds the count, left-aligned in a column of five
    characters, one space, and the value: for a count up to 99999 the
    value starts at the seventh character of the line, whatever the
    count; a count of five digits or more is written in full and not cut,
    and the value follows it after a single space. *)
Theorem ranked_line_columns (value : string) (count : Z) :
  (0 ≤ count < 100000 →
   String.length (ranked_line (value, count)) = (6 + String.length value)%nat ∧
   Str.drop 6 (ranked_line (value, count)) = value) ∧
  (10000 ≤ count →
   ranked_line (value, count) = pretty count +:+ " " +:+ value).
Proof.
  destruct (length_pretty_Z count) as [Hle Hge].
  unfold ranked_line. cbn [fst snd]. split.
  - intros Hc. specialize (Hle Hc).
    set (digits := pretty count) in *.
    assert (String.length (digits +:+ spaces (5 - String.length digits) +:+ " ")
            = 6%nat) as Hlen.
    { rewrite !slength_app, length_spaces. simpl. lia. }
    rewrite <- !sapp_assoc. split.
    + rewrite slength_app. rewrite <- !sapp_assoc in Hlen. rewrite Hlen. done.
    + rewrite <- !sapp_assoc in Hlen. rewrite <- Hlen at 1. apply sdrop_app.
  - intros Hc. specialize (Hge Hc).
    replace (5 - String.length (pretty count))%nat with 0%nat by lia. done.
Qed.

Lemma ranked_line_columns_witness :
  ranked_line ("10.0.0.1", 42) = "42    10.0.0.1" ∧
  Str.drop 6 (ranked_line ("10.0.0.1", 42)) = "10.0.0.1".
Proof.
  split; [vm_compute; reflexivity|].
  apply (proj1 (ranked_line_columns "10.0.0.1" 42)). lia.
Defined.

(** ** The tokens of a request line *)

Lemma split_go_tokens (cur : option string) (s : string) :
  (∀ acc, cur = Some acc → acc ≠ "" ∧ Str.all nonspace acc = true) →
  Forall token (Str.split_go cur s).
Proof.
  assert (∀ acc, acc ≠ "" ∧ Str.all nonspace acc = true →
                 token (String.rev acc)) as Hrev.
  { intros acc [Hne Hall]. unfold token, String.rev. split.
    - destruct acc as [|c acc]; [done|]. simpl.
      rewrite rev_app_acc. intros Heq.
      apply (f_equal String.length) in Heq. rewrite slength_app in Heq.
      simpl in Heq. lia.
    - by rewrite all_rev_app, Hall. }
  revert cur. induction s as [|c s IH]; intros cur Hcur; simpl.
  - destruct cur as [acc|]; simpl; [|constructor].
    constructor; [|constructor]. by apply Hrev, Hcur.
  - destruct (Str.isspace c) eqn:Hc.
    + apply Forall_app. split; [|by apply IH].
      destruct cur as [acc|]; simpl; [|constructor].
      constructor; [|constructor]. by apply Hrev, Hcur.
    + apply IH. intros acc [= <-]. split; [done|]. simpl.
      unfold nonspace at 1. rewrite Hc. simpl.
      destruct cur as [acc|]; simpl; [|done]. by apply Hcur.
Qed.

(** X17: The target counted by [update] is either the whole request line, for
    a request line of fewer than two tokens, or a token of it: a
    non-empty text without white space. *)
Theorem request_uri_is_token (request : string) :
  (1 < length (Str.split request))%nat → token (request_uri request).
Proof.
  intros Hlen. unfold request_uri. rewrite decide_True by done.
  pose proof (split_go_tokens None request) as Htok.
  fold (Str.split request) in Htok.
  destruct (Str.split request !! 1%nat) as [t|] eqn:Ht.
  - simpl. rewrite Forall_forall in Htok. apply Htok; [done|].
    by eapply list_elem_of_lookup_2.
  - apply lookup_ge_None in Ht. lia.
Qed.

Lemma request_uri_is_token_witness :
  token (request_uri "GET /index.html?x=1 HTTP/1.1").
Proof. apply request_uri_is_token. vm_compute. lia. Defined.

(** ** A log that grows *)

Lemma timed_records_subseteq (lines1 lines : list string) :
  lines1 ⊆ lines → timed_records lines1 ⊆ timed_records lines.
Proof.
  intros Hsub r. unfold timed_records. rewrite !list_elem_of_omap.
  intros (line & Hin & Hr). exists line. split; [by apply Hsub|done].
Qed.

(** X18: A report by day stays a report by day when lines are added to the
    file, wherever they are added: the span of the timestamps can only
    grow, so the report does not turn into a Summary, and every day that
    was reported is still reported. *)
Theorem daily_report_stays_daily (lines1 lines : list string)
    (report1 report : Dict.t LogMetrics) :
  lines1 ⊆ lines →
  analyze_file lines1 = Return report1 → report1 ≠ [] →
  "Summary" ∉ Dict.keys report1 →
  analyze_file lines = Return report →
  ("Summary" ∉ Dict.keys report) ∧ (Dict.keys report1 ⊆ Dict.keys report).
Proof.
  intros Hsub%timed_records_subseteq [_ ->]%analyze_file_Return_inv Hne Hno
         [_ ->]%analyze_file_Return_inv.
  revert Hsub Hne Hno.
  generalize (timed_records lines1) (timed_records lines).
  intros rs1 rs Hsub Hne Hno.
  pose proof (scan_min_max rs1) as Hmm1. pose proof (scan_min_max rs) as Hmm.
  destruct (scan_day_buckets rs1) as (_ & Hkeys1 & _).
  pose proof (scan_day_buckets rs) as Hdays.
  pose proof (day_buckets_no_Summary _ _ Hdays) as Hno'.
  destruct Hdays as (_ & Hkeys & _).
  assert (Dict.keys (metrics_by_date (foldl scan_step scan_init rs1))
          ⊆ Dict.keys (metrics_by_date (foldl scan_step scan_init rs))) as Hk.
  { intros k (r & -> & Hr)%Hkeys1%list_elem_of_fmap.
    apply Hkeys, list_elem_of_fmap. exists r. split; [done|by apply Hsub]. }
  unfold report_of in *.
  destruct (min_ts (foldl scan_step scan_init rs1)) as [mn1|],
           (max_ts (foldl scan_step scan_init rs1)) as [mx1|]; try done.
  - destruct (Z.ltb_spec (Datetime.sub mx1 mn1) (Datetime.timedelta_hours 24))
      as [Hlt|Hge]; [destruct Hno; by left|].
    destruct Hmm1 as [[Hmn1 _] [Hmx1 _]].
    assert (mn1 ∈ rs.*2 ∧ mx1 ∈ rs.*2) as [Hmn1' Hmx1'].
    { apply list_elem_of_fmap in Hmn1 as (r & -> & Hr).
      apply list_elem_of_fmap in Hmx1 as (r' & -> & Hr').
      split; apply list_elem_of_fmap; eexists; (split; [done|by apply Hsub]). }
    destruct (min_ts (foldl scan_step scan_init rs)) as [mn|],
             (max_ts (foldl scan_step scan_init rs)) as [mx|]; try done.
    destruct Hmm as [[_ Hmin] [_ Hmax]].
    specialize (Hmin _ Hmn1'). specialize (Hmax _ Hmx1').
    unfold Datetime.sub in *.
    destruct (Z.ltb_spec (Datetime.utc_micros mx - Datetime.utc_micros mn)
                (Datetime.timedelta_hours 24)); [lia|done].
  - subst rs1. by destruct Hne.
Qed.

Lemma daily_report_stays_daily_witness :
  ∃ report, analyze_file (short_log ++ long_log) = Return report ∧
            "Summary" ∉ Dict.keys report.
Proof.
  destruct (analyze_file long_log) as [r1|] eqn:H1; [|by vm_compute in H1].
  destruct (analyze_file (short_log ++ long_log)) as [r|] eqn:H;
    [|by vm_compute in H].
  exists r. split; [done|].
  apply (daily_report_stays_daily long_log (short_log ++ long_log) r1 r);
    [|done| | |done].
  - intros line Hin. apply elem_of_app. by right.
  - vm_compute in H1. by injection H1 as <-.
  - vm_compute in H1. injection H1 as <-. vm_compute.
    intros [[=]|[[=]|[]%elem_of_nil]%elem_of_cons]%elem_of_cons.
Defined.
